(** * imessage-for-me: the APNS courier codec, the decryptor and the session
      layer of [imessage-client], embedded in Rocq.

    The Go sources are modelled function by function.  Go values are
    represented as follows:
    - [byte], [uint8] : [Byte.byte];
    - [int], [uint16], [uint32] : [Z], with the modular wrap-around of the
      fixed-width types written out ([uint16], [uint32]);
    - a slice [[]T] : [list T]; a slice expression that is out of range is a
      run-time panic, kept as an outcome of its own.  A list carries no spare
      capacity, so a slice is modelled with [cap = len];
    - a function returning [(T, error)] : [result T];
    - a method that mutates its receiver : explicit state passing. *)

From Stdlib Require Import ZArith List String Lia Bool.
From Stdlib.Strings Require Import Byte.
From Stdlib Require Import DecimalString.
From Equations Require Import Equations.
Import ListNotations.
Local Open Scope string_scope.
Local Open Scope list_scope.
Local Open Scope Z_scope.

(* ================================================================== *)
(** ** The fragment of Go the sources rely on *)
(* ================================================================== *)

Module Go.

(** Arguments of a [fmt.Errorf] call other than the operand of [%w]. *)
Inductive fmtarg : Type :=
| ArgInt (n : Z)
| ArgStr (s : string)
| ArgBytes (b : list byte).

(** The dynamic types behind the [error] interface that occur in the
    repository: [errors.New], [fmt.Errorf] without and with [%w], and the
    struct [ids.IDSError] of package [ids]. *)
Inductive error : Type :=
| errorString (s : string)
| fmtError (format : string) (args : list fmtarg)
| wrapError (format : string) (args : list fmtarg) (inner : error)
| IDSError (ErrorCode : Z).

(** Outcome of a call: a value, a returned error, or a run-time panic. *)
Inductive result (A : Type) : Type :=
| Ok (a : A)
| Err (e : error)
| Panic (msg : string).
Arguments Ok {A} a.
Arguments Err {A} e.
Arguments Panic {A} msg.

Definition bind {A B} (r : result A) (k : A -> result B) : result B :=
  match r with
  | Ok a => k a
  | Err e => Err e
  | Panic m => Panic m
  end.

Definition len {A} (s : list A) : Z := Z.of_nat (List.length s).

(** [s[i]] *)
Definition index {A} (s : list A) (i : Z) : result A :=
  if (0 <=? i) && (i <? len s) then
    match nth_error s (Z.to_nat i) with
    | Some a => Ok a
    | None => Panic "index out of range"
    end
  else Panic "index out of range".

(** [s[lo:hi]] *)
Definition slice {A} (s : list A) (lo hi : Z) : result (list A) :=
  if (0 <=? lo) && (lo <=? hi) && (hi <=? len s) then
    Ok (firstn (Z.to_nat (hi - lo)) (skipn (Z.to_nat lo) s))
  else Panic "slice bounds out of range".

(** [s[lo:]] *)
Definition slice_from {A} (s : list A) (lo : Z) : result (list A) :=
  slice s lo (len s).

(** [s[:hi]] *)
Definition slice_to {A} (s : list A) (hi : Z) : result (list A) :=
  slice s 0 hi.

(** Conversions to the fixed-width unsigned types. *)
Definition uint8 (z : Z) : Z := z mod 2 ^ 8.
Definition uint16 (z : Z) : Z := z mod 2 ^ 16.
Definition uint32 (z : Z) : Z := z mod 2 ^ 32.

Definition byte_to_Z (b : byte) : Z := Z.of_N (Byte.to_N b).

(** [byte(z)] *)
Definition Z_to_byte (z : Z) : byte :=
  match Byte.of_N (Z.to_N (uint8 z)) with
  | Some b => b
  | None => x00
  end.

(** [encoding/binary], [BigEndian]. *)
Definition BigEndian_Uint16 (b : list byte) : result Z :=
  bind (index b 1) (fun b1 =>
  bind (index b 0) (fun b0 =>
  Ok (Z.lor (byte_to_Z b1) (Z.shiftl (byte_to_Z b0) 8)))).

Definition BigEndian_Uint32 (b : list byte) : result Z :=
  bind (index b 3) (fun b3 =>
  bind (index b 2) (fun b2 =>
  bind (index b 1) (fun b1 =>
  bind (index b 0) (fun b0 =>
  Ok (Z.lor (Z.lor (Z.lor (byte_to_Z b3) (Z.shiftl (byte_to_Z b2) 8))
                   (Z.shiftl (byte_to_Z b1) 16))
            (Z.shiftl (byte_to_Z b0) 24)))))).

(** [PutUint16] and [PutUint32], as the bytes they store. *)
Definition BigEndian_PutUint16 (v : Z) : list byte :=
  [Z_to_byte (Z.shiftr v 8); Z_to_byte v].

Definition BigEndian_PutUint32 (v : Z) : list byte :=
  [Z_to_byte (Z.shiftr v 24); Z_to_byte (Z.shiftr v 16);
   Z_to_byte (Z.shiftr v 8); Z_to_byte v].

(** [io.Reader] over a connection: the bytes that will still arrive, and the
    error every read reports once they are exhausted ([io.EOF] when the peer
    closes, another error when the socket is closed locally). *)
Record Reader : Type := mkReader {
  pending : list byte;
  at_end : error
}.

Definition io_EOF : error := errorString "EOF".
Definition io_ErrUnexpectedEOF : error := errorString "unexpected EOF".

Definition error_eqb_string (e : error) (s : string) : bool :=
  match e with
  | errorString s' => String.eqb s' s
  | _ => false
  end.

(** [io.ReadFull(r, buf)] with [len(buf) = n]: the bytes read, and the reader
    afterwards. *)
Definition io_ReadFull (r : Reader) (n : Z) : Reader * result (list byte) :=
  if n <=? 0 then (r, Ok [])
  else if n <=? len (pending r) then
    (mkReader (skipn (Z.to_nat n) (pending r)) (at_end r),
     Ok (firstn (Z.to_nat n) (pending r)))
  else
    (mkReader [] (at_end r),
     Err (match pending r with
          | [] => at_end r
          | _ :: _ => if error_eqb_string (at_end r) "EOF"
                      then io_ErrUnexpectedEOF else at_end r
          end)).

(** [r], with its error wrapped by [fmt.Errorf(format, err)], [%w] last. *)
Definition wrap {A} (format : string) (r : result A) : result A :=
  match r with
  | Err e => Err (wrapError format [] e)
  | _ => r
  end.






(** [%d] *)
Definition sprint_d (z : Z) : string := NilZero.string_of_int (Z.to_int z).

(** A [time.Time], as nanoseconds since the epoch. *)
Definition Time := Z.
Definition Time_After (t u : Time) : bool := u <? t.
Definition Time_Unix (t : Time) : Z := t / 1000000000.

(** A string built by [fmt.Sprintf], kept as the call. *)
Inductive textarg : Type :=
| TInt (n : Z)
| TStr (s : string)
| TBytes (b : list byte)
| TErr (e : error).

Inductive text : Type :=
| Lit (s : string)
| Sprintf (format : string) (args : list textarg).

(** A channel value: [nil], or a channel with its capacity and the elements
    buffered in it. *)
Record chan_state (A : Type) : Type := mkChan {
  chan_cap : nat;
  chan_buf : list A
}.
Arguments mkChan {A} chan_cap chan_buf.
Arguments chan_cap {A} c.
Arguments chan_buf {A} c.

Definition chan (A : Type) : Type := option (chan_state A).

(** [make(chan A, n)] *)
Definition make_chan {A} (n : nat) : chan A := Some (mkChan n []).

(** [select { case ch <- x: ... default: ... }] with no receiver parked on
    the channel: the channel afterwards, and whether the send case ran.  A
    send on a [nil] channel is never ready. *)
Definition try_send {A} (ch : chan A) (x : A) : chan A * bool :=
  match ch with
  | None => (None, false)
  | Some st =>
      if (List.length (chan_buf st) <? chan_cap st)%nat
      then (Some (mkChan (chan_cap st) (chan_buf st ++ [x])), true)
      else (ch, false)
  end.

(** [select { case x := <-ch: ... default: ... }] with no sender parked on
    the channel.  A receive on a [nil] channel is never ready. *)
Definition try_recv {A} (ch : chan A) : chan A * option A :=
  match ch with
  | None => (None, None)
  | Some st =>
      match chan_buf st with
      | [] => (ch, None)
      | x :: rest => (Some (mkChan (chan_cap st) rest), Some x)
      end
  end.

End Go.

Export Go.

Declare Scope go_scope.
Delimit Scope go_scope with go.
Notation "x <- e ;; k" := (bind e (fun x => k))
  (at level 61, e at next level, right associativity) : go_scope.
Local Open Scope go_scope.

(* ================================================================== *)
(** ** Library functions the sources import *)
(* ================================================================== *)

(** [crypto/rsa], [crypto/sha1], [crypto/aes] with [crypto/cipher],
    [compress/gzip] and [crypto/x509] are not part of the repository; the
    development is parametric in them. *)
Class Externals : Type := {
  (** a non-nil [*rsa.PrivateKey] *)
  PrivateKey : Type;
  (** [sha1.Sum] *)
  sha1_Sum : list byte -> list byte;
  (** [rsa.SignPKCS1v15(_, key, _, hashed)] *)
  rsa_SignPKCS1v15 : PrivateKey -> list byte -> result (list byte);
  (** [rsa.DecryptOAEP(sha1.New(), rand.Reader, key, ciphertext, nil)]; the
      plaintext is the tail of the decoded block and has no spare capacity *)
  rsa_DecryptOAEP : PrivateKey -> list byte -> result (list byte);
  (** [cipher.NewCTR(block, iv).XORKeyStream(buf, buf)] for the AES block
      of [key]: the contents of [buf] afterwards *)
  aes_ctr_XORKeyStream : forall (key iv buf : list byte), list byte;
  (** [io.ReadAll] of a [gzip.NewReader] over the data *)
  gzip_NewReader : list byte -> result unit;
  gzip_ReadAll : list byte -> result (list byte)
}.

(** [aes.NewCipher]: only keys of 16, 24 or 32 bytes are accepted. *)
Definition aes_NewCipher (key : list byte) : result (list byte) :=
  if (len key =? 16) || (len key =? 24) || (len key =? 32) then Ok key
  else Err (errorString "crypto/aes: invalid key size").

(** a non-nil [*x509.Certificate] *)
Record Certificate : Type := mkCertificate { Raw : list byte }.

(* ================================================================== *)
(** ** Package [apns]: binary.go, commands.go, topics.go, connection.go *)
(* ================================================================== *)

Module apns.

(** [CommandID] and [FieldID] are [uint8]. *)
Definition CommandID : Type := byte.

Definition CommandConnect : byte := x07.
Definition CommandConnectAck : byte := x08.
Definition CommandFilterTopics : byte := x09.
Definition CommandSendMessage : byte := x0a.
Definition CommandSendMessageAck : byte := x0b.
Definition CommandKeepAlive : byte := x0c.
Definition CommandKeepAliveAck : byte := x0d.
Definition CommandFilterTopicsAck : byte := x0e.
Definition CommandSetState : byte := x14.

Definition FieldID : Type := byte.

Record Field : Type := mkField {
  Field_ID : byte;
  Field_Value : list byte
}.

Record Payload : Type := mkPayload {
  Payload_ID : byte;
  Payload_Fields : list Field
}.

(** The zero value [Payload{}]. *)
Definition Payload_zero : Payload := mkPayload x00 [].

Definition set_ID (p : Payload) (id : byte) : Payload :=
  mkPayload id (Payload_Fields p).

(** [p.Fields = append(p.Fields, field)] *)
Definition append_field (p : Payload) (f : Field) : Payload :=
  mkPayload (Payload_ID p) (Payload_Fields p ++ [f]).

(** [FindField]: the value of the first field with the id, or [nil]. *)
Fixpoint FindField_fields (fs : list Field) (fieldID : byte) : list byte :=
  match fs with
  | [] => []
  | f :: fs' =>
      if Byte.eqb (Field_ID f) fieldID then Field_Value f
      else FindField_fields fs' fieldID
  end.

Definition FindField (p : Payload) (fieldID : byte) : list byte :=
  FindField_fields (Payload_Fields p) fieldID.

(** [ToBytes].  [fields_length] is the value of [length - 5] after the first
    loop; [field_bytes] is what one iteration of the second loop stores at
    [ptr]. *)
Definition fields_length (fs : list Field) : Z :=
  fold_left (fun acc f => acc + (3 + len (Field_Value f))) fs 0.

Definition field_bytes (f : Field) : list byte :=
  Field_ID f :: BigEndian_PutUint16 (uint16 (len (Field_Value f)))
    ++ Field_Value f.

Definition fields_bytes (fs : list Field) : list byte :=
  flat_map field_bytes fs.

Definition ToBytes (p : Payload) : list byte :=
  Payload_ID p
    :: BigEndian_PutUint32 (uint32 (fields_length (Payload_Fields p)))
    ++ fields_bytes (Payload_Fields p).

(** The loop of [unmarshalFieldsFromBytes], from index [i] on. *)
Definition errInvalidFieldLength : error := fmtError "invalid field length" [].

Definition read_field_header (data : list byte) (i : Z) : result (byte * Z) :=
  id <- index data i ;;
  lenb <- slice data (i + 1) (i + 3) ;;
  fieldLength <- BigEndian_Uint16 lenb ;;
  Ok (id, fieldLength).

(** Keeps the equation of a scrutinee in scope of the branches. *)
Definition inspect {A} (a : A) : {b : A | a = b} := exist _ a eq_refl.

Equations? unmarshalFields_loop (data : list byte) (i : Z) (p : Payload)
  : Payload * result unit by wf (Z.to_nat (len data - i)) lt :=
unmarshalFields_loop data i p with Z_le_gt_dec (i + 3) (len data) => {
  | right _ := (p, Ok tt)
  | left _ with inspect (read_field_header data i) => {
      | exist _ (Panic m) _ := (p, Panic m)
      | exist _ (Err e) _ := (p, Err e)
      | exist _ (Ok (id, fieldLength)) Hhdr
          with Z_gt_le_dec (i + 3 + fieldLength) (len data) => {
          | left _ := (p, Err errInvalidFieldLength)
          | right _ with slice data (i + 3) (i + 3 + fieldLength) => {
              | Panic m := (p, Panic m)
              | Err e := (p, Err e)
              | Ok value :=
                  unmarshalFields_loop data (i + 3 + fieldLength)
                    (append_field p (mkField id value)) } } } }.
Proof.
  assert (0 <= fieldLength); [| lia].
  revert Hhdr. unfold read_field_header, BigEndian_Uint16, bind.
  destruct (index data i); try discriminate.
  destruct (slice data (i + 1) (i + 3)) as [lenb | |]; try discriminate.
  destruct (index lenb 1) as [b1 | |]; try discriminate.
  destruct (index lenb 0) as [b0 | |]; try discriminate.
  intros Hhdr.
  assert (fieldLength = Z.lor (byte_to_Z b1) (Z.shiftl (byte_to_Z b0) 8))
    as -> by congruence.
  rewrite Z.lor_nonneg, Z.shiftl_nonneg.
  split; apply N2Z.is_nonneg.
Qed.

Definition unmarshalFieldsFromBytes (p : Payload) (data : list byte)
  : Payload * result unit :=
  unmarshalFields_loop data 0 p.

Definition errEmptyPayload : error := fmtError "empty payload" [].
Definition errInvalidPayloadLength : error :=
  fmtError "invalid payload length" [].

(** [UnmarshalBinary]: the receiver after the call, and the outcome. *)
Definition UnmarshalBinary (p : Payload) (data : list byte)
  : Payload * result unit :=
  if len data =? 0 then (p, Err errEmptyPayload)
  else
    match index data 0 with
    | Ok id =>
        let p := set_ID p id in
        if Byte.eqb (Payload_ID p) x00 then (p, Ok tt)
        else if len data <? 5 then (p, Err errInvalidPayloadLength)
        else
          match (lenb <- slice data 1 5 ;; BigEndian_Uint32 lenb) with
          | Ok length =>
              match slice data 5 (uint32 (5 + length)) with
              | Ok body => unmarshalFieldsFromBytes p body
              | Err e => (p, Err e)
              | Panic m => (p, Panic m)
              end
          | Err e => (p, Err e)
          | Panic m => (p, Panic m)
          end
    | Err e => (p, Err e)
    | Panic m => (p, Panic m)
    end.

(** [UnmarshalBinaryStream]: the reader and the receiver after the call, and
    the outcome. *)
Definition UnmarshalBinaryStream (p : Payload) (reader : Reader)
  : Reader * Payload * result unit :=
  match io_ReadFull reader 1 with
  | (reader, Ok b) =>
      match index b 0 with
      | Ok id =>
          let p := set_ID p id in
          if Byte.eqb (Payload_ID p) x00 then (reader, p, Ok tt)
          else
            match io_ReadFull reader 4 with
            | (reader, Ok readBuf) =>
                match BigEndian_Uint32 readBuf with
                | Ok length =>
                    match io_ReadFull reader length with
                    | (reader, Ok data) =>
                        let (p, r) := unmarshalFieldsFromBytes p data in
                        (reader, p, r)
                    | (reader, Err e) => (reader, p, Err e)
                    | (reader, Panic m) => (reader, p, Panic m)
                    end
                | Err e => (reader, p, Err e)
                | Panic m => (reader, p, Panic m)
                end
            | (reader, Err e) => (reader, p, Err e)
            | (reader, Panic m) => (reader, p, Panic m)
            end
      | Err e => (reader, p, Err e)
      | Panic m => (reader, p, Panic m)
      end
  | (reader, Err e) => (reader, p, Err e)
  | (reader, Panic m) => (reader, p, Panic m)
  end.

(** *** commands.go *)

Definition ConnectionFlag := Z.
Definition BaseConnectionFlags : ConnectionFlag := 65.   (* 0b1000001 *)
Definition RootConnection : ConnectionFlag := 4.         (* 0b100 *)

Definition ConnectionFlag_ToBytes (c : ConnectionFlag) : list byte :=
  BigEndian_PutUint32 (uint32 c).

Record ConnectCommand : Type := mkConnectCommand {
  DeviceToken : list byte;
  State : list byte;
  Flags : ConnectionFlag;
  Cert : list byte;
  Nonce : list byte;
  Signature : list byte
}.

Definition ConnectCommand_ToPayload (c : ConnectCommand) : Payload :=
  mkPayload CommandConnect
    [mkField x01 (DeviceToken c);
     mkField x02 (State c);
     mkField x05 (ConnectionFlag_ToBytes (Flags c));
     mkField x0c (Cert c);
     mkField x0d (Nonce c);
     mkField x0e (Signature c)].

Record ConnectAckCommand : Type := mkConnectAckCommand {
  Status : list byte;
  Token : list byte;
  MaxMessageSize : Z;
  Unknown5 : list byte;
  Capabilities : list byte;
  LargeMessageSize : Z;
  ServerTimestamp : Z
}.

(** [uint16(val[0])<<8 | uint16(val[1])] when [len(val) >= 2], else the
    field keeps its zero value. *)
Definition be16_or_zero (val : list byte) : Z :=
  match val with
  | v0 :: v1 :: _ =>
      Z.lor (uint16 (Z.shiftl (byte_to_Z v0) 8)) (byte_to_Z v1)
  | _ => 0
  end.

Definition be64_or_zero (val : list byte) : Z :=
  match val with
  | v0 :: v1 :: v2 :: v3 :: v4 :: v5 :: v6 :: v7 :: _ =>
      Z.lor (Z.lor (Z.lor (Z.lor (Z.lor (Z.lor (Z.lor
        (Z.shiftl (byte_to_Z v0) 56) (Z.shiftl (byte_to_Z v1) 48))
        (Z.shiftl (byte_to_Z v2) 40)) (Z.shiftl (byte_to_Z v3) 32))
        (Z.shiftl (byte_to_Z v4) 24)) (Z.shiftl (byte_to_Z v5) 16))
        (Z.shiftl (byte_to_Z v6) 8)) (byte_to_Z v7)
  | _ => 0
  end.

(** [FromPayload] on the zero value [var ack ConnectAckCommand]. *)
Definition ConnectAckCommand_FromPayload (p : Payload) : ConnectAckCommand :=
  mkConnectAckCommand
    (FindField p x01) (FindField p x03) (be16_or_zero (FindField p x04))
    (FindField p x05) (FindField p x06) (be16_or_zero (FindField p x08))
    (be64_or_zero (FindField p x0a)).

Record FilterTopicsCommand : Type := mkFilterTopicsCommand {
  FilterTopics_Token : list byte;
  Topics : list (list byte)
}.

Definition FilterTopicsCommand_ToPayload (f : FilterTopicsCommand) : Payload :=
  mkPayload CommandFilterTopics
    (fold_left (fun fields topic => fields ++ [mkField x02 topic])
       (Topics f) [mkField x01 (FilterTopics_Token f)]).

Record SetStateCommand : Type := mkSetStateCommand {
  SetState_State : byte;
  FieldTwo : Z
}.

Definition SetStateCommand_ToPayload (s : SetStateCommand) : Payload :=
  mkPayload CommandSetState
    [mkField x01 [SetState_State s];
     mkField x02 [Z_to_byte (Z.shiftr (FieldTwo s) 24);
                  Z_to_byte (Z.shiftr (FieldTwo s) 16);
                  Z_to_byte (Z.shiftr (FieldTwo s) 8);
                  Z_to_byte (FieldTwo s)]].

Record IncomingSendMessageCommand : Type := mkIncomingSendMessageCommand {
  MessageID : list byte;
  Incoming_Token : list byte;
  Incoming_Topic : list byte;
  Incoming_Payload : list byte;
  Expiration : list byte;
  Timestamp : list byte;
  Unknown7 : list byte
}.

Definition IncomingSendMessageCommand_FromPayload (p : Payload)
  : IncomingSendMessageCommand :=
  mkIncomingSendMessageCommand
    (FindField p x04) (FindField p x01) (FindField p x02) (FindField p x03)
    (FindField p x05) (FindField p x06) (FindField p x07).

(** [KeepAliveCommand.ToPayload] *)
Definition KeepAliveCommand_ToPayload : Payload :=
  mkPayload CommandKeepAlive [].

(** *** connection.go *)

Definition ErrNotConnected : error := errorString "not connected to APNS".
Definition ErrNoToken : error := errorString "no push token available".

(** [string(msg.Topic)] keeps the bytes. *)
Record SendMessagePayload : Type := mkSendMessagePayload {
  Topic : list byte;
  Payload_bytes : list byte
}.

(** What happened on the socket, in order. *)
Inductive io_event : Type :=
| EvRead (r : result Payload)
| EvWrite (data : list byte) (failure : option error).

(** An open [net.Conn]: the inbound stream, the outcome of each future
    [Write] (with its [SetWriteDeadline]), success once the list is used up,
    and the log of the reads and writes done so far. *)
Record Conn : Type := mkConn {
  inbound : Reader;
  write_outcomes : list (option error);
  io_log : list io_event
}.

Section Connection.
Context `{Externals}.

(** The registered handler is a closure over its owner (the session).  The
    connection records whether one is set ([messageHandler != nil]); the
    code of the handler is handed to [ReadLoop], over the state [W] of the
    owner. *)
Record Connection : Type := mkConnection {
  privateKey : option PrivateKey;
  deviceCert : option Certificate;
  token : list byte;
  conn : option Conn;
  messageHandler : bool;
  maxMessageSize : Z;
  maxLargeMessageSize : Z
}.

Variable W : Type.

Definition MessageHandler : Type :=
  SendMessagePayload -> W -> W * result unit.

Variable handler : MessageHandler.

Definition NewConnection (privateKey : option PrivateKey)
    (deviceCert : option Certificate) (token : list byte) : Connection :=
  mkConnection privateKey deviceCert token None false (4 * 1024) (15 * 1024).

Definition set_conn (c : Connection) (cn : option Conn) : Connection :=
  mkConnection (privateKey c) (deviceCert c) (token c) cn
    (messageHandler c) (maxMessageSize c) (maxLargeMessageSize c).

Definition set_token (c : Connection) (t : list byte) : Connection :=
  mkConnection (privateKey c) (deviceCert c) t (conn c)
    (messageHandler c) (maxMessageSize c) (maxLargeMessageSize c).

Definition set_maxMessageSize (c : Connection) (n : Z) : Connection :=
  mkConnection (privateKey c) (deviceCert c) (token c) (conn c)
    (messageHandler c) n (maxLargeMessageSize c).

Definition set_maxLargeMessageSize (c : Connection) (n : Z) : Connection :=
  mkConnection (privateKey c) (deviceCert c) (token c) (conn c)
    (messageHandler c) (maxMessageSize c) n.

Definition SetMessageHandler (c : Connection) (set : bool) : Connection :=
  mkConnection (privateKey c) (deviceCert c) (token c) (conn c)
    set (maxMessageSize c) (maxLargeMessageSize c).

(** [c.write(data)] *)
Definition write (c : Connection) (data : list byte)
  : Connection * result unit :=
  match conn c with
  | None => (c, Err ErrNotConnected)
  | Some cn =>
      match write_outcomes cn with
      | Some e :: rest =>
          (set_conn c (Some (mkConn (inbound cn) rest
                               (io_log cn ++ [EvWrite data (Some e)]))),
           Err e)
      | None :: rest =>
          (set_conn c (Some (mkConn (inbound cn) rest
                               (io_log cn ++ [EvWrite data None]))),
           Ok tt)
      | [] =>
          (set_conn c (Some (mkConn (inbound cn) []
                               (io_log cn ++ [EvWrite data None]))),
           Ok tt)
      end
  end.

(** [c.readPayload()] *)
Definition readPayload (c : Connection) : Connection * result Payload :=
  match conn c with
  | None => (c, Err ErrNotConnected)
  | Some cn =>
      let '(reader, payload, r) :=
        UnmarshalBinaryStream Payload_zero (inbound cn) in
      let r' := bind r (fun _ => Ok payload) in
      (set_conn c (Some (mkConn reader (write_outcomes cn)
                           (io_log cn ++ [EvRead r']))),
       r')
  end.

(** What [Connect] draws from its surroundings: [mathrand.Intn], the TLS
    dial to the chosen courier host, and the 20 bytes of [rand.Read]. *)
Record ConnectEnv : Type := mkConnectEnv {
  rand_Intn : Z;
  dial : Z -> result Conn;
  rand_Read : result (list byte)
}.

Definition ack_rejected (status : list byte) : bool :=
  match status with
  | s0 :: _ => negb (Byte.eqb s0 x00)
  | [] => false
  end.

(** The tail of [Connect], once the ack frame has been read. *)
Definition Connect_ack (c : Connection) (payload : Payload)
  : Connection * result unit :=
  if negb (Byte.eqb (Payload_ID payload) CommandConnectAck) then
    (c, Err (fmtError "unexpected response to connect: command %d"
               [ArgInt (byte_to_Z (Payload_ID payload))]))
  else
    let ack := ConnectAckCommand_FromPayload payload in
    if ack_rejected (Status ack) then
      (c, Err (fmtError "connection rejected by APNS, status: %x"
                 [ArgBytes (Status ack)]))
    else
      let c := if 0 <? len (Token ack) then set_token c (Token ack) else c in
      let c := if 0 <? MaxMessageSize ack
               then set_maxMessageSize c (MaxMessageSize ack) else c in
      let c := if 0 <? LargeMessageSize ack
               then set_maxLargeMessageSize c (LargeMessageSize ack) else c in
      (c, Ok tt).

(** The part of [Connect] after the two precondition checks. *)
Definition Connect_handshake (env : ConnectEnv) (key : PrivateKey)
    (cert : Certificate) (c : Connection) : Connection * result unit :=
  let hostNum := rand_Intn env + 1 in
  match dial env hostNum with
  | Err e => (c, Err (wrapError "failed to dial APNS: %w" [] e))
  | Panic m => (c, Panic m)
  | Ok cn =>
      let c := set_conn c (Some cn) in
      match rand_Read env with
      | Err e => (c, Err (wrapError "failed to generate nonce: %w" [] e))
      | Panic m => (c, Panic m)
      | Ok [] => (c, Panic "index out of range")
      | Ok (_ :: nonce_tl) =>
          let nonce := x00 :: nonce_tl in
          let sum := sha1_Sum nonce in
          match rsa_SignPKCS1v15 key sum with
          | Err e => (c, Err (wrapError "failed to sign nonce: %w" [] e))
          | Panic m => (c, Panic m)
          | Ok signature =>
              let connectCmd :=
                mkConnectCommand (token c) [x01]
                  (Z.lor BaseConnectionFlags RootConnection)
                  (Raw cert) nonce ([x01; x01] ++ signature) in
              match write c (ToBytes (ConnectCommand_ToPayload connectCmd)) with
              | (c, Err e) =>
                  (c, Err (wrapError "failed to send connect command: %w" [] e))
              | (c, Panic m) => (c, Panic m)
              | (c, Ok _) =>
                  match readPayload c with
                  | (c, Err e) =>
                      (c, Err (wrapError "failed to read connect ack: %w" [] e))
                  | (c, Panic m) => (c, Panic m)
                  | (c, Ok payload) => Connect_ack c payload
                  end
              end
          end
      end
  end.

(** [Connect] *)
Definition Connect (env : ConnectEnv) (c : Connection)
  : Connection * result unit :=
  match privateKey c, deviceCert c with
  | Some key, Some cert =>
      if len (token c) =? 0 then (c, Err ErrNoToken)
      else Connect_handshake env key cert c
  | _, _ => (c, Err (fmtError "missing push certificate or key" []))
  end.

(** [Filter] *)
Definition Filter (c : Connection) (topics : list (list byte))
  : Connection * result unit :=
  match conn c with
  | None => (c, Err ErrNotConnected)
  | Some _ =>
      let sha1Topics := map sha1_Sum topics in
      let cmd := mkFilterTopicsCommand (token c) sha1Topics in
      write c (ToBytes (FilterTopicsCommand_ToPayload cmd))
  end.

(** [SetState] *)
Definition SetState (c : Connection) (state : byte)
  : Connection * result unit :=
  match conn c with
  | None => (c, Err ErrNotConnected)
  | Some _ =>
      let cmd := mkSetStateCommand state 2147483647 (* 0x7fffffff *) in
      write c (ToBytes (SetStateCommand_ToPayload cmd))
  end.

(** How one pass through the body of the [for] of [ReadLoop] ends. *)
Inductive loop_status : Type :=
| Continue
| Return (e : error)
| LoopPanic (msg : string).

Definition context_Canceled : error := errorString "context canceled".

Definition is_ack (id : byte) : bool :=
  Byte.eqb id CommandConnectAck || Byte.eqb id CommandFilterTopicsAck
  || Byte.eqb id CommandSendMessageAck || Byte.eqb id CommandKeepAliveAck.

(** One iteration of [ReadLoop]; [done] tells whether [ctx.Done()] is ready
    when the [select] runs.  The two [fmt.Printf] calls are not modelled. *)
Definition ReadLoop_iter (done : bool) (c : Connection) (w : W)
  : Connection * W * loop_status :=
  if done then (c, w, Return context_Canceled)
  else
    match readPayload c with
    | (c, Err e) => (c, w, Return (wrapError "failed to read payload: %w" [] e))
    | (c, Panic m) => (c, w, LoopPanic m)
    | (c, Ok payload) =>
        if Byte.eqb (Payload_ID payload) CommandSendMessage then
          if messageHandler c then
            let msg := IncomingSendMessageCommand_FromPayload payload in
            let msgPayload :=
              mkSendMessagePayload (Incoming_Topic msg) (Incoming_Payload msg) in
            match handler msgPayload w with
            | (w, Panic m) => (c, w, LoopPanic m)
            | (w, _) => (c, w, Continue)
            end
          else (c, w, Continue)
        else if Byte.eqb (Payload_ID payload) CommandKeepAlive then
          match write c (ToBytes KeepAliveCommand_ToPayload) with
          | (c, Err e) =>
              (c, w, Return (wrapError "failed to respond to keep-alive: %w" [] e))
          | (c, Panic m) => (c, w, LoopPanic m)
          | (c, Ok _) => (c, w, Continue)
          end
        else if is_ack (Payload_ID payload) then (c, w, Continue)
        else (c, w, Continue)
    end.

(** [ReadLoop], run for at most [fuel] iterations; [ctx k] tells whether the
    context is done at the start of iteration [k].  [None]: the loop is still
    running after [fuel] iterations. *)
Fixpoint ReadLoop (fuel : nat) (ctx : nat -> bool) (c : Connection) (w : W)
  : Connection * W * option loop_status :=
  match fuel with
  | O => (c, w, None)
  | S fuel' =>
      match ReadLoop_iter (ctx O) c w with
      | (c, w, Continue) => ReadLoop fuel' (fun k => ctx (S k)) c w
      | (c, w, st) => (c, w, Some st)
      end
  end.

End Connection.

(** *** topics.go *)
Definition TopicMadrid : string := "com.apple.madrid".
Definition CourierHostCount : Z := 50.
Definition CourierPort : Z := 5223.

End apns.

(* ================================================================== *)
(** ** Package [config] *)
(* ================================================================== *)

Module config.

Record DeviceInfo : Type := mkDeviceInfo {
  HardwareVersion : string;
  SoftwareName : string;
  SoftwareVersion : string;
  SoftwareBuildID : string;
  SerialNumber : string;
  UniqueDeviceID : string;
  Hostname : string
}.

Record RegistrationData : Type := mkRegistrationData {
  ValidationData : list byte;
  ValidUntil : Time;
  NacservCommit : string;
  Device : DeviceInfo
}.

(** [IsExpired], on a possibly nil receiver; [now] is [time.Now()]. *)
Definition IsExpired (now : Time) (r : option RegistrationData) : bool :=
  match r with
  | None => true
  | Some r => Time_After now (ValidUntil r)
  end.

End config.

(* ================================================================== *)
(** ** Package [ids] *)
(* ================================================================== *)

Module ids.

Definition IDSStatus := Z.

Definition IDSStatusSuccess : IDSStatus := 0.
Definition IDSStatusUnauthenticated : IDSStatus := 6004.
Definition IDSStatusInvalidNameOrPassword : IDSStatus := 6014.
Definition IDSStatusActionRefreshCredentials : IDSStatus := 6030.
Definition IDSStatusWebTunnelServiceResponseTooLarge : IDSStatus := 6054.

Definition IDSStatus_String (s : IDSStatus) : string :=
  if s =? IDSStatusSuccess then "success"
  else if s =? IDSStatusUnauthenticated then "unauthenticated (2FA required)"
  else if s =? IDSStatusInvalidNameOrPassword then "invalid credentials"
  else if s =? IDSStatusActionRefreshCredentials
       then "refresh credentials required"
  else if s =? IDSStatusWebTunnelServiceResponseTooLarge
       then "response too large"
  else String.append "unknown(" (String.append (sprint_d s) ")").

Definition ErrInvalidNameOrPassword : error :=
  IDSError IDSStatusInvalidNameOrPassword.
Definition ErrActionRefreshCredentials : error :=
  IDSError IDSStatusActionRefreshCredentials.

Definition DeviceName : string := "imessage-client".
Definition ProtocolVersion : string := "1640".
Definition idsRegisterURL : string :=
  "https://identity.ess.apple.com/WebObjects/TDIdentityService.woa/wa/register".

(** The request, without its constant [Services] entry and the constant
    members of [PrivateDeviceData]. *)
Record RegisterReq : Type := mkRegisterReq {
  Req_DeviceName : string;
  Req_HardwareVersion : string;
  Req_Language : string;
  Req_OSVersion : text;
  Req_SoftwareVersion : string;
  Req_SoftwareBuild : string;
  Req_SoftwareName : string;
  Req_PrivateSoftwareVersion : string;
  Req_UUID : list byte;
  Req_ValidationData : list byte
}.

Record RegisterRespServiceUser : Type := mkRespUser {
  UserID : string;
  (** [nil] or the certificate bytes *)
  User_Cert : option (list byte);
  User_Status : IDSStatus
}.

Record RegisterRespService : Type := mkRespService {
  Service : string;
  Users : list RegisterRespServiceUser;
  Service_Status : IDSStatus
}.

Record RegisterResp : Type := mkRegisterResp {
  Message : string;
  Status : IDSStatus;
  Services : list RegisterRespService;
  RetryInterval : Z
}.

Inductive header_value : Type :=
| HLit (s : string)
| HSprintf (format : string) (arg : string)
| HBase64 (b : list byte).

Record HTTPRequest : Type := mkHTTPRequest {
  Method : string;
  URL : string;
  Header : list (string * header_value);
  Req_Body : list byte
}.

(** [Header.Set] replaces the value of a key or adds the key. *)
Fixpoint Header_Set (h : list (string * header_value)) (k : string)
    (v : header_value) : list (string * header_value) :=
  match h with
  | [] => [(k, v)]
  | (k', v') :: h' =>
      if String.eqb k' k then (k, v) :: h' else (k', v') :: Header_Set h' k v
  end.

Definition set_header (r : HTTPRequest) (k : string) (v : header_value)
  : HTTPRequest :=
  mkHTTPRequest (Method r) (URL r) (Header_Set (Header r) k v) (Req_Body r).

(** A response: the status code and what [io.ReadAll(resp.Body)] gives. *)
Record HTTPResponse : Type := mkHTTPResponse {
  StatusCode : Z;
  Resp_Body : result (list byte)
}.

(** The property-list codec ([howett.net/plist]) and the HTTP round trip
    ([http.Client.Do]) behind [HTTPClient]. *)
Record Transport : Type := mkTransport {
  plist_Marshal : RegisterReq -> result (list byte);
  client_Do : HTTPRequest -> result HTTPResponse;
  plist_Unmarshal : list byte -> result RegisterResp
}.

Section HTTPClient.
Context `{Externals}.

(** [createSigningPayload] *)
Definition createSigningPayload (method url : string) (body : list byte)
  : list byte :=
  list_byte_of_string method ++ [x0a] ++ list_byte_of_string url ++ [x0a]
    ++ body.

(** [signRequest] *)
Definition signRequest (req : HTTPRequest) (body : list byte)
    (pushKey : PrivateKey) : result HTTPRequest :=
  let signingPayload := createSigningPayload (Method req) (URL req) body in
  let hashed := sha1_Sum signingPayload in
  signature <- wrap "failed to sign payload: %w"
                 (rsa_SignPKCS1v15 pushKey hashed) ;;
  let req := set_header req "X-Push-Sig" (HBase64 signature) in
  let req := set_header req "X-Push-Token" (HLit "") in
  Ok req.

(** [Register].  [http.NewRequestWithContext] cannot fail on the constant
    method and URL.  For a status other than 200 the read error of the body
    is dropped by the source; the message then shows no body. *)
Definition Register (t : Transport) (req : RegisterReq) (pushKey : PrivateKey)
  : result RegisterResp :=
  body <- wrap "failed to marshal register request: %w" (plist_Marshal t req) ;;
  let httpReq := mkHTTPRequest "POST" idsRegisterURL [] body in
  let httpReq := set_header httpReq "Content-Type"
                   (HLit "application/x-apple-plist") in
  let httpReq := set_header httpReq "X-Protocol-Version"
                   (HLit ProtocolVersion) in
  let httpReq := set_header httpReq "User-Agent"
                   (HSprintf "com.apple.invitation-registration [%s]"
                      (Req_SoftwareVersion req)) in
  httpReq <- wrap "failed to sign request: %w"
               (signRequest httpReq body pushKey) ;;
  resp <- wrap "failed to send register request: %w" (client_Do t httpReq) ;;
  if negb (StatusCode resp =? 200) then
    match Resp_Body resp with
    | Ok bodyBytes =>
        Err (fmtError "register request failed with status %d: %s"
               [ArgInt (StatusCode resp); ArgBytes bodyBytes])
    | _ =>
        Err (fmtError "register request failed with status %d: %s"
               [ArgInt (StatusCode resp); ArgBytes []])
    end
  else
    respBody <- wrap "failed to read response body: %w" (Resp_Body resp) ;;
    registerResp <- wrap "failed to unmarshal register response: %w"
                      (plist_Unmarshal t respBody) ;;
    if negb (Status registerResp =? 0) then
      Err (fmtError "registration failed with status %d: %s"
             [ArgInt (Status registerResp); ArgStr (Message registerResp)])
    else Ok registerResp.

End HTTPClient.

(** [Config], without the members no function of the repository assigns. *)
Record AuthIDCertPair : Type := mkAuthIDCertPair {
  IDCert : option Certificate
}.

Section Config.
Context `{Externals}.

Record Config : Type := mkConfig {
  ProfileID : string;
  AuthPrivateKey : option PrivateKey;
  AuthIDCertPairs : list (string * AuthIDCertPair);
  PushKey : option PrivateKey;
  IDSEncryptionKey : option PrivateKey;
  (** the ECDSA signing key is only stored *)
  IDSSigningKey : option (list byte);
  DeviceUUID : list byte;
  HardwareVersion : string;
  SoftwareName : string;
  SoftwareVersion : string;
  SoftwareBuildID : string
}.

Definition or_default (s d : string) : string :=
  if String.eqb s "" then d else s.

(** [IDSOSVersion] *)
Definition IDSOSVersion (c : Config) : text :=
  Sprintf "%s,%s,%s"
    [TStr (or_default (SoftwareName c) "macOS");
     TStr (or_default (SoftwareVersion c) "13.4.1");
     TStr (or_default (SoftwareBuildID c) "22F82")].

End Config.

(** *** http.go: [AuthenticateDevice] *)

Definition idsAuthDevURL : string :=
  "https://identity.ess.apple.com/WebObjects/TDIdentityService.woa/wa/authenticateDevice".

(** [DeviceAuthReq], with the members of [DeviceAuthData] inlined. *)
Record DeviceAuthReq : Type := mkDeviceAuthReq {
  AuthToken : string;
  Auth_PushToken : list byte;
  Signatures : list (list byte);
  CSR : list byte;
  RealmUserID : string
}.

Record DeviceAuthResp : Type := mkDeviceAuthResp {
  Auth_Status : Z;
  Auth_Cert : list byte
}.

(** The property-list codec and the HTTP round trip behind
    [AuthenticateDevice]. *)
Record AuthTransport : Type := mkAuthTransport {
  auth_Marshal : DeviceAuthReq -> result (list byte);
  auth_Do : HTTPRequest -> result HTTPResponse;
  auth_Unmarshal : list byte -> result DeviceAuthResp
}.

(** The request [AuthenticateDevice] sends for a marshalled body. *)
Definition auth_request (body : list byte) : HTTPRequest :=
  let httpReq := mkHTTPRequest "POST" idsAuthDevURL [] body in
  let httpReq := set_header httpReq "Content-Type"
                   (HLit "application/x-apple-plist") in
  let httpReq := set_header httpReq "X-Protocol-Version"
                   (HLit ProtocolVersion) in
  set_header httpReq "User-Agent" (HLit "imessage-client").

(** [AuthenticateDevice] *)
Definition AuthenticateDevice (t : AuthTransport) (req : DeviceAuthReq)
  : result DeviceAuthResp :=
  bind (wrap "failed to marshal auth request: %w" (auth_Marshal t req))
    (fun body =>
  bind (wrap "failed to send auth request: %w" (auth_Do t (auth_request body)))
    (fun resp =>
  if negb (StatusCode resp =? 200) then
    Err (fmtError "auth request failed with status %d"
           [ArgInt (StatusCode resp)])
  else
    bind (wrap "failed to read response body: %w" (Resp_Body resp))
      (fun respBody =>
    bind (wrap "failed to unmarshal auth response: %w"
            (auth_Unmarshal t respBody))
      (fun authResp =>
    if negb (Auth_Status authResp =? 0) then
      Err (fmtError "authentication failed with status %d"
             [ArgInt (Auth_Status authResp)])
    else Ok authResp)))).

End ids.

(* ================================================================== *)
(** ** Package [messaging] *)
(* ================================================================== *)

Module messaging.
Import config.

(** *** errors.go *)
Definition ErrNotImplemented : error := errorString "not implemented".
Definition ErrRegistrationExpired : error := errorString "registration expired".
Definition ErrInvalidRegistrationData : error :=
  errorString "registration data missing required fields".
Definition ErrHandshakeNotImplemented : error :=
  errorString "handshake not implemented".
(** the [errors.New] inside [Connect] *)
Definition errRegistrationNil : error := errorString "registration data is nil".

(** *** message.go *)
Record Message : Type := mkMessage {
  ID : text;
  Chat : string;
  Sender : string;
  Text : text;
  Timestamp : Time;
  Service : string
}.

Record MessageSummary : Type := mkMessageSummary {
  Summary_Sender : string;
  Preview : text;
  Summary_Timestamp : Time
}.

Definition ToSummary (m : Message) : MessageSummary :=
  mkMessageSummary (Sender m) (Text m) (Timestamp m).

(** *** decrypt.go *)
Definition normalIV : list byte :=
  [x00; x00; x00; x00; x00; x00; x00; x00;
   x00; x00; x00; x00; x00; x00; x00; x00].

Record ParsedBody : Type := mkParsedBody {
  Tag : byte;
  Body : list byte;
  Signature : list byte
}.

(** [ParseBody].  [bodyLength] is a [uint16], and so is every sum it
    occurs in. *)
Definition ParseBody (payload : list byte) : result ParsedBody :=
  if len payload <? 4 then
    Err (fmtError "too short payload (missing header, expected >4, got %d)"
           [ArgInt (len payload)])
  else
    tag <- index payload 0 ;;
    lenb <- slice payload 1 3 ;;
    bodyLength <- BigEndian_Uint16 lenb ;;
    let expectedLength := uint16 (3 + bodyLength + 1) in
    if len payload <? expectedLength then
      Err (fmtError "too short payload (missing body, expected >%d, got %d)"
             [ArgInt expectedLength; ArgInt (len payload)])
    else
      body <- slice payload 3 (uint16 (3 + bodyLength)) ;;
      signatureLength <- index payload (uint16 (3 + bodyLength)) ;;
      let expectedLength :=
        uint16 (3 + bodyLength + 1 + uint16 (byte_to_Z signatureLength)) in
      if len payload <? expectedLength then
        Err (fmtError
               "too short payload (missing signature, expected %d, got %d)"
               [ArgInt expectedLength; ArgInt (len payload)])
      else
        signature <- slice_from payload (uint16 (3 + bodyLength + 1)) ;;
        Ok (mkParsedBody tag body signature).

Record IMessagePayload : Type := mkIMessagePayload {
  IMsg_Text : string;
  Subject : string;
  Participants : list string;
  GroupID : string;
  Version : Z;
  MessageUUID : string
}.

(** [plist.Unmarshal(data, &msg)] of [howett.net/plist]. *)
Class MessagePlist : Type := {
  plist_Unmarshal_IMessagePayload : list byte -> result IMessagePayload
}.

Section Decrypt.
Context `{Externals} `{MessagePlist}.

(** [DecryptPairPayload], for a non-nil key. *)
Definition DecryptPairPayload (privateKey : PrivateKey) (body : ParsedBody)
  : result (list byte) :=
  if len (Body body) <? 160 then
    Err (fmtError
           "too short payload (missing encryption key, expected >160, got %d)"
           [ArgInt (len (Body body))])
  else
    encryptedEncryptionKey <- slice_to (Body body) 160 ;;
    actualEncryptedMessage <- slice_from (Body body) 160 ;;
    decryptedEncryptionKey <-
      wrap "failed to decrypt encryption key: %w"
        (rsa_DecryptOAEP privateKey encryptedEncryptionKey) ;;
    key <- slice_to decryptedEncryptionKey 16 ;;
    block <- wrap "failed to create AES cipher: %w" (aes_NewCipher key) ;;
    first <- slice_from decryptedEncryptionKey 16 ;;
    let decryptionInput := first ++ actualEncryptedMessage in
    Ok (aes_ctr_XORKeyStream block normalIV decryptionInput).

Definition has_gzip_magic (data : list byte) : bool :=
  match data with
  | d0 :: d1 :: _ => Byte.eqb d0 x1f && Byte.eqb d1 x8b
  | _ => false
  end.

(** [MaybeGUnzip] *)
Definition MaybeGUnzip (data : list byte) : result (list byte) :=
  if negb (has_gzip_magic data) then Ok data
  else
    _ <- wrap "failed to create gzip reader: %w" (gzip_NewReader data) ;;
    decompressed <- wrap "failed to decompress: %w" (gzip_ReadAll data) ;;
    Ok decompressed.

(** [DecryptMessage] *)
Definition DecryptMessage (privateKey : PrivateKey) (payload : list byte)
  : result IMessagePayload :=
  parsed <- wrap "failed to parse body: %w" (ParseBody payload) ;;
  decrypted <- wrap "failed to decrypt: %w"
                 (DecryptPairPayload privateKey parsed) ;;
  decompressed <- wrap "failed to decompress: %w" (MaybeGUnzip decrypted) ;;
  msg <- wrap "failed to unmarshal plist: %w"
           (plist_Unmarshal_IMessagePayload decompressed) ;;
  Ok msg.

(** *** handshake.go, handshake_nac.go, handshake_real.go *)

(** The connection's handler state is the session, which also owns the
    connection; [apns.Connection] itself does not depend on it. *)
Record handshakeState : Type := mkHandshakeState {
  HS_ValidationData : list byte;
  HS_DeviceInfo : DeviceInfo;
  IDSConfig : option ids.Config;
  APNSConn : option apns.Connection
}.

(** The implementations of the interface [Handshaker]. *)
Inductive Handshaker : Type :=
| DefaultHandshaker
| NacIDSHandshaker
| RealHandshaker.

(** What [RealHandshaker.Handshake] draws from its surroundings: the four
    key generations, [uuid.New], the IDS transport and
    [x509.ParseCertificate]. *)
Record HandshakeEnv : Type := mkHandshakeEnv {
  gen_idsSigningKey : result (list byte);
  gen_idsEncryptionKey : result PrivateKey;
  gen_pushKey : result PrivateKey;
  gen_authPrivateKey : result PrivateKey;
  uuid_New : list byte;
  transport : ids.Transport;
  x509_ParseCertificate : list byte -> result Certificate
}.

(** [buildRegisterRequest] *)
Definition buildRegisterRequest (reg : RegistrationData) (cfg : ids.Config)
  : ids.RegisterReq :=
  ids.mkRegisterReq ids.DeviceName (ids.HardwareVersion cfg) "en-US"
    (ids.IDSOSVersion cfg) (ids.SoftwareBuildID cfg)
    (ids.SoftwareBuildID cfg) (ids.SoftwareName cfg) (ids.SoftwareVersion cfg)
    (ids.DeviceUUID cfg) (ValidationData reg).

(** [m[k] = v] on the map of certificate pairs. *)
Fixpoint map_set {V} (m : list (string * V)) (k : string) (v : V)
  : list (string * V) :=
  match m with
  | [] => [(k, v)]
  | (k', v') :: m' =>
      if String.eqb k' k then (k, v) :: m' else (k', v') :: map_set m' k v
  end.

(** The part of [RealHandshaker.Handshake] after the call of [Register]. *)
Definition Handshake_finish (env : HandshakeEnv) (reg : RegistrationData)
    (idsConfig : ids.Config) (pushKey : PrivateKey)
    (registerResp : ids.RegisterResp) : result handshakeState :=
  match ids.Services registerResp with
  | [] => Err (fmtError "no services in registration response" [])
  | service :: _ =>
      match ids.Users service with
      | [] => Err (fmtError "no users in registration response" [])
      | user :: _ =>
          match ids.User_Cert user with
          | None => Err (fmtError "no ID certificate in registration response" [])
          | Some der =>
              idCert <- wrap "failed to parse ID certificate: %w"
                          (x509_ParseCertificate env der) ;;
              let pushToken : list byte := [] in
              let idsConfig :=
                ids.mkConfig (ids.UserID user) (ids.AuthPrivateKey idsConfig)
                  (map_set (ids.AuthIDCertPairs idsConfig) (ids.UserID user)
                     (ids.mkAuthIDCertPair (Some idCert)))
                  (ids.PushKey idsConfig) (ids.IDSEncryptionKey idsConfig)
                  (ids.IDSSigningKey idsConfig) (ids.DeviceUUID idsConfig)
                  (ids.HardwareVersion idsConfig) (ids.SoftwareName idsConfig)
                  (ids.SoftwareVersion idsConfig)
                  (ids.SoftwareBuildID idsConfig) in
              let apnsConn := apns.NewConnection (Some pushKey) None pushToken in
              Ok (mkHandshakeState (ValidationData reg) (Device reg)
                    (Some idsConfig) (Some apnsConn))
          end
      end
  end.

Definition RealHandshaker_Handshake (env : HandshakeEnv)
    (reg : option RegistrationData) : result handshakeState :=
  match reg with
  | None => Err ErrInvalidRegistrationData
  | Some reg =>
      if len (ValidationData reg) =? 0 then Err ErrInvalidRegistrationData
      else
        idsSigningKey <- wrap "failed to generate IDS signing key: %w"
                           (gen_idsSigningKey env) ;;
        idsEncryptionKey <- wrap "failed to generate IDS encryption key: %w"
                              (gen_idsEncryptionKey env) ;;
        pushKey <- wrap "failed to generate push key: %w" (gen_pushKey env) ;;
        authPrivateKey <- wrap "failed to generate auth private key: %w"
                            (gen_authPrivateKey env) ;;
        let deviceUUID := uuid_New env in
        let d := Device reg in
        let idsConfig :=
          ids.mkConfig "" (Some authPrivateKey) [] (Some pushKey)
            (Some idsEncryptionKey) (Some idsSigningKey) deviceUUID
            (ids.or_default (config.HardwareVersion d) "MacBookPro18,1")
            (ids.or_default (config.SoftwareName d) "macOS")
            (ids.or_default (config.SoftwareVersion d) "13.4.1")
            (ids.or_default (config.SoftwareBuildID d) "22F82") in
        let registerReq := buildRegisterRequest reg idsConfig in
        registerResp <- wrap "IDS registration failed: %w"
                          (ids.Register (transport env) registerReq pushKey) ;;
        Handshake_finish env reg idsConfig pushKey registerResp
  end.

Definition DefaultHandshaker_Handshake (reg : option RegistrationData)
  : result handshakeState :=
  match reg with
  | None => Err ErrInvalidRegistrationData
  | Some reg =>
      if len (ValidationData reg) =? 0 then Err ErrInvalidRegistrationData
      else Ok (mkHandshakeState (ValidationData reg) (Device reg) None None)
  end.

Definition NacIDSHandshaker_Handshake (reg : option RegistrationData)
  : result handshakeState :=
  Err (wrapError "%w: NAC/IDS flow not wired" [] ErrHandshakeNotImplemented).

Definition Handshake (h : Handshaker) (env : HandshakeEnv)
    (reg : option RegistrationData) : result handshakeState :=
  match h with
  | DefaultHandshaker => DefaultHandshaker_Handshake reg
  | NacIDSHandshaker => NacIDSHandshaker_Handshake reg
  | RealHandshaker => RealHandshaker_Handshake env reg
  end.

(** *** store.go: the in-memory store *)
Definition Store : Type := list (string * Time).

Definition NewMemoryStore : Store := [].

(** The zero [time.Time], January 1 of year 1. *)
Definition Time_zero : Time := -62135596800 * 1000000000.

Fixpoint map_get {V} (m : list (string * V)) (k : string) : option V :=
  match m with
  | [] => None
  | (k', v) :: m' => if String.eqb k' k then Some v else map_get m' k
  end.

Definition LastSeen (st : Store) (chat : string) : Time :=
  match map_get st chat with
  | Some ts => ts
  | None => Time_zero
  end.

Definition SetLastSeen (st : Store) (chat : string) (ts : Time)
  : Store * result unit :=
  if String.eqb chat "" then (st, Err (errorString "chat identifier is empty"))
  else (map_set st chat ts, Ok tt).

(** *** session.go *)

(** [readLoopCtx] and [readLoopCancel] are left out: only [startAPNS] and
    [Close] touch them. *)
Record Session : Type := mkSession {
  registration : option RegistrationData;
  store : Store;
  state : option handshakeState;
  handshaker : option Handshaker;
  messageChan : chan (option Message)
}.

Definition set_messageChan (s : Session) (ch : chan (option Message))
  : Session :=
  mkSession (registration s) (store s) (state s) (handshaker s) ch.

Definition set_state (s : Session) (st : option handshakeState) : Session :=
  mkSession (registration s) (store s) st (handshaker s) (messageChan s).

Definition set_store (s : Session) (st : Store) : Session :=
  mkSession (registration s) st (state s) (handshaker s) (messageChan s).

(** [Connect]; [now] is the [time.Now()] of [IsExpired]. *)
Definition Connect (now : Time) (reg : option RegistrationData)
    (store : option Store) : result Session :=
  match reg with
  | None => Err errRegistrationNil
  | Some r =>
      if len (ValidationData r) =? 0 then Err ErrInvalidRegistrationData
      else if IsExpired now reg then Err ErrRegistrationExpired
      else
        let store := match store with
                     | None => NewMemoryStore
                     | Some st => st
                     end in
        Ok (mkSession reg store None (Some RealHandshaker) None)
  end.

(** [ensureHandshake] *)
Definition ensureHandshake (env : HandshakeEnv) (s : Session)
  : Session * result unit :=
  match state s with
  | Some _ => (s, Ok tt)
  | None =>
      match handshaker s with
      | None => (s, Err ErrHandshakeNotImplemented)
      | Some h =>
          match Handshake h env (registration s) with
          | Ok state => (set_state s (Some state), Ok tt)
          | Err e => (s, Err e)
          | Panic m => (s, Panic m)
          end
      end
  end.

(** The encryption key [handleAPNSMessage] finds, if
    [s.state], [s.state.IDSConfig] and the key are all non-nil. *)
Definition encryption_key (s : Session) : option PrivateKey :=
  match state s with
  | Some st =>
      match IDSConfig st with
      | Some cfg => ids.IDSEncryptionKey cfg
      | None => None
      end
  | None => None
  end.

(** The [select] with [default] that ends each branch of
    [handleAPNSMessage]: [on_sent] is what the send case returns. *)
Definition enqueue (s : Session) (msg : Message) (on_sent : result unit)
  : Session * result unit :=
  let (ch, sent) := try_send (messageChan s) (Some msg) in
  if sent then (set_messageChan s ch, on_sent)
  else (s, Err (fmtError "message channel full" [])).

Definition msg_id (now : Time) : text :=
  Sprintf "msg-%d" [TInt (Time_Unix now)].

(** [handleAPNSMessage]; [now_id] and [now_ts] are the two readings of
    [time.Now()] a branch takes. *)
Definition handleAPNSMessage (now_id now_ts : Time)
    (payload : apns.SendMessagePayload) (s : Session)
  : Session * result unit :=
  match encryption_key s with
  | None =>
      let msg :=
        mkMessage (msg_id now_id) "unknown-chat" "unknown-sender"
          (Sprintf "[Encrypted] %d bytes from %s"
             [TInt (len (apns.Payload_bytes payload));
              TBytes (apns.Topic payload)])
          now_ts "" in
      enqueue s msg (Ok tt)
  | Some key =>
      match DecryptMessage key (apns.Payload_bytes payload) with
      | Err err =>
          let msg :=
            mkMessage (msg_id now_id) "unknown-chat" "unknown-sender"
              (Sprintf "[Decrypt failed: %s] %d bytes"
                 [TErr err; TInt (len (apns.Payload_bytes payload))])
              now_ts "" in
          enqueue s msg (Err (wrapError "decryption failed: %w" [] err))
      | Panic m => (s, Panic m)
      | Ok imsg =>
          let chat :=
            if negb (String.eqb (GroupID imsg) "") then GroupID imsg
            else match Participants imsg with
                 | p0 :: _ => p0
                 | [] => "direct"
                 end in
          let sender := match Participants imsg with
                        | p0 :: _ => p0
                        | [] => "unknown"
                        end in
          let msgID := if String.eqb (MessageUUID imsg) "" then msg_id now_id
                       else Lit (MessageUUID imsg) in
          let msg := mkMessage msgID chat sender (Lit (IMsg_Text imsg))
                       now_ts "" in
          enqueue s msg (Ok tt)
      end
  end.

(** *** receive.go *)

(** The [for]/[select] of [FetchMessages]: receive until the channel has
    nothing ready. *)
Fixpoint drain (fuel : nat) (ch : chan (option Message))
    (messages : list Message) : chan (option Message) * list Message :=
  match fuel with
  | O => (ch, messages)
  | S fuel' =>
      match try_recv ch with
      | (ch, Some msg) =>
          drain fuel' ch (match msg with
                          | Some m => messages ++ [m]
                          | None => messages
                          end)
      | (ch, None) => (ch, messages)
      end
  end.

Definition chan_len {A} (ch : chan A) : nat :=
  match ch with
  | None => O
  | Some st => List.length (chan_buf st)
  end.

(** [FetchMessages] *)
Definition FetchMessages (env : HandshakeEnv) (s : Session)
  : Session * result (list Message) :=
  match ensureHandshake env s with
  | (s, Ok _) =>
      let (ch, messages) :=
        drain (S (chan_len (messageChan s))) (messageChan s) [] in
      (set_messageChan s ch, Ok messages)
  | (s, Err e) => (s, Err e)
  | (s, Panic m) => (s, Panic m)
  end.

(** [filterUnread] *)
Definition filterUnread (s : Session) (messages : list Message)
  : list Message :=
  filter (fun msg => Time_After (Timestamp msg) (LastSeen (store s) (Chat msg)))
    messages.

(** The first loop of [updateStore], one message. *)
Definition chatLatest_add (chatLatest : list (string * Time)) (msg : Message)
  : list (string * Time) :=
  match map_get chatLatest (Chat msg) with
  | Some existing =>
      if Time_After (Timestamp msg) existing
      then map_set chatLatest (Chat msg) (Timestamp msg)
      else chatLatest
  | None => map_set chatLatest (Chat msg) (Timestamp msg)
  end.

(** The second loop of [updateStore].  Go ranges over the map in an order
    it does not fix; the entries are taken in the order of first insertion. *)
Fixpoint store_all (st : Store) (entries : list (string * Time))
  : Store * result unit :=
  match entries with
  | [] => (st, Ok tt)
  | (chat, ts) :: rest =>
      match SetLastSeen st chat ts with
      | (st, Ok _) => store_all st rest
      | (st, r) => (st, r)
      end
  end.

(** [updateStore] *)
Definition updateStore (s : Session) (messages : list Message)
  : Session * result unit :=
  let chatLatest := fold_left chatLatest_add messages [] in
  let (st, r) := store_all (store s) chatLatest in
  (set_store s st, r).

(** [FetchUnread], on a non-nil session. *)
Definition FetchUnread (env : HandshakeEnv) (s : Session)
  : Session * result (list MessageSummary) :=
  match ensureHandshake env s with
  | (s, Ok _) =>
      match FetchMessages env s with
      | (s, Ok messages) =>
          let unread := filterUnread s messages in
          match updateStore s unread with
          | (s, Ok _) => (s, Ok (map ToSummary unread))
          | (s, Err e) => (s, Err e)
          | (s, Panic m) => (s, Panic m)
          end
      | (s, Err e) => (s, Err e)
      | (s, Panic m) => (s, Panic m)
      end
  | (s, Err e) => (s, Err e)
  | (s, Panic m) => (s, Panic m)
  end.

(** [startAPNS], up to the [go] statement that spawns [ReadLoop]: the
    session with its connection after the calls, and the outcome.  A nil
    [s.state] or a nil connection is dereferenced. *)
Definition set_APNSConn (s : Session) (st : handshakeState)
    (c : apns.Connection) : Session :=
  set_state s (Some (mkHandshakeState (HS_ValidationData st) (HS_DeviceInfo st)
                       (IDSConfig st) (Some c))).

Definition startAPNS (cenv : apns.ConnectEnv) (s : Session)
  : Session * result unit :=
  match state s with
  | None => (s, Panic "nil pointer dereference")
  | Some st =>
      match APNSConn st with
      | None => (s, Panic "nil pointer dereference")
      | Some conn =>
          match apns.Connect cenv conn with
          | (conn, Ok _) =>
              let conn := apns.SetMessageHandler conn true in
              match apns.Filter conn
                      [list_byte_of_string apns.TopicMadrid] with
              | (conn, Ok _) =>
                  match apns.SetState conn x01 with
                  | (conn, r) => (set_APNSConn s st conn, r)
                  end
              | (conn, r) => (set_APNSConn s st conn, r)
              end
          | (conn, r) => (set_APNSConn s st conn, r)
          end
      end
  end.

(** *** client.go, send.go *)

(** The store of a client is shared with the sessions it opens: what a
    session writes to it is written back to the client. *)
Record Client : Type := mkClient {
  client_registration : option RegistrationData;
  client_store : Store
}.

Definition NewClient (reg : option RegistrationData) : Client :=
  mkClient reg NewMemoryStore.

Definition NewClientWithStore (reg : option RegistrationData)
    (store : option Store) : Client :=
  mkClient reg (match store with
                | None => NewMemoryStore
                | Some st => st
                end).

(** [PollUnread] *)
Definition PollUnread (now : Time) (env : HandshakeEnv) (c : Client)
  : Client * result (list MessageSummary) :=
  match Connect now (client_registration c) (Some (client_store c)) with
  | Ok session =>
      let (session, r) := FetchUnread env session in
      (mkClient (client_registration c) (store session), r)
  | Err e => (c, Err e)
  | Panic m => (c, Panic m)
  end.

(** [Send] *)
Definition Send (now : Time) (env : HandshakeEnv) (c : Client)
    (chat text : string) : result unit :=
  match Connect now (client_registration c) (Some (client_store c)) with
  | Ok session =>
      match ensureHandshake env session with
      | (_, Ok _) => Err ErrNotImplemented
      | (_, Err e) => Err e
      | (_, Panic m) => Panic m
      end
  | Err e => Err e
  | Panic m => Panic m
  end.

End Decrypt.
End messaging.

(* ================================================================== *)
(** ** Vocabulary of the statements *)
(* ================================================================== *)

Module Props.
Import apns.

(** Every value fits the two-byte length of a field. *)
Definition fields_fit (fs : list Field) : Prop :=
  Forall (fun f => len (Field_Value f) < 2 ^ 16) fs.

(** The receiver with [fs] appended to its fields. *)
Definition add_fields (p : Payload) (fs : list Field) : Payload :=
  mkPayload (Payload_ID p) (Payload_Fields p ++ fs).

(** The number four big-endian bytes stand for. *)
Definition be32 (b0 b1 b2 b3 : byte) : Z :=
  byte_to_Z b3 + byte_to_Z b2 * 2 ^ 8 + byte_to_Z b1 * 2 ^ 16
  + byte_to_Z b0 * 2 ^ 24.

(** What an outcome [r] of the field parser on [data] tells about [data]:
    success means whole fields followed by fewer than three bytes; the only
    error is a field header whose length overruns the rest; there is no
    panic.  In both cases the fields before that point have been appended
    to the receiver [p]. *)
Definition parse_outcome (data : list byte) (p : Payload)
    (r : Payload * result unit) : Prop :=
  match snd r with
  | Ok _ =>
      exists fs rest,
        data = fields_bytes fs ++ rest /\ len rest < 3 /\ fields_fit fs
        /\ fst r = add_fields p fs
  | Err e =>
      e = errInvalidFieldLength /\
      exists fs id hi lo rest,
        data = fields_bytes fs ++ id :: hi :: lo :: rest
        /\ len rest < byte_to_Z lo + byte_to_Z hi * 256
        /\ fields_fit fs /\ fst r = add_fields p fs
  | Panic _ => False
  end.

Definition keepalive_bytes : list byte := [x0c; x00; x00; x00; x00].

Definition bytes_eqb (a b : list byte) : bool :=
  if list_eq_dec Byte.byte_eq_dec a b then true else false.

(** A log of the dispatch loop in which every read of a keep-alive frame is
    followed at once by one write, of the keep-alive reply, and nothing is
    written otherwise. *)
Fixpoint keepalive_discipline (evs : list io_event) : bool :=
  match evs with
  | [] => true
  | EvRead (Ok p) :: rest =>
      if Byte.eqb (Payload_ID p) CommandKeepAlive then
        match rest with
        | EvWrite data _ :: rest' =>
            bytes_eqb data keepalive_bytes && keepalive_discipline rest'
        | _ => false
        end
      else keepalive_discipline rest
  | EvRead _ :: rest => keepalive_discipline rest
  | EvWrite _ _ :: _ => false
  end.

(** The outcome the environment has in store for the next write, and the
    socket after that write. *)
Definition next_write_outcome (cn : Conn) : option error :=
  match write_outcomes cn with
  | o :: _ => o
  | [] => None
  end.

Definition after_write (cn : Conn) (data : list byte) : Conn :=
  mkConn (inbound cn) (tl (write_outcomes cn))
    (io_log cn ++ [EvWrite data (next_write_outcome cn)]).

End Props.

(* ================================================================== *)
(** ** Stand-ins to run the functions on concrete inputs *)
(* ================================================================== *)

Module Fixtures.

(** Stand-ins for the libraries: the first byte of an RSA block tells how
    many of the bytes after it are the plaintext; the key stream is zero. *)
Definition test_externals : Externals := {|
  PrivateKey := unit;
  sha1_Sum := fun data => firstn 20 (data ++ repeat x00 20);
  rsa_SignPKCS1v15 := fun _ hashed => Ok hashed;
  rsa_DecryptOAEP := fun _ c =>
    match c with
    | [] => Err (errorString "crypto/rsa: decryption error")
    | n :: rest => Ok (firstn (Z.to_nat (byte_to_Z n)) rest)
    end;
  aes_ctr_XORKeyStream := fun _ _ buf => buf;
  gzip_NewReader := fun _ => Err (errorString "gzip: invalid header");
  gzip_ReadAll := fun _ => Err (errorString "gzip: invalid header")
|}.

Definition test_plist : messaging.MessagePlist := {|
  messaging.plist_Unmarshal_IMessagePayload := fun _ =>
    Err (errorString "plist: type mismatch")
|}.

(** A pair body whose RSA block carries [n] plaintext bytes, each [x11],
    followed by [tail]. *)
Definition test_body (n : byte) (tail : list byte) : messaging.ParsedBody :=
  messaging.mkParsedBody x00 (n :: repeat x11 159 ++ tail) [].

Definition test_registration : config.RegistrationData :=
  config.mkRegistrationData [x01; x02] 1000 "commit"
    (config.mkDeviceInfo "" "" "" "" "" "" "").


Definition test_request : ids.RegisterReq :=
  ids.mkRegisterReq ids.DeviceName "MacBookPro18,1" "en-US" (Lit "macOS")
    "22F82" "22F82" "macOS" "13.4.1" [] [x01; x02].

(** A session after a handshake that produced an encryption key. *)
Definition test_state : @messaging.handshakeState test_externals :=
  @messaging.mkHandshakeState test_externals [x01; x02]
    (config.mkDeviceInfo "" "" "" "" "" "" "")
    (Some (@ids.mkConfig test_externals "" None [] None (Some tt) None []
             "" "" "" ""))
    None.

Definition test_session : @messaging.Session test_externals :=
  @messaging.mkSession test_externals (Some test_registration) [] 
    (Some test_state) (Some messaging.RealHandshaker) None.

(** A socket on which one keep-alive frame arrives. *)
Definition test_conn : apns.Conn :=
  apns.mkConn (mkReader [x0c; x00; x00; x00; x00] io_EOF) [] [].

Definition test_connection : @apns.Connection test_externals :=
  @apns.mkConnection test_externals (Some tt) (Some (mkCertificate [x30]))
    [] (Some test_conn) false 4096 15360.

Definition test_env : apns.ConnectEnv :=
  apns.mkConnectEnv 0 (fun _ => Ok test_conn) (Ok (repeat x07 20)).

End Fixtures.

(* ================================================================== *)
(** ** Further vocabulary: frames, envelopes and queues *)
(* ================================================================== *)

Module Terms.
Import apns.

(** The message [ReadLoop] hands to the handler for a send-message frame. *)
Definition as_message (F : Payload) : SendMessagePayload :=
  mkSendMessagePayload (FindField F x02) (FindField F x03).

(** The handler applied to the frames one after the other, errors
    ignored. *)
Definition deliver {W} (handler : MessageHandler W) (frames : list Payload)
    (w : W) : W :=
  fold_left (fun w F => fst (handler (as_message F) w)) frames w.

(** A frame the stream decoder reads back as it is. *)
Definition well_formed (F : Payload) : Prop :=
  Payload_ID F <> x00 /\ Props.fields_fit (Payload_Fields F)
  /\ fields_length (Payload_Fields F) < 2 ^ 32.

(** The frame [Connect] sends. *)
Definition connect_frame (token cert nonce signature : list byte) : Payload :=
  ConnectCommand_ToPayload
    (mkConnectCommand token [x01] (Z.lor BaseConnectionFlags RootConnection)
       cert nonce ([x01; x01] ++ signature)).

(** The frame [Filter] sends, given the hash function. *)
Definition filter_frame (hash : list byte -> list byte) (token : list byte)
    (topics : list (list byte)) : Payload :=
  mkPayload CommandFilterTopics
    (mkField x01 token :: map (fun t => mkField x02 (hash t)) topics).

(** The envelope layout [ParseBody] reads:
    tag, two length bytes, body, one length byte, signature. *)
Definition envelope (tag : byte) (body : list byte) (sigLen : byte)
    (signature : list byte) : list byte :=
  tag :: BigEndian_PutUint16 (uint16 (len body)) ++ body
    ++ sigLen :: signature.

(** The non-nil elements of a channel buffer, in order. *)
Definition queued {A} (buf : list (option A)) : list A :=
  flat_map (fun m => match m with
                     | Some x => [x]
                     | None => []
                     end) buf.

(** The keys of a map are pairwise different. *)
Definition unique_keys {V} (m : list (string * V)) : Prop :=
  NoDup (map fst m).

End Terms.

(** Further stand-ins. *)
Module Samples.
Import Fixtures.

(** The ack a courier sends: status 0, a token, a maximum size of 4096. *)
Definition sample_ack : apns.Payload :=
  apns.mkPayload apns.CommandConnectAck
    [apns.mkField x01 [x00]; apns.mkField x03 [xde; xad; xbe; xef];
     apns.mkField x04 [x10; x00]].

Definition sample_conn : apns.Conn :=
  apns.mkConn (mkReader (apns.ToBytes sample_ack ++ [x0c]) io_EOF) [] [].

Definition sample_env : apns.ConnectEnv :=
  apns.mkConnectEnv 6 (fun _ => Ok sample_conn) (Ok (repeat x07 20)).

(** A connection with a key, a certificate and a token. *)
Definition sample_connection : @apns.Connection test_externals :=
  @apns.mkConnection test_externals (Some tt) (Some (mkCertificate [x30]))
    [x01] None false 4096 15360.

(** Two send-message frames on the wire. *)
Definition sample_frames : list apns.Payload :=
  [apns.mkPayload apns.CommandSendMessage
     [apns.mkField x02 [x61]; apns.mkField x03 [x01; x02]];
   apns.mkPayload apns.CommandSendMessage
     [apns.mkField x03 [x03]; apns.mkField x02 [x62]]].

Definition sample_listening : @apns.Connection test_externals :=
  @apns.mkConnection test_externals (Some tt) (Some (mkCertificate [x30]))
    [x01]
    (Some (apns.mkConn
             (mkReader (flat_map apns.ToBytes sample_frames) io_EOF) [] []))
    true 4096 15360.

(** A handler that records the payloads it is given and always fails. *)
Definition sample_handler : apns.MessageHandler (list (list byte)) :=
  fun msg w => (w ++ [apns.Payload_bytes msg], Err (errorString "refused")).

(** A session with a handshake state and a channel of capacity two that
    holds one message. *)
Definition sample_message : @messaging.Message :=
  messaging.mkMessage (Lit "m1") "alice" "alice" (Lit "hi") 5 "".

Definition sample_session : @messaging.Session test_externals :=
  @messaging.mkSession test_externals (Some test_registration) []
    (Some test_state) (Some messaging.RealHandshaker)
    (Some (mkChan 2 [Some sample_message])).

Definition sample_handshake_env : @messaging.HandshakeEnv test_externals :=
  @messaging.mkHandshakeEnv test_externals (Ok []) (Ok tt) (Ok tt) (Ok tt) []
    (ids.mkTransport
       (fun _ => Ok [x3c])
       (fun _ => Ok (ids.mkHTTPResponse 200 (Ok [x3c])))
       (fun _ => Ok (ids.mkRegisterResp "" 0
                       [ids.mkRespService "com.apple.madrid"
                          [ids.mkRespUser "P:1" (Some [x30; x82]) 0] 0] 0)))
    (fun der => Ok (mkCertificate der)).

End Samples.

(* ================================================================== *)
(** ** Bytes, slices and big-endian numbers *)
(* ================================================================== *)

Module go_facts.
Import Props.

(** [byte] and its numeric value. *)
Lemma byte_to_Z_range b : 0 <= byte_to_Z b < 256.
Proof.
  unfold byte_to_Z. pose proof (Byte.to_N_bounded b). lia.
Qed.

Lemma Z_to_byte_to_Z b : Z_to_byte (byte_to_Z b) = b.
Proof.
  unfold Z_to_byte, uint8, byte_to_Z.
  pose proof (Byte.to_N_bounded b).
  rewrite Z.mod_small by lia.
  rewrite N2Z.id, Byte.of_to_N. reflexivity.
Qed.

Lemma byte_to_Z_to_byte z : byte_to_Z (Z_to_byte z) = z mod 256.
Proof.
  unfold Z_to_byte, uint8, byte_to_Z.
  change (2 ^ 8) with 256.
  pose proof (Z.mod_pos_bound z 256 ltac:(lia)) as Hb.
  destruct (Byte.of_N (Z.to_N (z mod 256))) as [b|] eqn:E.
  - apply Byte.to_of_N in E. rewrite E. lia.
  - exfalso.
    pose proof (Byte.to_of_N_option_map (Z.to_N (z mod 256))) as Hm.
    rewrite E in Hm. simpl in Hm.
    destruct (N.leb_spec (Z.to_N (z mod 256)) 255); [discriminate | lia].
Qed.

(** [|] of a number below [2^n] with a number shifted by [n] is their sum. *)
Lemma lor_shiftl_add a b n :
  0 <= n -> 0 <= a < 2 ^ n -> Z.lor a (Z.shiftl b n) = a + b * 2 ^ n.
Proof.
  intros Hn Ha.
  rewrite <- (Z.shiftl_mul_pow2 b n Hn).
  rewrite <- Z.add_lor_land.
  assert (Z.land a (Z.shiftl b n) = 0) as ->; [| lia].
  apply Z.bits_inj'. intros m Hm.
  rewrite Z.land_spec, Z.bits_0.
  destruct (Z.lt_ge_cases m n).
  - rewrite (Z.shiftl_spec_low b n m) by assumption. apply andb_false_r.
  - rewrite <- (Z.mod_small a (2 ^ n)) by assumption.
    rewrite Z.mod_pow2_bits_high by lia. reflexivity.
Qed.

(** Index and slice expressions that are in range. *)
Lemma index_cons_0 {A} (x : A) l : index (x :: l) 0 = Ok x.
Proof.
  unfold index, len. cbn [List.length nth_error Z.to_nat].
  replace (0 <=? 0) with true by reflexivity.
  destruct (Z.ltb_spec 0 (Z.of_nat (S (List.length l)))); [reflexivity | lia].
Qed.

Lemma index_app_len {A} (pre : list A) x l :
  index (pre ++ x :: l) (len pre) = Ok x.
Proof.
  unfold index, len. rewrite length_app. cbn [List.length].
  rewrite Nat2Z.id, nth_error_app2, Nat.sub_diag by lia. cbn.
  destruct (Z.leb_spec 0 (Z.of_nat (List.length pre))); [| lia].
  destruct (Z.ltb_spec (Z.of_nat (List.length pre))
              (Z.of_nat (List.length pre + S (List.length l)))); [reflexivity | lia].
Qed.

Lemma slice_app_mid {A} (pre mid post : list A) lo hi :
  lo = len pre -> hi = len pre + len mid ->
  slice (pre ++ mid ++ post) lo hi = Ok mid.
Proof.
  intros -> ->. unfold slice, len. rewrite !length_app.
  destruct (Z.leb_spec 0 (Z.of_nat (List.length pre))); [| lia].
  destruct (Z.leb_spec (Z.of_nat (List.length pre))
              (Z.of_nat (List.length pre) + Z.of_nat (List.length mid))); [| lia].
  destruct (Z.leb_spec (Z.of_nat (List.length pre) + Z.of_nat (List.length mid))
              (Z.of_nat (List.length pre + (List.length mid + List.length post))));
    [| lia].
  cbn [andb]. f_equal.
  rewrite Nat2Z.id, skipn_app, skipn_all, Nat.sub_diag. cbn [skipn app].
  replace (Z.to_nat (Z.of_nat (List.length pre) + Z.of_nat (List.length mid)
                     - Z.of_nat (List.length pre))) with (List.length mid) by lia.
  rewrite firstn_app, firstn_all, Nat.sub_diag. cbn. apply app_nil_r.
Qed.

Lemma Uint16_bytes hi lo :
  BigEndian_Uint16 [hi; lo] = Ok (byte_to_Z lo + byte_to_Z hi * 256).
Proof.
  unfold BigEndian_Uint16.
  change (index [hi; lo] 1) with (Ok (A:=byte) lo).
  change (index [hi; lo] 0) with (Ok (A:=byte) hi).
  cbn [bind]. f_equal.
  apply (lor_shiftl_add _ _ 8); [lia | apply byte_to_Z_range].
Qed.

Lemma len_app {A} (a b : list A) : len (a ++ b) = len a + len b.
Proof. unfold len. rewrite length_app. lia. Qed.

Lemma len_cons {A} (x : A) l : len (x :: l) = 1 + len l.
Proof. unfold len. cbn [List.length]. lia. Qed.

Lemma len_nonneg {A} (l : list A) : 0 <= len l.
Proof. unfold len. lia. Qed.

Lemma skipn_three {A} (l : list A) :
  3 <= len l -> exists a b c t, l = a :: b :: c :: t.
Proof.
  unfold len. destruct l as [| a [| b [| c t]]]; cbn [List.length]; try lia.
  intros _. exists a, b, c, t. reflexivity.
Qed.

Lemma len_skipn {A} (l : list A) i :
  0 <= i <= len l -> len (skipn (Z.to_nat i) l) = len l - i.
Proof. unfold len. intros Hi. rewrite length_skipn. lia. Qed.

Lemma len_firstn {A} (l : list A) i :
  0 <= i <= len l -> len (firstn (Z.to_nat i) l) = i.
Proof. unfold len. intros Hi. rewrite length_firstn. lia. Qed.

Lemma Uint32_bytes b0 b1 b2 b3 :
  BigEndian_Uint32 [b0; b1; b2; b3] = Ok (be32 b0 b1 b2 b3).
Proof.
  pose proof (byte_to_Z_range b0). pose proof (byte_to_Z_range b1).
  pose proof (byte_to_Z_range b2). pose proof (byte_to_Z_range b3).
  unfold BigEndian_Uint32, be32.
  change (index [b0; b1; b2; b3] 3) with (Ok (A:=byte) b3).
  change (index [b0; b1; b2; b3] 2) with (Ok (A:=byte) b2).
  change (index [b0; b1; b2; b3] 1) with (Ok (A:=byte) b1).
  change (index [b0; b1; b2; b3] 0) with (Ok (A:=byte) b0).
  cbn [bind]. f_equal.
  rewrite (lor_shiftl_add (byte_to_Z b3) _ 8) by lia.
  rewrite (lor_shiftl_add _ _ 16) by lia.
  rewrite (lor_shiftl_add _ _ 24) by lia.
  reflexivity.
Qed.

Lemma be32_range b0 b1 b2 b3 : 0 <= be32 b0 b1 b2 b3 < 2 ^ 32.
Proof.
  pose proof (byte_to_Z_range b0). pose proof (byte_to_Z_range b1).
  pose proof (byte_to_Z_range b2). pose proof (byte_to_Z_range b3).
  unfold be32. lia.
Qed.

Lemma PutUint32_split v :
  0 <= v < 2 ^ 32 ->
  exists b0 b1 b2 b3,
    BigEndian_PutUint32 (uint32 v) = [b0; b1; b2; b3] /\ be32 b0 b1 b2 b3 = v.
Proof.
  intros Hv.
  exists (Z_to_byte (Z.shiftr v 24)), (Z_to_byte (Z.shiftr v 16)),
    (Z_to_byte (Z.shiftr v 8)), (Z_to_byte v).
  unfold uint32. rewrite Z.mod_small by assumption.
  split; [reflexivity |].
  unfold be32. rewrite !byte_to_Z_to_byte, !Z.shiftr_div_pow2 by lia.
  change (2 ^ 32) with 4294967296 in Hv.
  change (2 ^ 24) with 16777216. change (2 ^ 16) with 65536.
  change (2 ^ 8) with 256.
  pose proof (Z.div_mod v 256 ltac:(lia)).
  pose proof (Z.div_mod (v / 256) 256 ltac:(lia)).
  pose proof (Z.div_mod (v / 256 / 256) 256 ltac:(lia)).
  rewrite !Z.div_div in * by lia.
  change (256 * 256) with 65536 in *. change (65536 * 256) with 16777216 in *.
  assert (0 <= v / 16777216 < 256)
    by (split; [apply Z.div_pos; lia | apply Z.div_lt_upper_bound; lia]).
  rewrite (Z.mod_small (v / 16777216)) by assumption.
  lia.
Qed.

Lemma slice_to_ok {A} (l : list A) n :
  0 <= n <= len l -> slice_to l n = Ok (firstn (Z.to_nat n) l).
Proof.
  intros Hn. unfold slice_to, slice.
  destruct (Z.leb_spec 0 0); [| lia].
  destruct (Z.leb_spec 0 n); [| lia].
  destruct (Z.leb_spec n (len l)); [| lia].
  cbn [andb skipn Z.to_nat]. rewrite Z.sub_0_r. reflexivity.
Qed.

Lemma slice_to_panic {A} (l : list A) n :
  len l < n -> slice_to l n = Panic "slice bounds out of range".
Proof.
  intros Hn. unfold slice_to, slice.
  destruct (Z.leb_spec n (len l)); [lia |].
  rewrite andb_false_r. reflexivity.
Qed.

Lemma slice_from_ok {A} (l : list A) n :
  0 <= n <= len l -> slice_from l n = Ok (skipn (Z.to_nat n) l).
Proof.
  intros Hn. unfold slice_from, slice.
  destruct (Z.leb_spec 0 n); [| lia].
  destruct (Z.leb_spec n (len l)); [| lia].
  destruct (Z.leb_spec (len l) (len l)); [| lia].
  cbn [andb]. f_equal. apply firstn_all2. rewrite length_skipn.
  unfold len. lia.
Qed.

End go_facts.

(* ================================================================== *)
(** ** The wire codec *)
(* ================================================================== *)

Module codec_facts.
Import apns Props go_facts.

(** One pass through the body of the parser's loop. *)
Lemma loop_unfold data i p :
  unmarshalFields_loop data i p =
  if Z_le_gt_dec (i + 3) (len data) then
    match read_field_header data i with
    | Ok (id, fl) =>
        if Z_gt_le_dec (i + 3 + fl) (len data) then (p, Err errInvalidFieldLength)
        else match slice data (i + 3) (i + 3 + fl) with
             | Ok v => unmarshalFields_loop data (i + 3 + fl)
                         (append_field p (mkField id v))
             | Err e => (p, Err e)
             | Panic m => (p, Panic m)
             end
    | Err e => (p, Err e)
    | Panic m => (p, Panic m)
    end
  else (p, Ok tt).
Proof.
  funelim (unmarshalFields_loop data i p); clear Heqcall;
  repeat match goal with
  | Hs : _ = {| pr1 := _; pr2 := _ |} |- _ => clear Hs
  end;
  repeat match goal with
  | Hq : Z_le_gt_dec _ _ = _ |- _ => rewrite Hq; clear Hq
  | Hq : Z_gt_le_dec _ _ = _ |- _ => rewrite Hq; clear Hq
  | Hq : read_field_header _ _ = _ |- _ => rewrite Hq; clear Hq
  | Hq : slice _ _ _ = _ |- _ => rewrite Hq; clear Hq
  end; reflexivity.
Qed.

Lemma read_field_header_at pre id hi lo tail :
  read_field_header (pre ++ id :: hi :: lo :: tail) (len pre)
  = Ok (id, byte_to_Z lo + byte_to_Z hi * 256).
Proof.
  unfold read_field_header.
  rewrite index_app_len. cbn [bind].
  change (pre ++ id :: hi :: lo :: tail)
    with (pre ++ [id] ++ [hi; lo] ++ tail).
  rewrite app_assoc.
  rewrite (slice_app_mid (pre ++ [id]) [hi; lo] tail);
    [| rewrite len_app; reflexivity
     | rewrite len_app; change (len [id]) with 1; change (len [hi; lo]) with 2; lia].
  cbn [bind]. rewrite Uint16_bytes. reflexivity.
Qed.

Lemma loop_stop data i p :
  len data < i + 3 -> unmarshalFields_loop data i p = (p, Ok tt).
Proof.
  intros Hlt. rewrite loop_unfold.
  destruct (Z_le_gt_dec (i + 3) (len data)); [lia | reflexivity].
Qed.

(** The pass over a field header [id hi lo] found at index [len pre]. *)
Lemma loop_step pre id hi lo tail p :
  let fl := byte_to_Z lo + byte_to_Z hi * 256 in
  let data := pre ++ id :: hi :: lo :: tail in
  unmarshalFields_loop data (len pre) p =
  if fl <=? len tail then
    unmarshalFields_loop data (len pre + 3 + fl)
      (append_field p (mkField id (firstn (Z.to_nat fl) tail)))
  else (p, Err errInvalidFieldLength).
Proof.
  intros fl data.
  pose proof (byte_to_Z_range lo). pose proof (byte_to_Z_range hi).
  assert (Hlen : len data = len pre + 3 + len tail).
  { unfold data. rewrite len_app, !len_cons. lia. }
  pose proof (len_nonneg tail).
  rewrite loop_unfold.
  destruct (Z_le_gt_dec (len pre + 3) (len data)); [| lia].
  unfold data at 1. rewrite read_field_header_at. fold fl.
  destruct (Z_gt_le_dec (len pre + 3 + fl) (len data));
    destruct (Z.leb_spec fl (len tail)); try lia; [reflexivity |].
  assert (Hs : slice data (len pre + 3) (len pre + 3 + fl)
               = Ok (firstn (Z.to_nat fl) tail)).
  { unfold data.
    rewrite <- (firstn_skipn (Z.to_nat fl) tail) at 1.
    change (pre ++ id :: hi :: lo :: ?t) with (pre ++ [id; hi; lo] ++ t).
    rewrite app_assoc.
    apply slice_app_mid.
    - rewrite len_app. reflexivity.
    - rewrite len_app. change (len [id; hi; lo]) with 3.
      assert (len (firstn (Z.to_nat fl) tail) = fl); [| lia].
      unfold len in *. rewrite length_firstn. lia. }
  rewrite Hs. reflexivity.
Qed.

Lemma PutUint16_bytes hi lo :
  BigEndian_PutUint16 (uint16 (byte_to_Z lo + byte_to_Z hi * 256)) = [hi; lo].
Proof.
  pose proof (byte_to_Z_range lo). pose proof (byte_to_Z_range hi).
  unfold BigEndian_PutUint16, uint16.
  change (2 ^ 16) with 65536.
  rewrite Z.mod_small by lia.
  rewrite Z.shiftr_div_pow2 by lia. change (2 ^ 8) with 256.
  replace ((byte_to_Z lo + byte_to_Z hi * 256) / 256) with (byte_to_Z hi)
    by (apply Z.div_unique with (r := byte_to_Z lo); lia).
  rewrite Z_to_byte_to_Z.
  f_equal. f_equal.
  rewrite <- (Z_to_byte_to_Z lo) at 2.
  unfold Z_to_byte, uint8. change (2 ^ 8) with 256.
  rewrite Z_mod_plus_full. reflexivity.
Qed.

Lemma PutUint16_split v :
  0 <= v < 2 ^ 16 ->
  exists hi lo, BigEndian_PutUint16 (uint16 v) = [hi; lo]
                /\ byte_to_Z lo + byte_to_Z hi * 256 = v.
Proof.
  intros Hv. change (2 ^ 16) with 65536 in Hv.
  exists (Z_to_byte (Z.shiftr v 8)), (Z_to_byte v).
  unfold uint16. change (2 ^ 16) with 65536. rewrite Z.mod_small by lia.
  split; [reflexivity |].
  rewrite !byte_to_Z_to_byte, Z.shiftr_div_pow2 by lia.
  change (2 ^ 8) with 256.
  rewrite (Z.mod_small (v / 256)).
  - pose proof (Z.div_mod v 256 ltac:(lia)). lia.
  - split; [apply Z.div_pos; lia | apply Z.div_lt_upper_bound; lia].
Qed.

Lemma add_fields_nil p : add_fields p [] = p.
Proof. destruct p. unfold add_fields. cbn. rewrite app_nil_r. reflexivity. Qed.

Lemma add_fields_cons p f fs :
  add_fields (append_field p f) fs = add_fields p (f :: fs).
Proof.
  unfold add_fields, append_field. cbn. rewrite <- app_assoc. reflexivity.
Qed.


Lemma field_bytes_eq id hi lo v :
  byte_to_Z lo + byte_to_Z hi * 256 = len v ->
  field_bytes (mkField id v) = id :: hi :: lo :: v.
Proof.
  intros Hv. unfold field_bytes. cbn [Field_ID Field_Value].
  rewrite <- Hv, PutUint16_bytes. reflexivity.
Qed.

Lemma fields_bytes_cons f fs :
  fields_bytes (f :: fs) = field_bytes f ++ fields_bytes fs.
Proof. reflexivity. Qed.

Lemma fields_bytes_app fs gs :
  fields_bytes (fs ++ gs) = fields_bytes fs ++ fields_bytes gs.
Proof. unfold fields_bytes. apply flat_map_app. Qed.

(** The loop walks over the fields the encoder wrote. *)
Lemma loop_skip_fields fs : forall pre rest p,
  fields_fit fs ->
  unmarshalFields_loop (pre ++ fields_bytes fs ++ rest) (len pre) p
  = unmarshalFields_loop (pre ++ fields_bytes fs ++ rest)
      (len (pre ++ fields_bytes fs)) (add_fields p fs).
Proof.
  induction fs as [| f fs IH]; intros pre rest p Hfit.
  - cbn [fields_bytes flat_map app]. rewrite add_fields_nil, app_nil_r.
    reflexivity.
  - inversion Hfit as [| ? ? Hf Hfs]; subst.
    destruct f as [id v]. cbn [Field_Value] in Hf.
    destruct (PutUint16_split (len v)) as (hi & lo & _ & Hval);
      [pose proof (len_nonneg v); lia |].
    rewrite fields_bytes_cons, (field_bytes_eq id hi lo v Hval).
    cbn [app]. rewrite <- !app_assoc.
    rewrite (loop_step pre id hi lo (v ++ fields_bytes fs ++ rest) p).
    rewrite Hval.
    destruct (Z.leb_spec (len v) (len (v ++ fields_bytes fs ++ rest)));
      [| rewrite len_app in *;
         pose proof (len_nonneg (fields_bytes fs ++ rest)); lia].
    replace (firstn (Z.to_nat (len v)) (v ++ fields_bytes fs ++ rest)) with v.
    2:{ unfold len. rewrite Nat2Z.id, firstn_app, firstn_all, Nat.sub_diag.
        cbn. rewrite app_nil_r. reflexivity. }
    replace (len pre + 3 + len v) with (len (pre ++ id :: hi :: lo :: v))
      by (rewrite len_app, !len_cons; lia).
    assert (Hd : pre ++ id :: hi :: lo :: v ++ fields_bytes fs ++ rest
                 = (pre ++ id :: hi :: lo :: v) ++ fields_bytes fs ++ rest)
      by (rewrite <- app_assoc; reflexivity).
    rewrite Hd, IH by assumption.
    rewrite add_fields_cons, <- Hd.
    replace ((pre ++ id :: hi :: lo :: v) ++ fields_bytes fs)
      with (pre ++ id :: hi :: lo :: v ++ fields_bytes fs)
      by (rewrite <- app_assoc; reflexivity).
    reflexivity.
Qed.

(** The parser accepts what the encoder writes, and up to two more bytes. *)
Lemma loop_fields fs pre rest p :
  fields_fit fs -> len rest < 3 ->
  unmarshalFields_loop (pre ++ fields_bytes fs ++ rest) (len pre) p
  = (add_fields p fs, Ok tt).
Proof.
  intros Hfit Hrest. rewrite loop_skip_fields by assumption.
  apply loop_stop. rewrite !len_app. lia.
Qed.

(** A field whose declared length overruns the buffer is refused. *)
Lemma loop_overrun fs pre id hi lo rest p :
  fields_fit fs -> len rest < byte_to_Z lo + byte_to_Z hi * 256 ->
  unmarshalFields_loop (pre ++ fields_bytes fs ++ id :: hi :: lo :: rest)
    (len pre) p
  = (add_fields p fs, Err errInvalidFieldLength).
Proof.
  intros Hfit Hrest. rewrite loop_skip_fields by assumption.
  rewrite app_assoc, loop_step.
  destruct (Z.leb_spec (byte_to_Z lo + byte_to_Z hi * 256) (len rest));
    [lia | reflexivity].
Qed.

(** Whatever the bytes, the loop ends without a panic, and its outcome tells
    how the bytes from [i] on are laid out. *)
Lemma loop_sound n : forall data i p,
  0 <= i <= len data -> (Z.to_nat (len data - i) <= n)%nat ->
  parse_outcome (skipn (Z.to_nat i) data) p (unmarshalFields_loop data i p).
Proof.
  induction n as [| n IH]; intros data i p Hi Hn.
  - rewrite loop_stop by lia. unfold parse_outcome. cbn [snd fst].
    exists [], (skipn (Z.to_nat i) data).
    rewrite len_skipn by lia.
    repeat split; [lia | constructor | symmetry; apply add_fields_nil].
  - destruct (Z_le_gt_dec (i + 3) (len data)) as [Hle | Hgt].
    2:{ rewrite loop_stop by lia. unfold parse_outcome. cbn [snd fst].
        exists [], (skipn (Z.to_nat i) data).
        rewrite len_skipn by lia.
        repeat split; [lia | constructor | symmetry; apply add_fields_nil]. }
    destruct (skipn_three (skipn (Z.to_nat i) data))
      as (id & hi & lo & tail & Hsuf); [rewrite len_skipn; lia |].
    pose proof (firstn_skipn (Z.to_nat i) data) as Hdata.
    rewrite Hsuf in Hdata |- *.
    set (pre := firstn (Z.to_nat i) data) in *.
    assert (Hpre : len pre = i) by (apply len_firstn; lia).
    assert (Htail : len data = i + 3 + len tail).
    { rewrite <- Hdata, len_app, !len_cons. lia. }
    pose proof (byte_to_Z_range lo). pose proof (byte_to_Z_range hi).
    rewrite <- Hdata, <- Hpre, loop_step.
    set (fl := byte_to_Z lo + byte_to_Z hi * 256) in *.
    destruct (Z.leb_spec fl (len tail)) as [Hfit | Hover].
    + rewrite Hdata, Hpre.
      specialize (IH data (i + 3 + fl)
                    (append_field p (mkField id (firstn (Z.to_nat fl) tail)))
                    ltac:(lia) ltac:(lia)).
      assert (Hskip : skipn (Z.to_nat (i + 3 + fl)) data
                      = skipn (Z.to_nat fl) tail).
      { rewrite <- Hdata.
        replace (Z.to_nat (i + 3 + fl))
          with (List.length pre + (3 + Z.to_nat fl))%nat
          by (unfold len in Hpre; lia).
        rewrite skipn_app, skipn_all2 by lia.
        replace (List.length pre + (3 + Z.to_nat fl) - List.length pre)%nat
          with (3 + Z.to_nat fl)%nat by lia.
        reflexivity. }
      rewrite Hskip in IH.
      assert (Hv : byte_to_Z lo + byte_to_Z hi * 256
                   = len (firstn (Z.to_nat fl) tail))
        by (rewrite len_firstn; [reflexivity | fold fl; lia]).
      pose proof (field_bytes_eq id hi lo _ Hv) as Hfb.
      unfold parse_outcome in *.
      destruct (snd (unmarshalFields_loop data (i + 3 + fl) _))
        as [[] | e | m].
      * destruct IH as (fs & rest & Hs & Hr & Hf & Hp).
        exists (mkField id (firstn (Z.to_nat fl) tail) :: fs), rest.
        rewrite fields_bytes_cons, Hfb. cbn [app]. rewrite <- app_assoc.
        rewrite <- Hs, firstn_skipn.
        repeat split; try assumption.
        -- constructor; [cbn [Field_Value]; rewrite <- Hv; fold fl; lia
                        | assumption].
        -- rewrite Hp. apply add_fields_cons.
      * destruct IH as (-> & fs & id' & hi' & lo' & rest & Hs & Hr & Hf & Hp).
        split; [reflexivity |].
        exists (mkField id (firstn (Z.to_nat fl) tail) :: fs),
          id', hi', lo', rest.
        rewrite fields_bytes_cons, Hfb. cbn [app]. rewrite <- app_assoc.
        rewrite <- Hs, firstn_skipn.
        repeat split; try assumption.
        -- constructor; [cbn [Field_Value]; rewrite <- Hv; fold fl; lia
                        | assumption].
        -- rewrite Hp. apply add_fields_cons.
      * exact IH.
    + unfold parse_outcome. cbn [snd fst]. split; [reflexivity |].
      exists [], id, hi, lo, tail.
      repeat split; [assumption | constructor | symmetry; apply add_fields_nil].
Qed.


(** The length [ToBytes] computes is the length of what it writes. *)
Lemma fields_length_acc fs : forall acc,
  fold_left (fun acc f => acc + (3 + len (Field_Value f))) fs acc
  = acc + len (fields_bytes fs).
Proof.
  induction fs as [| f fs IH]; intros acc; cbn [fold_left].
  - change (len (fields_bytes [])) with 0. lia.
  - rewrite IH, fields_bytes_cons, len_app. unfold field_bytes.
    rewrite len_cons, len_app. change (len (BigEndian_PutUint16 _)) with 2.
    lia.
Qed.

Lemma fields_length_bytes fs : fields_length fs = len (fields_bytes fs).
Proof. unfold fields_length. rewrite fields_length_acc. lia. Qed.

(** [UnmarshalBinary] on a buffer that holds a header and at least the
    bytes its length field declares. *)
Lemma UnmarshalBinary_frame p id b0 b1 b2 b3 body :
  id <> x00 -> be32 b0 b1 b2 b3 <= len body -> 5 + be32 b0 b1 b2 b3 < 2 ^ 32 ->
  UnmarshalBinary p (id :: b0 :: b1 :: b2 :: b3 :: body)
  = unmarshalFieldsFromBytes (set_ID p id)
      (firstn (Z.to_nat (be32 b0 b1 b2 b3)) body).
Proof.
  intros Hid Hfit Hmax.
  pose proof (be32_range b0 b1 b2 b3) as Hr.
  pose proof (len_nonneg body).
  unfold UnmarshalBinary.
  rewrite !len_cons.
  destruct (Z.eqb_spec (1 + (1 + (1 + (1 + (1 + len body))))) 0); [lia |].
  rewrite index_cons_0. cbn [set_ID Payload_ID].
  destruct (Byte.eqb id x00) eqn:E; [apply Byte.byte_dec_bl in E; contradiction |].
  destruct (Z.ltb_spec (1 + (1 + (1 + (1 + (1 + len body))))) 5); [lia |].
  change (slice (id :: b0 :: b1 :: b2 :: b3 :: body) 1 5)
    with (slice ([id] ++ [b0; b1; b2; b3] ++ body) 1 5).
  rewrite (slice_app_mid [id] [b0; b1; b2; b3] body 1 5) by reflexivity.
  cbn [bind]. rewrite Uint32_bytes.
  unfold uint32. rewrite Z.mod_small by lia.
  set (L := be32 b0 b1 b2 b3) in *.
  assert (Hs : slice (id :: b0 :: b1 :: b2 :: b3 :: body) 5 (5 + L)
               = Ok (firstn (Z.to_nat L) body)).
  { rewrite <- (firstn_skipn (Z.to_nat L) body) at 1.
    apply (slice_app_mid [id; b0; b1; b2; b3]
             (firstn (Z.to_nat L) body) (skipn (Z.to_nat L) body)).
    - reflexivity.
    - rewrite len_firstn by lia. reflexivity. }
  rewrite Hs. reflexivity.
Qed.

Lemma unmarshalFields_encoded p fs :
  fields_fit fs ->
  unmarshalFieldsFromBytes p (fields_bytes fs) = (add_fields p fs, Ok tt).
Proof.
  intros Hfit. unfold unmarshalFieldsFromBytes.
  pose proof (loop_fields fs [] [] p Hfit ltac:(cbn; lia)) as Hl.
  cbn [app] in Hl. rewrite app_nil_r in Hl. exact Hl.
Qed.

(** C4 (amended): for every frame with a non-zero command id, whose field
    values are each shorter than 65536 bytes and whose fields encode to fewer
    than 2^32 - 5 bytes, decoding the bytes produced by encoding the frame
    into a fresh payload yields the frame again: same command id, same
    fields in the same order, duplicate ids and empty values included. *)
Theorem roundtrip F :
  Payload_ID F <> x00 -> fields_fit (Payload_Fields F) ->
  fields_length (Payload_Fields F) + 5 < 2 ^ 32 ->
  UnmarshalBinary Payload_zero (ToBytes F) = (F, Ok tt).
Proof.
  intros Hid Hfit Hmax. destruct F as [id fs]. cbn [Payload_ID Payload_Fields] in *.
  unfold ToBytes. cbn [Payload_ID Payload_Fields].
  rewrite fields_length_bytes in *.
  pose proof (len_nonneg (fields_bytes fs)).
  destruct (PutUint32_split (len (fields_bytes fs)))
    as (b0 & b1 & b2 & b3 & Hput & Hval); [lia |].
  rewrite Hput. cbn [app].
  rewrite UnmarshalBinary_frame; rewrite ?Hval; try assumption; try lia.
  unfold len. rewrite Nat2Z.id, firstn_all.
  rewrite unmarshalFields_encoded by assumption.
  reflexivity.
Qed.


(** C4, as stated, fails on the sentinel command id: the fields of a frame
    with command id zero are encoded but never decoded. *)
Lemma roundtrip_counterexample :
  let F := mkPayload x00 [mkField x01 []] in
  ToBytes F = [x00; x00; x00; x00; x03; x01; x00; x00]
  /\ UnmarshalBinary Payload_zero (ToBytes F) = (mkPayload x00 [], Ok tt)
  /\ fst (UnmarshalBinary Payload_zero (ToBytes F)) <> F.
Proof.
  cbv zeta. repeat split. cbn. discriminate.
Qed.

Lemma roundtrip_witness :
  let F := mkPayload x09 [mkField x01 [xaa]; mkField x02 [];
                          mkField x02 [xbb; xcc]; mkField x01 []] in
  UnmarshalBinary Payload_zero (ToBytes F) = (F, Ok tt).
Proof.
  cbv zeta. apply roundtrip.
  - discriminate.
  - repeat constructor.
  - reflexivity.
Defined.

(** C3 (amended): the field parser never panics and never reads out of
    bounds.  Its outcome on any buffer is either success, when the buffer is
    a sequence of whole fields followed by fewer than three bytes, which are
    ignored, or the framing error, when a field header declares more bytes
    than remain; both ways the fields before that point are appended to the
    receiver.  Conversely such buffers give exactly these outcomes.
    [UnmarshalBinary] refuses the empty buffer and a non-zero command id with
    fewer than five bytes, and when the buffer holds at least the bytes its
    length field declares it parses exactly those and ignores what
    follows. *)
Theorem decoding_total_and_framed p data :
  parse_outcome data p (unmarshalFieldsFromBytes p data)
  /\ (forall fs rest,
        fields_fit fs -> len rest < 3 -> data = fields_bytes fs ++ rest ->
        unmarshalFieldsFromBytes p data = (add_fields p fs, Ok tt))
  /\ (forall fs id hi lo rest,
        fields_fit fs -> len rest < byte_to_Z lo + byte_to_Z hi * 256 ->
        data = fields_bytes fs ++ id :: hi :: lo :: rest ->
        unmarshalFieldsFromBytes p data
        = (add_fields p fs, Err errInvalidFieldLength))
  /\ (data = [] -> UnmarshalBinary p data = (p, Err errEmptyPayload))
  /\ (forall id rest,
        data = id :: rest -> id <> x00 -> len data < 5 ->
        UnmarshalBinary p data = (set_ID p id, Err errInvalidPayloadLength))
  /\ (forall id b0 b1 b2 b3 body,
        data = id :: b0 :: b1 :: b2 :: b3 :: body -> id <> x00 ->
        be32 b0 b1 b2 b3 <= len body -> 5 + be32 b0 b1 b2 b3 < 2 ^ 32 ->
        UnmarshalBinary p data
        = unmarshalFieldsFromBytes (set_ID p id)
            (firstn (Z.to_nat (be32 b0 b1 b2 b3)) body)).
Proof.
  repeat split.
  - pose proof (loop_sound (List.length data) data 0 p) as Hs.
    cbn [Z.to_nat skipn] in Hs. apply Hs.
    + pose proof (len_nonneg data). lia.
    + unfold len. lia.
  - intros fs rest Hfit Hrest ->.
    apply (loop_fields fs [] rest p Hfit Hrest).
  - intros fs id hi lo rest Hfit Hrest ->.
    apply (loop_overrun fs [] id hi lo rest p Hfit Hrest).
  - intros ->. reflexivity.
  - intros id rest -> Hid Hlen. unfold UnmarshalBinary.
    rewrite len_cons in *. pose proof (len_nonneg rest).
    destruct (Z.eqb_spec (1 + len rest) 0); [lia |].
    rewrite index_cons_0. cbn [set_ID Payload_ID].
    destruct (Byte.eqb id x00) eqn:E;
      [apply Byte.byte_dec_bl in E; contradiction |].
    destruct (Z.ltb_spec (1 + len rest) 5); [reflexivity | lia].
  - intros id b0 b1 b2 b3 body -> Hid Hfit Hmax.
    apply UnmarshalBinary_frame; assumption.
Qed.

(** C3, as stated, fails: a frame that declares no field bytes is accepted
    although a byte follows it, and a declared field area that is no whole
    field is accepted with its byte dropped. *)
Lemma decoding_counterexample :
  (let data := [x01; x00; x00; x00; x00; xaa] in
   be32 x00 x00 x00 x00 <> len (skipn 5 data)
   /\ UnmarshalBinary Payload_zero data = (mkPayload x01 [], Ok tt))
  /\ (let data := [x01; x00; x00; x00; x01; xaa] in
      be32 x00 x00 x00 x01 = len (skipn 5 data)
      /\ (forall fs, fields_bytes fs <> skipn 5 data)
      /\ UnmarshalBinary Payload_zero data = (mkPayload x01 [], Ok tt)).
Proof.
  cbv zeta. repeat split.
  - discriminate.
  - intros [| f fs]; cbn [skipn]; [discriminate |].
    rewrite fields_bytes_cons. unfold field_bytes, BigEndian_PutUint16.
    cbn [app]. discriminate.
Qed.

Lemma decoding_witness :
  unmarshalFieldsFromBytes Payload_zero [x01; x00; x01; xaa; x02; x00]
    = (mkPayload x00 [mkField x01 [xaa]], Ok tt)
  /\ unmarshalFieldsFromBytes Payload_zero [x01; x00; x05; xaa]
    = (Payload_zero, Err errInvalidFieldLength)
  /\ UnmarshalBinary Payload_zero [x09; x00; x00; x00; x03; x02; x00; x00; xff]
    = (mkPayload x09 [mkField x02 []], Ok tt).
Proof.
  split; [| split].
  - apply (proj1 (proj2 (decoding_total_and_framed Payload_zero
                          [x01; x00; x01; xaa; x02; x00]))
             [mkField x01 [xaa]] [x02; x00]).
    + repeat constructor.
    + reflexivity.
    + reflexivity.
  - apply (proj1 (proj2 (proj2 (decoding_total_and_framed Payload_zero
                                 [x01; x00; x05; xaa])))
             [] x01 x00 x05 [xaa]).
    + constructor.
    + reflexivity.
    + reflexivity.
  - rewrite (proj2 (proj2 (proj2 (proj2 (proj2
               (decoding_total_and_framed Payload_zero
                  [x09; x00; x00; x00; x03; x02; x00; x00; xff])))))
               x09 x00 x00 x00 x03 [x02; x00; x00; xff]).
    + reflexivity.
    + reflexivity.
    + discriminate.
    + discriminate.
    + reflexivity.
Defined.

End codec_facts.

(* ================================================================== *)
(** ** The decryptor, the connection, registration and the session *)
(* ================================================================== *)

Module decrypt_facts.
Import messaging Fixtures go_facts.

Section Decrypt.
Context `{Externals}.

(** The calls of [DecryptPairPayload] up to the RSA decryption. *)
Lemma DecryptPairPayload_unfold privateKey body :
  160 <= len (Body body) ->
  DecryptPairPayload privateKey body =
  (decryptedEncryptionKey <-
     wrap "failed to decrypt encryption key: %w"
       (rsa_DecryptOAEP privateKey (firstn 160 (Body body))) ;;
   key <- slice_to decryptedEncryptionKey 16 ;;
   block <- wrap "failed to create AES cipher: %w" (aes_NewCipher key) ;;
   first <- slice_from decryptedEncryptionKey 16 ;;
   Ok (aes_ctr_XORKeyStream block normalIV
         (first ++ skipn 160 (Body body)))).
Proof.
  intros Hlen. unfold DecryptPairPayload.
  destruct (Z.ltb_spec (len (Body body)) 160); [lia |].
  rewrite slice_to_ok, slice_from_ok by lia. reflexivity.
Qed.

(** C5: for a body of at least 160 bytes whose first 160 bytes decrypt
    (RSA-OAEP, SHA-1) to a 16-byte AES key followed by the first chunk of the
    ciphertext, [DecryptPairPayload] returns the AES-CTR decryption, under
    that key and the all-zero 16-byte IV, of the chunk followed by the bytes
    after the first 160; a body shorter than 160 bytes gives an error. *)
Theorem DecryptPairPayload_recovers privateKey body :
  (forall aesKey chunk,
     160 <= len (Body body) ->
     rsa_DecryptOAEP privateKey (firstn 160 (Body body)) = Ok (aesKey ++ chunk) ->
     len aesKey = 16 ->
     DecryptPairPayload privateKey body
     = Ok (aes_ctr_XORKeyStream aesKey normalIV
             (chunk ++ skipn 160 (Body body))))
  /\ (len (Body body) < 160 ->
      DecryptPairPayload privateKey body
      = Err (fmtError
               "too short payload (missing encryption key, expected >160, got %d)"
               [ArgInt (len (Body body))])).
Proof.
  split.
  - intros aesKey chunk Hlen Hrsa Hkey.
    rewrite DecryptPairPayload_unfold, Hrsa by assumption. cbn [wrap bind].
    pose proof (len_nonneg chunk).
    rewrite slice_to_ok by (unfold len in *; rewrite length_app; lia).
    rewrite slice_from_ok by (unfold len in *; rewrite length_app; lia).
    replace (Z.to_nat 16) with (List.length aesKey) by (unfold len in Hkey; lia).
    rewrite firstn_app, firstn_all, Nat.sub_diag, skipn_app, skipn_all,
      Nat.sub_diag.
    cbn [firstn skipn app bind]. rewrite app_nil_r.
    unfold aes_NewCipher. rewrite Hkey. reflexivity.
  - intros Hshort. unfold DecryptPairPayload.
    destruct (Z.ltb_spec (len (Body body)) 160); [| lia].
    reflexivity.
Qed.

(** C10: the length check of [DecryptPairPayload] covers the encrypted body
    only.  With a body of at least 160 bytes whose RSA block decrypts, the
    slice that takes the first 16 bytes of the plaintext as the key is out
    of range, a panic and not a returned error, when the plaintext is
    shorter than 16 bytes; with 16 bytes or more the call returns. *)
Theorem DecryptPairPayload_key_slice privateKey body plaintext :
  160 <= len (Body body) ->
  rsa_DecryptOAEP privateKey (firstn 160 (Body body)) = Ok plaintext ->
  (len plaintext < 16 ->
   DecryptPairPayload privateKey body = Panic "slice bounds out of range")
  /\ (16 <= len plaintext ->
      exists out, DecryptPairPayload privateKey body = Ok out).
Proof.
  intros Hlen Hrsa.
  rewrite DecryptPairPayload_unfold, Hrsa by assumption. cbn [wrap bind].
  split.
  - intros Hshort. rewrite slice_to_panic by assumption. reflexivity.
  - intros Hlong.
    rewrite slice_to_ok, slice_from_ok by lia. cbn [bind].
    unfold aes_NewCipher.
    replace (len (firstn (Z.to_nat 16) plaintext)) with 16
      by (unfold len in *; rewrite length_firstn; lia).
    cbn [Z.eqb orb wrap bind]. eexists. reflexivity.
Qed.

End Decrypt.

(** C7: on the four bytes 00 FF FF 00 the declared body length 65535
    exceeds the one byte left, yet [ParseBody] does not report a missing
    body: the 16-bit sum [3 + bodyLength + 1] wraps to 3, the length check
    passes, and the slice [payload[3:2]] panics. *)
Theorem ParseBody_wrapped_length_panics :
  ParseBody [x00; xff; xff; x00] = Panic "slice bounds out of range".
Proof. reflexivity. Qed.

(** Away from the wrap the two checks behave as described. *)
Lemma ParseBody_missing_body tag hi lo rest :
  let bodyLength := byte_to_Z lo + byte_to_Z hi * 256 in
  bodyLength + 4 < 2 ^ 16 -> 1 <= len rest -> len rest <= bodyLength ->
  ParseBody (tag :: hi :: lo :: rest)
  = Err (fmtError "too short payload (missing body, expected >%d, got %d)"
           [ArgInt (bodyLength + 4); ArgInt (3 + len rest)]).
Proof.
  intros bodyLength Hmax Hge Hshort. subst bodyLength. unfold ParseBody.
  pose proof (byte_to_Z_range lo). pose proof (byte_to_Z_range hi).
  change (2 ^ 16) with 65536 in Hmax.
  rewrite !len_cons.
  destruct (Z.ltb_spec (1 + (1 + (1 + len rest))) 4); [lia |].
  rewrite index_cons_0. cbn [bind].
  change (slice (tag :: hi :: lo :: rest) 1 3)
    with (slice ([tag] ++ [hi; lo] ++ rest) 1 3).
  rewrite (slice_app_mid [tag] [hi; lo] rest 1 3) by reflexivity.
  cbn [bind]. rewrite Uint16_bytes. cbn [bind].
  unfold uint16 at 1 2. change (2 ^ 16) with 65536.
  assert (Hm : 0 <= 3 + (byte_to_Z lo + byte_to_Z hi * 256) + 1 < 65536).
  { lia. }
  rewrite (Z.mod_small _ _ Hm).
  destruct (Z.ltb_spec (1 + (1 + (1 + len rest)))
              (3 + (byte_to_Z lo + byte_to_Z hi * 256) + 1)); [| lia].
  replace (3 + (byte_to_Z lo + byte_to_Z hi * 256) + 1)
    with (byte_to_Z lo + byte_to_Z hi * 256 + 4) by lia.
  replace (1 + (1 + (1 + len rest))) with (3 + len rest) by lia.
  reflexivity.
Qed.

Lemma ParseBody_missing_header payload :
  len payload < 4 ->
  ParseBody payload
  = Err (fmtError "too short payload (missing header, expected >4, got %d)"
           [ArgInt (len payload)]).
Proof.
  intros Hlen. unfold ParseBody.
  destruct (Z.ltb_spec (len payload) 4); [reflexivity | lia].
Qed.


Lemma DecryptPairPayload_recovers_witness :
  @DecryptPairPayload test_externals tt (test_body x74 [x22; x33])
  = Ok (repeat x11 100 ++ [x22; x33]).
Proof.
  apply (proj1 (@DecryptPairPayload_recovers test_externals tt
                  (test_body x74 [x22; x33]))
           (repeat x11 16) (repeat x11 100)).
  - vm_compute. discriminate.
  - reflexivity.
  - reflexivity.
Defined.

Lemma DecryptPairPayload_key_slice_witness :
  @DecryptPairPayload test_externals tt (test_body x05 [x22; x33])
  = Panic "slice bounds out of range".
Proof.
  refine (proj1 (@DecryptPairPayload_key_slice test_externals tt
                   (test_body x05 [x22; x33]) (repeat x11 5) _ _) _).
  - vm_compute. discriminate.
  - reflexivity.
  - reflexivity.
Defined.

End decrypt_facts.

Module connection_facts.
Import apns Props Fixtures.

Section Connection.
Context `{Externals}.
Variable W : Type.
Variable handler : MessageHandler W.

(** C2: a connection that holds a signing key and a device certificate but
    an empty token does not get past the precondition checks of [Connect]:
    the call returns [ErrNoToken] and leaves the connection as it was. *)
Theorem Connect_rejects_empty_token env c key cert :
  privateKey c = Some key -> deviceCert c = Some cert -> token c = [] ->
  Connect env c = (c, Err ErrNoToken).
Proof.
  intros Hk Hc Ht. unfold Connect. rewrite Hk, Hc, Ht. reflexivity.
Qed.

(** The connection the handshake builds has a key, no certificate and no
    token: [Connect] refuses it at the first check. *)
Lemma Connect_after_handshake env key :
  Connect env (NewConnection (Some key) None [])
  = (NewConnection (Some key) None [],
     Err (fmtError "missing push certificate or key" [])).
Proof. reflexivity. Qed.

Lemma Connect_accepts_token env c key cert :
  privateKey c = Some key -> deviceCert c = Some cert -> token c <> [] ->
  Connect env c = Connect_handshake env key cert c.
Proof.
  intros Hk Hc Ht. unfold Connect. rewrite Hk, Hc.
  destruct (token c); [contradiction | reflexivity].
Qed.

Lemma KeepAlive_ToBytes : ToBytes KeepAliveCommand_ToPayload = keepalive_bytes.
Proof. reflexivity. Qed.

Lemma write_spec c cn data :
  conn c = Some cn ->
  write c data
  = (set_conn c (Some (after_write cn data)),
     match next_write_outcome cn with
     | None => Ok tt
     | Some e => Err e
     end).
Proof.
  intros Hc. unfold write, after_write, next_write_outcome. rewrite Hc.
  destruct (write_outcomes cn) as [| [e |] rest]; reflexivity.
Qed.

Lemma readPayload_conn c c' r :
  readPayload c = (c', r) ->
  match conn c with
  | None => c' = c
  | Some cn =>
      exists reader,
        c' = set_conn c (Some (mkConn reader (write_outcomes cn)
                                 (io_log cn ++ [EvRead r])))
  end.
Proof.
  unfold readPayload. destruct (conn c) as [cn |].
  - destruct (UnmarshalBinaryStream Payload_zero (inbound cn))
      as [[reader payload] r0].
    intros [= <- <-]. exists reader. reflexivity.
  - intros [= <- _]. reflexivity.
Qed.

(** One pass through the body of the loop that reads a frame with the
    keep-alive command id: the reply is written once, right after the read,
    and the pass ends there. *)
Lemma ReadLoop_iter_keepalive c w cn c1 payload :
  conn c = Some cn ->
  readPayload c = (c1, Ok payload) ->
  Payload_ID payload = CommandKeepAlive ->
  exists cn1,
    conn c1 = Some cn1
    /\ io_log cn1 = io_log cn ++ [EvRead (Ok payload)]
    /\ ToBytes KeepAliveCommand_ToPayload = [x0c; x00; x00; x00; x00]
    /\ match next_write_outcome cn1 with
       | None =>
           ReadLoop_iter W handler false c w
           = (set_conn c1 (Some (after_write cn1 [x0c; x00; x00; x00; x00])),
              w, Continue)
       | Some e =>
           ReadLoop_iter W handler false c w
           = (set_conn c1 (Some (after_write cn1 [x0c; x00; x00; x00; x00])),
              w, Return (wrapError "failed to respond to keep-alive: %w" [] e))
       end
    /\ io_log (after_write cn1 [x0c; x00; x00; x00; x00])
       = io_log cn ++ [EvRead (Ok payload);
                       EvWrite [x0c; x00; x00; x00; x00]
                         (next_write_outcome cn1)].
Proof.
  intros Hc Hr Hid.
  pose proof (readPayload_conn c c1 _ Hr) as Hc1. rewrite Hc in Hc1.
  destruct Hc1 as (reader & ->).
  eexists. split; [reflexivity |].
  split; [reflexivity |]. split; [reflexivity |].
  split.
  - unfold ReadLoop_iter. rewrite Hr, Hid.
    change (Byte.eqb CommandKeepAlive CommandSendMessage) with false.
    change (Byte.eqb CommandKeepAlive CommandKeepAlive) with true.
    cbv iota.
    erewrite write_spec by reflexivity.
    rewrite KeepAlive_ToBytes. unfold keepalive_bytes.
    destruct (next_write_outcome _); reflexivity.
  - unfold after_write. cbn [io_log]. rewrite <- app_assoc. reflexivity.
Qed.

(** What one iteration adds to the log. *)
Lemma ReadLoop_iter_log done c w cn c' w' st :
  conn c = Some cn ->
  ReadLoop_iter W handler done c w = (c', w', st) ->
  exists cn' evs,
    conn c' = Some cn' /\ io_log cn' = io_log cn ++ evs
    /\ forall rest,
         keepalive_discipline (evs ++ rest) = keepalive_discipline rest.
Proof.
  intros Hc. unfold ReadLoop_iter.
  destruct done.
  { intros [= <- _ _]. exists cn, []. rewrite app_nil_r. auto. }
  destruct (readPayload c) as [c1 r] eqn:Hr.
  pose proof (readPayload_conn c c1 r Hr) as Hc1. rewrite Hc in Hc1.
  destruct Hc1 as (reader & ->).
  destruct r as [payload | e | m].
  2:{ intros [= <- _ _]. eexists. exists [EvRead (Err e)].
      cbn [conn set_conn io_log]. repeat split. }
  2:{ intros [= <- _ _]. eexists. exists [EvRead (Panic m)].
      cbn [conn set_conn io_log]. repeat split. }
  destruct (Byte.eqb (Payload_ID payload) CommandSendMessage) eqn:Esend.
  { assert (Hka : Byte.eqb (Payload_ID payload) CommandKeepAlive = false).
    { apply Byte.byte_dec_bl in Esend. rewrite Esend. reflexivity. }
    cbn [messageHandler set_conn].
    destruct (messageHandler c).
    - destruct (handler _ w) as [w1 [[] | e | m]]; intros [= <- _ _];
        eexists; exists [EvRead (Ok payload)]; cbn [conn set_conn io_log];
        (split; [reflexivity | split; [reflexivity |]]);
        intros rest; cbn [app keepalive_discipline]; rewrite Hka; reflexivity.
    - intros [= <- _ _].
      eexists; exists [EvRead (Ok payload)]; cbn [conn set_conn io_log];
        (split; [reflexivity | split; [reflexivity |]]);
        intros rest; cbn [app keepalive_discipline]; rewrite Hka; reflexivity. }
  destruct (Byte.eqb (Payload_ID payload) CommandKeepAlive) eqn:Eka.
  { erewrite write_spec by reflexivity.
    rewrite KeepAlive_ToBytes.
    set (cn1 := mkConn reader _ _).
    destruct (next_write_outcome cn1) eqn:Eo; intros [= <- _ _];
      eexists;
      exists [EvRead (Ok payload);
              EvWrite keepalive_bytes (next_write_outcome cn1)];
      cbn [conn set_conn io_log after_write cn1];
      (split; [reflexivity | split]).
    all: try (intros rest; cbn [app keepalive_discipline]; rewrite Eka;
              reflexivity).
    all: unfold after_write, cn1; cbn [io_log]; rewrite <- app_assoc;
      reflexivity. }
  destruct (is_ack (Payload_ID payload)); intros [= <- _ _];
    eexists; exists [EvRead (Ok payload)]; cbn [conn set_conn io_log];
    (split; [reflexivity | split; [reflexivity |]]);
    intros rest; cbn [app keepalive_discipline]; rewrite Eka; reflexivity.
Qed.

(** However long the loop runs, its log keeps the discipline. *)
Lemma ReadLoop_log fuel : forall ctx c w cn c' w' st,
  conn c = Some cn ->
  ReadLoop W handler fuel ctx c w = (c', w', st) ->
  exists cn' evs,
    conn c' = Some cn' /\ io_log cn' = io_log cn ++ evs
    /\ keepalive_discipline evs = true.
Proof.
  induction fuel as [| fuel IH]; intros ctx c w cn c' w' st Hc.
  - cbn [ReadLoop]. intros [= <- _ _]. exists cn, [].
    rewrite app_nil_r. auto.
  - cbn [ReadLoop].
    destruct (ReadLoop_iter W handler (ctx O) c w) as [[c1 w1] st1] eqn:Hit.
    destruct (ReadLoop_iter_log _ _ _ _ _ _ _ Hc Hit)
      as (cn1 & evs1 & Hc1 & Hl1 & Hd1).
    destruct st1.
    + intros Hrun.
      destruct (IH _ _ _ _ _ _ _ Hc1 Hrun) as (cn2 & evs2 & Hc2 & Hl2 & Hd2).
      exists cn2, (evs1 ++ evs2). split; [assumption |].
      split; [rewrite Hl2, Hl1, app_assoc; reflexivity |].
      rewrite Hd1. assumption.
    + intros [= <- _ _]. exists cn1, evs1. repeat split; try assumption.
      rewrite <- (app_nil_r evs1), Hd1. reflexivity.
    + intros [= <- _ _]. exists cn1, evs1. repeat split; try assumption.
      rewrite <- (app_nil_r evs1), Hd1. reflexivity.
Qed.

End Connection.

Lemma Connect_rejects_empty_token_witness :
  @Connect test_externals test_env test_connection
  = (test_connection, Err ErrNoToken).
Proof.
  apply (@Connect_rejects_empty_token test_externals test_env test_connection
           tt (mkCertificate [x30])); reflexivity.
Defined.

End connection_facts.

Module ids_facts.
Import ids Fixtures.

Section Register.
Context `{Externals}.

(** [Register], when the request goes out and a 200 response comes back
    whose body decodes. *)
Lemma Register_decoded t req pushKey body signature respBody registerResp :
  plist_Marshal t req = Ok body ->
  rsa_SignPKCS1v15 pushKey
    (sha1_Sum (createSigningPayload "POST" idsRegisterURL body))
  = Ok signature ->
  (forall r, client_Do t r = Ok (mkHTTPResponse 200 (Ok respBody))) ->
  plist_Unmarshal t respBody = Ok registerResp ->
  Register t req pushKey =
  if negb (Status registerResp =? 0) then
    Err (fmtError "registration failed with status %d: %s"
           [ArgInt (Status registerResp); ArgStr (Message registerResp)])
  else Ok registerResp.
Proof.
  intros Hm Hs Hdo Hu. unfold Register. rewrite Hm. cbn [wrap bind].
  unfold signRequest. cbn [Method URL set_header].
  rewrite Hs. cbn [wrap bind]. rewrite Hdo. cbn [wrap bind StatusCode Resp_Body].
  change (200 =? 200) with true. cbn [negb]. rewrite Hu. cbn [wrap bind].
  reflexivity.
Qed.



End Register.



End ids_facts.

Module session_facts.
Import config messaging Fixtures.

Section Session.
Context `{Externals} `{MessagePlist}.

(** No function of the package assigns [messageChan]. *)
Lemma Connect_messageChan now reg store s :
  Connect now reg store = Ok s ->
  messageChan s = None /\ state s = None /\ handshaker s = Some RealHandshaker.
Proof.
  unfold Connect. destruct reg as [r |]; [| discriminate].
  destruct (len (ValidationData r) =? 0); [discriminate |].
  destruct (IsExpired now (Some r)); [discriminate |].
  intros [= <-]. repeat split.
Qed.

Lemma ensureHandshake_messageChan env s :
  messageChan (fst (ensureHandshake env s)) = messageChan s.
Proof.
  unfold ensureHandshake.
  destruct (state s); [reflexivity |].
  destruct (handshaker s) as [h |]; [| reflexivity].
  destruct (Handshake h env (registration s)); reflexivity.
Qed.

Lemma enqueue_nil s msg on_sent :
  messageChan s = None ->
  enqueue s msg on_sent = (s, Err (fmtError "message channel full" [])).
Proof. unfold enqueue. intros ->. reflexivity. Qed.

Lemma handleAPNSMessage_nil_chan now_id now_ts payload s :
  messageChan s = None ->
  (forall key m, encryption_key s = Some key ->
                 DecryptMessage key (apns.Payload_bytes payload) <> Panic m) ->
  handleAPNSMessage now_id now_ts payload s
  = (s, Err (fmtError "message channel full" [])).
Proof.
  intros Hch Hnp. unfold handleAPNSMessage.
  destruct (encryption_key s) as [key |]; [| apply enqueue_nil; assumption].
  specialize (Hnp key).
  destruct (DecryptMessage key (apns.Payload_bytes payload)) as [imsg | e | m].
  - apply enqueue_nil; assumption.
  - apply enqueue_nil; assumption.
  - exfalso. apply (Hnp m); reflexivity.
Qed.

Lemma FetchMessages_nil_chan env s s' msgs :
  messageChan s = None ->
  FetchMessages env s = (s', Ok msgs) -> msgs = [] /\ messageChan s' = None.
Proof.
  intros Hch. unfold FetchMessages.
  pose proof (ensureHandshake_messageChan env s) as He.
  destruct (ensureHandshake env s) as [s1 [[] | e | m]]; cbn [fst] in He;
    try discriminate.
  rewrite He, Hch. cbn. intros [= <- <-]. split; reflexivity.
Qed.

(** C1: a session keeps the channel [Connect] gave it, and that channel is
    nil.  So when decryption of an inbound payload fails, the send of the
    placeholder is never ready: the handler takes the [default] case,
    reports a full channel and queues nothing, and a later [FetchMessages]
    or [FetchUnread] reports no message. *)
Theorem decrypt_failure_placeholder_lost
    now reg store s0 s key e now_id now_ts payload :
  Connect now reg store = Ok s0 ->
  messageChan s = messageChan s0 ->
  encryption_key s = Some key ->
  DecryptMessage key (apns.Payload_bytes payload) = Err e ->
  handleAPNSMessage now_id now_ts payload s
    = (s, Err (fmtError "message channel full" []))
  /\ (forall env s' msgs,
        FetchMessages env s = (s', Ok msgs) -> msgs = [])
  /\ (forall env s' summaries,
        FetchUnread env s = (s', Ok summaries) -> summaries = []).
Proof.
  intros Hc Hs Hk Hd.
  apply Connect_messageChan in Hc. destruct Hc as (Hnil & _).
  rewrite Hnil in Hs.
  split; [| split].
  - unfold handleAPNSMessage. rewrite Hk, Hd. apply enqueue_nil; assumption.
  - intros env s' msgs Hf.
    apply (FetchMessages_nil_chan env s s' msgs Hs Hf).
  - intros env s' summaries. unfold FetchUnread.
    pose proof (ensureHandshake_messageChan env s) as He.
    destruct (ensureHandshake env s) as [s1 [[] | e1 | m1]]; cbn [fst] in He;
      try discriminate.
    rewrite Hs in He.
    destruct (FetchMessages env s1) as [s2 [msgs | e2 | m2]] eqn:Hf;
      try discriminate.
    destruct (FetchMessages_nil_chan env s1 s2 msgs He Hf) as (-> & _).
    cbn [filterUnread filter map].
    destruct (updateStore s2 []) as [s3 [[] | e3 | m3]]; try discriminate.
    intros [= _ <-]. reflexivity.
Qed.

(** The fuel [FetchMessages] gives its loop is enough to empty the channel:
    the non-nil elements come out in order. *)
Lemma drain_all fuel : forall st msgs,
  (List.length (chan_buf st) < fuel)%nat ->
  drain fuel (Some st) msgs
  = (Some (mkChan (chan_cap st) []),
     msgs ++ flat_map (fun m => match m with
                                | Some x => [x]
                                | None => []
                                end) (chan_buf st)).
Proof.
  induction fuel as [| fuel IH]; intros [cap buf] msgs Hlen; [cbn in Hlen; lia |].
  cbn [chan_buf chan_cap] in *. cbn [drain try_recv chan_buf chan_cap].
  destruct buf as [| m rest].
  - cbn [flat_map]. rewrite app_nil_r. reflexivity.
  - cbn [List.length] in Hlen.
    rewrite IH by (cbn [chan_buf]; lia).
    cbn [chan_cap chan_buf flat_map]. f_equal.
    destruct m; [rewrite <- app_assoc |]; reflexivity.
Qed.

(** What the handler does once a channel with room exists. *)
Lemma placeholder_queued_with_channel s st key e now_id now_ts payload :
  messageChan s = Some st ->
  (List.length (chan_buf st) < chan_cap st)%nat ->
  encryption_key s = Some key ->
  DecryptMessage key (apns.Payload_bytes payload) = Err e ->
  let msg := mkMessage (msg_id now_id) "unknown-chat" "unknown-sender"
               (Sprintf "[Decrypt failed: %s] %d bytes"
                  [TErr e; TInt (len (apns.Payload_bytes payload))])
               now_ts "" in
  handleAPNSMessage now_id now_ts payload s
  = (set_messageChan s
       (Some (mkChan (chan_cap st) (chan_buf st ++ [Some msg]))),
     Err (wrapError "decryption failed: %w" [] e)).
Proof.
  intros Hch Hroom Hk Hd msg.
  unfold handleAPNSMessage. rewrite Hk, Hd. unfold enqueue, try_send.
  rewrite Hch.
  destruct (Nat.ltb_spec (List.length (chan_buf st)) (chan_cap st)); [| lia].
  reflexivity.
Qed.

(** C9: [Connect] checks its registration argument before it builds a
    session, in this order: a nil registration, empty validation data, and a
    valid-until time earlier than now are refused with three different
    errors; an expired registration never yields a session; and a session
    that is returned has not gone through any handshake. *)
Theorem Connect_validates_registration now reg store :
  (reg = None -> Connect now reg store = Err errRegistrationNil)
  /\ (forall r, reg = Some r -> ValidationData r = [] ->
        Connect now reg store = Err ErrInvalidRegistrationData)
  /\ (forall r, reg = Some r -> ValidationData r <> [] -> ValidUntil r < now ->
        Connect now reg store = Err ErrRegistrationExpired)
  /\ (forall r, reg = Some r -> ValidUntil r < now ->
        forall s, Connect now reg store <> Ok s)
  /\ (forall s, Connect now reg store = Ok s -> state s = None)
  /\ errRegistrationNil <> ErrInvalidRegistrationData
  /\ errRegistrationNil <> ErrRegistrationExpired
  /\ ErrInvalidRegistrationData <> ErrRegistrationExpired.
Proof.
  repeat split.
  - intros ->. reflexivity.
  - intros r -> Hv. unfold Connect. rewrite Hv. reflexivity.
  - intros r -> Hv Hexp. unfold Connect.
    destruct (Z.eqb_spec (len (ValidationData r)) 0) as [Hz |].
    + destruct (ValidationData r); [contradiction | discriminate].
    + unfold IsExpired, Time_After.
      destruct (Z.ltb_spec (ValidUntil r) now); [reflexivity | lia].
  - intros r -> Hexp s. unfold Connect.
    destruct (len (ValidationData r) =? 0); [discriminate |].
    unfold IsExpired, Time_After.
    destruct (Z.ltb_spec (ValidUntil r) now); [discriminate | lia].
  - intros s Hc. apply Connect_messageChan in Hc. tauto.
  - discriminate.
  - discriminate.
  - discriminate.
Qed.

End Session.

Lemma decrypt_failure_placeholder_lost_witness :
  @handleAPNSMessage test_externals test_plist 7 8
     (apns.mkSendMessagePayload [x63] []) test_session
  = (test_session, Err (fmtError "message channel full" [])).
Proof.
  apply (proj1 (@decrypt_failure_placeholder_lost test_externals test_plist
                  500 (Some test_registration) None
                  (@mkSession test_externals (Some test_registration) []
                     None (Some RealHandshaker) None)
                  test_session tt
                  (wrapError "failed to parse body: %w" []
                     (fmtError
                        "too short payload (missing header, expected >4, got %d)"
                        [ArgInt 0]))
                  7 8 (apns.mkSendMessagePayload [x63] [])
                  eq_refl eq_refl eq_refl eq_refl)).
Defined.

Lemma Connect_validates_registration_witness :
  @Connect test_externals 2000 (Some test_registration) None
  = Err ErrRegistrationExpired.
Proof.
  apply (proj1 (proj2 (proj2 (@Connect_validates_registration test_externals
                                2000 (Some test_registration) None)))
           test_registration).
  - reflexivity.
  - discriminate.
  - reflexivity.
Defined.

End session_facts.

(* ================================================================== *)
(** ** Frames on a stream *)
(* ================================================================== *)

Module stream_facts.
Import apns Props Terms go_facts codec_facts.

(** [io.ReadFull] hands out exactly the bytes asked for when they are
    there. *)
Lemma io_ReadFull_app a b e n :
  n = len a ->
  io_ReadFull (mkReader (a ++ b) e) n = (mkReader b e, Ok a).
Proof.
  intros ->. unfold io_ReadFull. cbn [pending at_end].
  destruct (Z.leb_spec (len a) 0) as [Hz | Hpos].
  - assert (a = []) as ->
        by (destruct a; [reflexivity | rewrite len_cons in Hz;
                                       pose proof (len_nonneg a); lia]).
    reflexivity.
  - destruct (Z.leb_spec (len a) (len (a ++ b)));
      [| rewrite len_app in *; pose proof (len_nonneg b); lia].
    unfold len. rewrite Nat2Z.id, skipn_app, skipn_all, Nat.sub_diag,
      firstn_app, firstn_all, Nat.sub_diag.
    cbn [skipn firstn app]. rewrite app_nil_r. reflexivity.
Qed.

Lemma io_ReadFull_1 x l e :
  io_ReadFull (mkReader (x :: l) e) 1 = (mkReader l e, Ok [x]).
Proof. apply (io_ReadFull_app [x] l e 1). reflexivity. Qed.

Lemma io_ReadFull_4 a b c d l e :
  io_ReadFull (mkReader (a :: b :: c :: d :: l) e) 4
  = (mkReader l e, Ok [a; b; c; d]).
Proof. apply (io_ReadFull_app [a; b; c; d] l e 4). reflexivity. Qed.

Lemma io_ReadFull_short pending e n :
  len pending < n ->
  exists err,
    io_ReadFull (mkReader pending e) n = (mkReader [] e, Err err)
    /\ (err = e \/ err = io_ErrUnexpectedEOF).
Proof.
  intros Hn. pose proof (len_nonneg pending). unfold io_ReadFull.
  cbn [Go.pending at_end].
  destruct (Z.leb_spec n 0); [lia |].
  destruct (Z.leb_spec n (len pending)); [lia |].
  eexists. split; [reflexivity |].
  destruct pending; [left; reflexivity |].
  destruct (error_eqb_string e "EOF"); [right | left]; reflexivity.
Qed.

(** What [io.ReadFull] returns has the length asked for. *)
Lemma io_ReadFull_ok r n r' b :
  io_ReadFull r n = (r', Ok b) -> 0 <= n -> len b = n.
Proof.
  unfold io_ReadFull. intros Hr Hn.
  destruct (Z.leb_spec n 0).
  - injection Hr as _ <-. change (len []) with 0. lia.
  - destruct (Z.leb_spec n (len (pending r))); [| discriminate].
    injection Hr as _ <-. apply len_firstn. lia.
Qed.

Lemma io_ReadFull_no_panic r n r' m : io_ReadFull r n <> (r', Panic m).
Proof.
  unfold io_ReadFull.
  destruct (n <=? 0); [discriminate |].
  destruct (n <=? len (pending r)); discriminate.
Qed.

Lemma unmarshalFields_no_panic p data m :
  snd (unmarshalFieldsFromBytes p data) <> Panic m.
Proof.
  pose proof (loop_sound (List.length data) data 0 p) as Hs.
  cbn [Z.to_nat skipn] in Hs.
  specialize (Hs ltac:(pose proof (len_nonneg data); lia)
                 ltac:(unfold len; lia)).
  unfold parse_outcome, unmarshalFieldsFromBytes in *.
  intros Hp. rewrite Hp in Hs. exact Hs.
Qed.

(** Reading the encoding of a frame from a stream. *)
Lemma UnmarshalBinaryStream_encoded F rest e :
  Payload_ID F <> x00 -> fields_fit (Payload_Fields F) ->
  fields_length (Payload_Fields F) < 2 ^ 32 ->
  UnmarshalBinaryStream Payload_zero (mkReader (ToBytes F ++ rest) e)
  = (mkReader rest e, F, Ok tt).
Proof.
  intros Hid Hfit Hmax. destruct F as [id fs].
  cbn [Payload_ID Payload_Fields] in *.
  unfold ToBytes. cbn [Payload_ID Payload_Fields].
  rewrite fields_length_bytes in *.
  pose proof (len_nonneg (fields_bytes fs)).
  destruct (PutUint32_split (len (fields_bytes fs)))
    as (b0 & b1 & b2 & b3 & Hput & Hval); [lia |].
  rewrite Hput. cbn [app].
  unfold UnmarshalBinaryStream.
  rewrite io_ReadFull_1.
  rewrite index_cons_0. cbn [set_ID Payload_ID Payload_zero Payload_Fields].
  destruct (Byte.eqb id x00) eqn:E;
    [apply Byte.byte_dec_bl in E; contradiction |].
  rewrite io_ReadFull_4.
  rewrite Uint32_bytes, Hval.
  rewrite (io_ReadFull_app (fields_bytes fs) rest e) by reflexivity.
  rewrite unmarshalFields_encoded by assumption.
  reflexivity.
Qed.

Lemma UnmarshalBinaryStream_no_panic p reader m :
  snd (UnmarshalBinaryStream p reader) <> Panic m.
Proof.
  unfold UnmarshalBinaryStream.
  destruct (io_ReadFull reader 1) as [r1 [b | e1 | m1]] eqn:H1;
    [| cbn; discriminate | exfalso; exact (io_ReadFull_no_panic _ _ _ _ H1)].
  pose proof (io_ReadFull_ok _ _ _ _ H1 ltac:(lia)) as Hb.
  destruct b as [| id [| ? ?]];
    try (cbn in Hb; unfold len in Hb; cbn in Hb; lia).
  rewrite index_cons_0.
  destruct (Byte.eqb (Payload_ID (set_ID p id)) x00); [cbn; discriminate |].
  destruct (io_ReadFull r1 4) as [r2 [hb | e2 | m2]] eqn:H2;
    [| cbn; discriminate | exfalso; exact (io_ReadFull_no_panic _ _ _ _ H2)].
  pose proof (io_ReadFull_ok _ _ _ _ H2 ltac:(lia)) as Hh.
  destruct hb as [| b0 [| b1 [| b2 [| b3 [| ? ?]]]]];
    try (unfold len in Hh; cbn in Hh; lia).
  rewrite Uint32_bytes.
  destruct (io_ReadFull r2 (be32 b0 b1 b2 b3)) as [r3 [data | e3 | m3]] eqn:H3;
    [| cbn; discriminate | exfalso; exact (io_ReadFull_no_panic _ _ _ _ H3)].
  pose proof (unmarshalFields_no_panic (set_ID p id) data m) as Hnp.
  destruct (unmarshalFieldsFromBytes (set_ID p id) data) as [p' r'].
  exact Hnp.
Qed.

Lemma UnmarshalBinaryStream_truncated F k e :
  Payload_ID F <> x00 -> fields_fit (Payload_Fields F) ->
  fields_length (Payload_Fields F) < 2 ^ 32 ->
  (k < List.length (ToBytes F))%nat ->
  exists p' err,
    UnmarshalBinaryStream Payload_zero (mkReader (firstn k (ToBytes F)) e)
    = (mkReader [] e, p', Err err)
    /\ (err = e \/ err = io_ErrUnexpectedEOF).
Proof.
  intros Hid Hfit Hmax Hk. destruct F as [id fs].
  cbn [Payload_ID Payload_Fields] in *.
  unfold ToBytes in *. cbn [Payload_ID Payload_Fields] in *.
  rewrite fields_length_bytes in *.
  pose proof (len_nonneg (fields_bytes fs)).
  destruct (PutUint32_split (len (fields_bytes fs)))
    as (b0 & b1 & b2 & b3 & Hput & Hval); [lia |].
  rewrite Hput in *. cbn [app] in *.
  unfold UnmarshalBinaryStream.
  destruct k as [| k].
  { cbn [firstn].
    destruct (io_ReadFull_short [] e 1 ltac:(cbn; lia)) as (err & -> & Herr).
    eauto. }
  cbn [firstn].
  rewrite io_ReadFull_1.
  rewrite index_cons_0. cbn [set_ID Payload_ID Payload_zero Payload_Fields].
  destruct (Byte.eqb id x00) eqn:E;
    [apply Byte.byte_dec_bl in E; contradiction |].
  destruct k as [| [| [| [| k]]]]; cbn [firstn].
  1-4: match goal with
       | |- context [io_ReadFull (mkReader ?l ?e') 4] =>
           destruct (io_ReadFull_short l e' 4 ltac:(cbn; lia))
             as (err & -> & Herr); eauto
       end.
  rewrite io_ReadFull_4.
  rewrite Uint32_bytes, Hval.
  cbn [List.length] in Hk.
  destruct (io_ReadFull_short (firstn k (fields_bytes fs)) e
              (len (fields_bytes fs))) as (err & -> & Herr).
  { unfold len. rewrite length_firstn. lia. }
  eauto.
Qed.

(** X1: Frames on a stream: the encoding of a frame is consumed whole, decodes
    to the frame, and what follows stays in the stream; a stream that ends
    anywhere inside the encoding gives a read error, never a frame. *)
Theorem stream_roundtrip F rest e :
  well_formed F ->
  UnmarshalBinaryStream Payload_zero (mkReader (ToBytes F ++ rest) e)
  = (mkReader rest e, F, Ok tt)
  /\ forall k,
       (k < List.length (ToBytes F))%nat ->
       exists p' err,
         UnmarshalBinaryStream Payload_zero (mkReader (firstn k (ToBytes F)) e)
         = (mkReader [] e, p', Err err)
         /\ (err = e \/ err = io_ErrUnexpectedEOF).
Proof.
  intros (Hid & Hfit & Hmax). split.
  - apply UnmarshalBinaryStream_encoded; assumption.
  - intros k Hk. apply UnmarshalBinaryStream_truncated; assumption.
Qed.

Lemma unmarshalFields_outcome p data :
  parse_outcome data p (unmarshalFieldsFromBytes p data).
Proof.
  pose proof (loop_sound (List.length data) data 0 p) as Hs.
  cbn [Z.to_nat skipn] in Hs.
  apply Hs; [pose proof (len_nonneg data); lia | unfold len; lia].
Qed.

(** X2: When the stream holds a whole frame, that is a non-zero command
    byte, four length bytes and at least as many bytes as they announce,
    [UnmarshalBinaryStream] consumes exactly the frame, whatever its bytes
    are, and returns what the field parser returns on them: success or the
    invalid-field-length error, never a panic; the buffer it asks for is
    of the size of bytes that are there.  A zero first byte ends the read at
    once, and a stream that ends before the length bytes are complete gives
    a read error. *)
Theorem stream_whole_frame p id b0 b1 b2 b3 data rest e :
  id <> x00 -> len data = be32 b0 b1 b2 b3 ->
  UnmarshalBinaryStream p
    (mkReader (id :: b0 :: b1 :: b2 :: b3 :: data ++ rest) e)
  = (mkReader rest e,
     fst (unmarshalFieldsFromBytes (set_ID p id) data),
     snd (unmarshalFieldsFromBytes (set_ID p id) data))
  /\ parse_outcome data (set_ID p id)
       (unmarshalFieldsFromBytes (set_ID p id) data)
  /\ UnmarshalBinaryStream p (mkReader (x00 :: rest) e)
     = (mkReader rest e, set_ID p x00, Ok tt)
  /\ UnmarshalBinaryStream p (mkReader [] e) = (mkReader [] e, p, Err e)
  /\ forall hdr,
       (List.length hdr < 4)%nat ->
       exists err,
         UnmarshalBinaryStream p (mkReader (id :: hdr) e)
         = (mkReader [] e, set_ID p id, Err err)
         /\ (err = e \/ err = io_ErrUnexpectedEOF).
Proof.
  intros Hid Hlen.
  assert (Hz : Byte.eqb (Payload_ID (set_ID p id)) x00 = false).
  { cbn [set_ID Payload_ID].
    destruct (Byte.eqb id x00) eqn:E; [| reflexivity].
    apply Byte.byte_dec_bl in E. contradiction. }
  split; [| split; [| split; [| split]]].
  - unfold UnmarshalBinaryStream.
    rewrite io_ReadFull_1, index_cons_0, Hz, io_ReadFull_4, Uint32_bytes.
    rewrite (io_ReadFull_app data rest e) by (symmetry; assumption).
    destruct (unmarshalFieldsFromBytes (set_ID p id) data). reflexivity.
  - apply unmarshalFields_outcome.
  - unfold UnmarshalBinaryStream.
    rewrite io_ReadFull_1, index_cons_0. reflexivity.
  - reflexivity.
  - intros hdr Hh. unfold UnmarshalBinaryStream.
    rewrite io_ReadFull_1, index_cons_0, Hz.
    destruct (io_ReadFull_short hdr e 4 ltac:(unfold len; lia))
      as (err & -> & Herr).
    exists err. split; [reflexivity | assumption].
Qed.

Lemma stream_roundtrip_witness :
  UnmarshalBinaryStream Payload_zero
    (mkReader (ToBytes Samples.sample_ack ++ [x0c]) io_EOF)
  = (mkReader [x0c] io_EOF, Samples.sample_ack, Ok tt).
Proof.
  apply (proj1 (stream_roundtrip Samples.sample_ack [x0c] io_EOF
                  ltac:(split; [discriminate |];
                        split; [repeat constructor | reflexivity]))).
Defined.

Lemma stream_whole_frame_witness :
  UnmarshalBinaryStream Payload_zero
    (mkReader [x0a; x00; x00; x00; x04; x01; x00; x01; xaa; x0c] io_EOF)
  = (mkReader [x0c] io_EOF, mkPayload x0a [mkField x01 [xaa]], Ok tt).
Proof.
  exact (proj1 (stream_whole_frame Payload_zero x0a x00 x00 x00 x04
                  [x01; x00; x01; xaa] [x0c] io_EOF
                  ltac:(discriminate) ltac:(reflexivity))).
Defined.

End stream_facts.

(* ================================================================== *)
(** ** Commands and the dispatch loop *)
(* ================================================================== *)

Module command_facts.
Import apns Props Terms go_facts codec_facts stream_facts connection_facts.

(** X3: [FindField] returns the value of the first field that carries the id,
    whatever follows it, and nil when no field carries it. *)
Theorem FindField_first_match p id :
  (forall pre f post,
     Payload_Fields p = pre ++ f :: post -> Field_ID f = id ->
     (forall g, In g pre -> Field_ID g <> id) ->
     FindField p id = Field_Value f)
  /\ ((forall g, In g (Payload_Fields p) -> Field_ID g <> id) ->
      FindField p id = []).
Proof.
  unfold FindField. split.
  - intros pre f post -> Hf Hpre.
    induction pre as [| g pre IH]; cbn [app FindField_fields].
    + rewrite Hf.
      destruct (Byte.eqb id id) eqn:E; [reflexivity |].
      apply Byte.eqb_false in E. contradiction.
    + destruct (Byte.eqb (Field_ID g) id) eqn:E.
      * apply Byte.byte_dec_bl in E. exfalso.
        apply (Hpre g); [left; reflexivity | assumption].
      * apply IH. intros g' Hg'. apply Hpre. right. assumption.
  - induction (Payload_Fields p) as [| g fs IH]; intros Hnone;
      cbn [FindField_fields]; [reflexivity |].
    destruct (Byte.eqb (Field_ID g) id) eqn:E.
    + apply Byte.byte_dec_bl in E. exfalso.
      apply (Hnone g); [left; reflexivity | assumption].
    + apply IH. intros g' Hg'. apply Hnone. right. assumption.
Qed.

Lemma filter_fields_acc topics : forall acc,
  fold_left (fun fields topic => fields ++ [mkField x02 topic]) topics acc
  = acc ++ map (mkField x02) topics.
Proof.
  induction topics as [| t topics IH]; intros acc; cbn [fold_left map].
  - rewrite app_nil_r. reflexivity.
  - rewrite IH, <- app_assoc. reflexivity.
Qed.

Section Connection.
Context `{Externals}.
Variable W : Type.
Variable handler : MessageHandler W.

(** X4: Nothing is sent or read on a connection that was never opened. *)
Theorem not_connected_refused c :
  conn c = None ->
  (forall data, write c data = (c, Err ErrNotConnected))
  /\ readPayload c = (c, Err ErrNotConnected)
  /\ (forall topics, Filter c topics = (c, Err ErrNotConnected))
  /\ (forall state, SetState c state = (c, Err ErrNotConnected))
  /\ (forall w fuel ctx,
        ctx O = false ->
        ReadLoop W handler (S fuel) ctx c w
        = (c, w, Some (Return (wrapError "failed to read payload: %w" []
                                 ErrNotConnected)))).
Proof.
  intros Hc. repeat split.
  - intros data. unfold write. rewrite Hc. reflexivity.
  - unfold readPayload. rewrite Hc. reflexivity.
  - intros topics. unfold Filter. rewrite Hc. reflexivity.
  - intros state. unfold SetState. rewrite Hc. reflexivity.
  - intros w fuel ctx Hctx. cbn [ReadLoop]. unfold ReadLoop_iter.
    rewrite Hctx. unfold readPayload. rewrite Hc. reflexivity.
Qed.

(** X5: [Filter] writes one frame: the token first, then one field of id 2 per
    topic, in the order given, each holding the hash of the topic. *)
Theorem Filter_sends_topics c cn topics :
  conn c = Some cn ->
  Filter c topics
  = (set_conn c
       (Some (after_write cn
                (ToBytes (filter_frame sha1_Sum (token c) topics)))),
     match next_write_outcome cn with
     | None => Ok tt
     | Some e => Err e
     end).
Proof.
  intros Hc. unfold Filter. rewrite Hc.
  rewrite (write_spec c cn _ Hc). unfold FilterTopicsCommand_ToPayload.
  cbn [Topics FilterTopics_Token].
  rewrite filter_fields_acc, map_map. reflexivity.
Qed.

(** X6: [SetState] writes one frame of sixteen bytes: the state in field 1 and
    the constant 7F FF FF FF in field 2. *)
Theorem SetState_sends_state c cn state :
  conn c = Some cn ->
  SetState c state
  = (set_conn c
       (Some (after_write cn
                [x14; x00; x00; x00; x0b; x01; x00; x01; state;
                 x02; x00; x04; x7f; xff; xff; xff])),
     match next_write_outcome cn with
     | None => Ok tt
     | Some e => Err e
     end).
Proof.
  intros Hc. unfold SetState. rewrite Hc.
  rewrite (write_spec c cn _ Hc). reflexivity.
Qed.

(** [readPayload] takes one whole frame off the socket. *)
Lemma readPayload_frame c cn F rest e :
  conn c = Some cn -> inbound cn = mkReader (ToBytes F ++ rest) e ->
  well_formed F ->
  readPayload c
  = (set_conn c (Some (mkConn (mkReader rest e) (write_outcomes cn)
                         (io_log cn ++ [EvRead (Ok F)]))),
     Ok F).
Proof.
  intros Hc Hin (Hid & Hfit & Hmax). unfold readPayload.
  rewrite Hc, Hin, UnmarshalBinaryStream_encoded by assumption. reflexivity.
Qed.

Lemma readPayload_no_panic c m : snd (readPayload c) <> Panic m.
Proof.
  unfold readPayload. destruct (conn c) as [cn |]; [| cbn; discriminate].
  pose proof (UnmarshalBinaryStream_no_panic Payload_zero (inbound cn)) as Hs.
  destruct (UnmarshalBinaryStream Payload_zero (inbound cn)) as [[r p] o].
  cbn [snd] in *. destruct o; cbn [bind]; try discriminate.
  intros Hp. apply (Hs m). congruence.
Qed.

Lemma write_no_panic c data m : snd (write c data) <> Panic m.
Proof.
  unfold write. destruct (conn c) as [cn |]; [| cbn; discriminate].
  destruct (write_outcomes cn) as [| [e |] rest]; cbn; discriminate.
Qed.

(** X7: The loop ends only when the context is done, a read fails or the reply
    to a keep-alive cannot be written; an error of the handler never ends
    it. *)
Theorem ReadLoop_exit_reasons fuel : forall ctx c w c' w' st,
  (forall msg w0 m, snd (handler msg w0) <> Panic m) ->
  ReadLoop W handler fuel ctx c w = (c', w', Some st) ->
  st = Return context_Canceled
  \/ (exists e, st = Return (wrapError "failed to read payload: %w" [] e))
  \/ (exists e,
        st = Return (wrapError "failed to respond to keep-alive: %w" [] e)).
Proof.
  induction fuel as [| fuel IH]; intros ctx c w c' w' st Hh;
    cbn [ReadLoop]; [discriminate |].
  destruct (ReadLoop_iter W handler (ctx O) c w) as [[c1 w1] st1] eqn:Hit.
  assert (Hst1 : st1 = Continue
                 \/ st1 = Return context_Canceled
                 \/ (exists e, st1 = Return
                       (wrapError "failed to read payload: %w" [] e))
                 \/ (exists e, st1 = Return
                       (wrapError "failed to respond to keep-alive: %w" [] e))).
  { revert Hit. unfold ReadLoop_iter.
    destruct (ctx O); [intros [= _ _ <-]; auto |].
    pose proof (readPayload_no_panic c) as Hrp.
    destruct (readPayload c) as [c2 [payload | e | m]]; cbn [snd] in Hrp.
    2:{ intros [= _ _ <-]. right. right. left. eauto. }
    2:{ exfalso. apply (Hrp m). reflexivity. }
    destruct (Byte.eqb (Payload_ID payload) CommandSendMessage).
    { destruct (messageHandler c2); [| intros [= _ _ <-]; auto].
      pose proof (Hh (mkSendMessagePayload
                        (Incoming_Topic (IncomingSendMessageCommand_FromPayload payload))
                        (Incoming_Payload (IncomingSendMessageCommand_FromPayload payload)))
                    w) as Hhp.
      destruct (handler _ w) as [w2 [[] | e | m]]; cbn [snd] in Hhp.
      - intros [= _ _ <-]; auto.
      - intros [= _ _ <-]; auto.
      - exfalso. apply (Hhp m). reflexivity. }
    destruct (Byte.eqb (Payload_ID payload) CommandKeepAlive).
    { pose proof (write_no_panic c2 (ToBytes KeepAliveCommand_ToPayload)) as Hw.
      destruct (write c2 _) as [c3 [[] | e | m]]; cbn [snd] in Hw.
      - intros [= _ _ <-]; auto.
      - intros [= _ _ <-]. right. right. right. eauto.
      - exfalso. apply (Hw m). reflexivity. }
    destruct (is_ack (Payload_ID payload)); intros [= _ _ <-]; auto. }
  destruct Hst1 as [-> | Hst1].
  - intros Hrun. apply (IH _ _ _ _ _ _ Hh Hrun).
  - destruct st1; [| intros [= _ _ <-]; exact Hst1 |].
    + destruct Hst1 as [Hx | [[e Hx] | [e Hx]]]; discriminate.
    + destruct Hst1 as [Hx | [[e Hx] | [e Hx]]]; discriminate.
Qed.

(** X8: Send-message frames reach the handler one by one in the order they
    arrive, whether or not the handler reports errors; when the stream is
    used up the loop ends with the read error. *)
Theorem ReadLoop_delivers_in_order frames : forall ctx c cn w e,
  conn c = Some cn -> messageHandler c = true ->
  inbound cn = mkReader (flat_map ToBytes frames) e ->
  (forall F, In F frames ->
             Payload_ID F = CommandSendMessage /\ well_formed F) ->
  (forall msg w0 m, snd (handler msg w0) <> Panic m) ->
  (forall k, ctx k = false) ->
  exists c',
    ReadLoop W handler (S (List.length frames)) ctx c w
    = (c', deliver handler frames w,
       Some (Return (wrapError "failed to read payload: %w" [] e)))
    /\ exists cn', conn c' = Some cn'
         /\ io_log cn' = io_log cn ++ map (fun F => EvRead (Ok F)) frames
                           ++ [EvRead (Err e)].
Proof.
  induction frames as [| F frames IH];
    intros ctx c cn w e Hc Hh Hin Hall Hnp Hctx.
  - cbn [flat_map] in Hin. cbn [List.length ReadLoop]. unfold ReadLoop_iter.
    rewrite Hctx. unfold readPayload. rewrite Hc, Hin.
    unfold UnmarshalBinaryStream.
    destruct (io_ReadFull_short [] e 1 ltac:(cbn; lia)) as (err & Hrd & Herr).
    assert (err = e) as ->.
    { unfold io_ReadFull in Hrd. cbn in Hrd. congruence. }
    rewrite Hrd. cbn [bind]. eexists. split; [reflexivity |].
    eexists. split; [reflexivity |]. reflexivity.
  - cbn [flat_map] in Hin.
    destruct (Hall F (or_introl eq_refl)) as (HidF & HwfF).
    cbn [List.length]. cbn [ReadLoop]. unfold ReadLoop_iter at 1.
    rewrite Hctx.
    rewrite (readPayload_frame c cn F _ e Hc Hin HwfF).
    set (c1 := set_conn c _).
    assert (Hh1 : messageHandler c1 = true) by exact Hh.
    rewrite HidF.
    change (Byte.eqb CommandSendMessage CommandSendMessage) with true.
    cbv iota. rewrite Hh1.
    pose proof (Hnp (mkSendMessagePayload
                       (Incoming_Topic (IncomingSendMessageCommand_FromPayload F))
                       (Incoming_Payload (IncomingSendMessageCommand_FromPayload F)))
                  w) as Hhp.
    change (mkSendMessagePayload
              (Incoming_Topic (IncomingSendMessageCommand_FromPayload F))
              (Incoming_Payload (IncomingSendMessageCommand_FromPayload F)))
      with (as_message F) in *.
    assert (Hstep : exists c2,
              ReadLoop W handler (S (List.length frames))
                (fun k => ctx (S k)) c1 (fst (handler (as_message F) w))
              = (c2, deliver handler frames (fst (handler (as_message F) w)),
                 Some (Return (wrapError "failed to read payload: %w" [] e)))
              /\ exists cn', conn c2 = Some cn'
                   /\ io_log cn' = (io_log cn ++ [EvRead (Ok F)])
                                   ++ map (fun F => EvRead (Ok F)) frames
                                   ++ [EvRead (Err e)]).
    { apply (IH (fun k => ctx (S k)) c1
               (mkConn (mkReader (flat_map ToBytes frames) e)
                  (write_outcomes cn) (io_log cn ++ [EvRead (Ok F)]))
               (fst (handler (as_message F) w)) e);
        try reflexivity; try assumption.
      - intros F' HF'. apply Hall. right. assumption.
      - intros k. apply Hctx. }
    destruct Hstep as (c2 & Hrun & cn' & Hc2 & Hlog).
    exists c2. split.
    + change (deliver handler (F :: frames) w)
        with (deliver handler frames (fst (handler (as_message F) w))).
      destruct (handler (as_message F) w) as [w1 [[] | e1 | m1]];
        cbn [fst snd] in *; try exact Hrun.
      exfalso. apply (Hhp m1). reflexivity.
    + exists cn'. split; [assumption |].
      rewrite Hlog, <- app_assoc. reflexivity.
Qed.

(** C8: in the dispatch loop [ReadLoop], a frame with the keep-alive command
    id is answered with the keep-alive reply, whose encoding is the bytes
    0C 00 00 00 00.  When the loop, its context not done, reads such a frame,
    it writes the reply once, right after the read and before anything else;
    if the write succeeds the loop goes on, running from the connection
    whose log ends with that write, and if the write fails the loop returns
    the write error, wrapped.  So it is when the bytes 0C 00 00 00 00 are
    next on the socket: they are read as one frame, answered, and the loop
    goes on with the bytes after them.  And however long the loop runs and
    whatever it reads, in what it adds to the log every read of a keep-alive
    frame is followed at once by exactly one write, of the reply, before the
    next read, and nothing else is written. *)
Theorem ReadLoop_keepalive_reply :
  ToBytes KeepAliveCommand_ToPayload = [x0c; x00; x00; x00; x00]
  /\ (forall fuel ctx c w cn c1 payload,
        conn c = Some cn -> ctx O = false ->
        readPayload c = (c1, Ok payload) ->
        Payload_ID payload = CommandKeepAlive ->
        exists cn1,
          conn c1 = Some cn1
          /\ io_log cn1 = io_log cn ++ [EvRead (Ok payload)]
          /\ io_log (after_write cn1 [x0c; x00; x00; x00; x00])
             = io_log cn ++ [EvRead (Ok payload);
                             EvWrite [x0c; x00; x00; x00; x00]
                               (next_write_outcome cn1)]
          /\ ReadLoop W handler (S fuel) ctx c w
             = match next_write_outcome cn1 with
               | None =>
                   ReadLoop W handler fuel (fun k => ctx (S k))
                     (set_conn c1
                        (Some (after_write cn1 [x0c; x00; x00; x00; x00])))
                     w
               | Some e =>
                   (set_conn c1
                      (Some (after_write cn1 [x0c; x00; x00; x00; x00])),
                    w,
                    Some (Return
                            (wrapError "failed to respond to keep-alive: %w"
                               [] e)))
               end)
  /\ (forall fuel ctx c w cn rest e,
        conn c = Some cn -> ctx O = false ->
        inbound cn = mkReader ([x0c; x00; x00; x00; x00] ++ rest) e ->
        let cn2 :=
          mkConn (mkReader rest e) (tl (write_outcomes cn))
            (io_log cn ++ [EvRead (Ok (mkPayload CommandKeepAlive []));
                           EvWrite [x0c; x00; x00; x00; x00]
                             (next_write_outcome cn)]) in
        ReadLoop W handler (S fuel) ctx c w
        = match next_write_outcome cn with
          | None =>
              ReadLoop W handler fuel (fun k => ctx (S k))
                (set_conn c (Some cn2)) w
          | Some err =>
              (set_conn c (Some cn2), w,
               Some (Return
                       (wrapError "failed to respond to keep-alive: %w"
                          [] err)))
          end)
  /\ (forall fuel ctx c w cn c' w' st,
        conn c = Some cn ->
        ReadLoop W handler fuel ctx c w = (c', w', st) ->
        exists cn' evs,
          conn c' = Some cn' /\ io_log cn' = io_log cn ++ evs
          /\ keepalive_discipline evs = true).
Proof.
  split; [reflexivity |]. split; [| split].
  - intros fuel ctx c w cn c1 payload Hc Hctx Hr Hid.
    destruct (ReadLoop_iter_keepalive W handler c w cn c1 payload Hc Hr Hid)
      as (cn1 & Hc1 & Hl1 & _ & Hit & Hl2).
    exists cn1. split; [exact Hc1 |]. split; [exact Hl1 |].
    split; [exact Hl2 |].
    cbn [ReadLoop]. rewrite Hctx.
    destruct (next_write_outcome cn1); rewrite Hit; reflexivity.
  - intros fuel ctx c w cn rest e Hc Hctx Hin cn2.
    assert (Hwf : well_formed (mkPayload CommandKeepAlive [])).
    { split; [discriminate | split; [constructor | reflexivity]]. }
    pose proof (readPayload_frame c cn (mkPayload CommandKeepAlive []) rest e
                  Hc Hin Hwf) as Hr.
    destruct (ReadLoop_iter_keepalive W handler c w cn _ _ Hc Hr eq_refl)
      as (cn1 & Hc1 & _ & _ & Hit & _).
    cbn [conn set_conn] in Hc1. injection Hc1 as <-.
    assert (Hcn2 : after_write
                     (mkConn (mkReader rest e) (write_outcomes cn)
                        (io_log cn
                         ++ [EvRead (Ok (mkPayload CommandKeepAlive []))]))
                     [x0c; x00; x00; x00; x00] = cn2).
    { unfold after_write, cn2, next_write_outcome.
      cbn [inbound write_outcomes io_log]. rewrite <- app_assoc.
      reflexivity. }
    rewrite Hcn2 in Hit.
    change (next_write_outcome
              (mkConn (mkReader rest e) (write_outcomes cn)
                 (io_log cn
                  ++ [EvRead (Ok (mkPayload CommandKeepAlive []))])))
      with (next_write_outcome cn) in Hit.
    cbn [ReadLoop]. rewrite Hctx.
    destruct (next_write_outcome cn); rewrite Hit; reflexivity.
  - intros fuel ctx c w cn c' w' st Hc Hrun.
    exact (ReadLoop_log W handler fuel ctx c w cn c' w' st Hc Hrun).
Qed.

End Connection.

Lemma ReadLoop_keepalive_reply_witness :
  @ReadLoop Fixtures.test_externals unit (fun _ w => (w, Ok tt)) 2
    (fun _ => false) Fixtures.test_connection tt
  = @ReadLoop Fixtures.test_externals unit (fun _ w => (w, Ok tt)) 1
      (fun _ => false)
      (set_conn Fixtures.test_connection
         (Some (mkConn (mkReader [] io_EOF) []
                  [EvRead (Ok (mkPayload CommandKeepAlive []));
                   EvWrite [x0c; x00; x00; x00; x00] None])))
      tt.
Proof.
  exact (proj1 (proj2 (proj2 (@ReadLoop_keepalive_reply
                                Fixtures.test_externals unit
                                (fun _ w => (w, Ok tt)))))
           1%nat (fun _ => false) Fixtures.test_connection tt
           Fixtures.test_conn [] io_EOF eq_refl eq_refl eq_refl).
Defined.

Lemma FindField_first_match_witness :
  FindField Samples.sample_ack x03 = [xde; xad; xbe; xef].
Proof.
  apply (proj1 (FindField_first_match Samples.sample_ack x03)
           [mkField x01 [x00]] (mkField x03 [xde; xad; xbe; xef])
           [mkField x04 [x10; x00]]).
  - reflexivity.
  - reflexivity.
  - intros g [<- | []]. discriminate.
Defined.

Lemma not_connected_refused_witness :
  @readPayload Fixtures.test_externals Samples.sample_connection
  = (Samples.sample_connection, Err ErrNotConnected).
Proof.
  apply (proj1 (proj2 (@not_connected_refused Fixtures.test_externals
                         (list (list byte)) Samples.sample_handler
                         Samples.sample_connection eq_refl))).
Defined.

Lemma Filter_sends_topics_witness :
  snd (@Filter Fixtures.test_externals Samples.sample_listening
         [list_byte_of_string TopicMadrid])
  = Ok tt.
Proof.
  exact (f_equal snd
           (@Filter_sends_topics Fixtures.test_externals
              Samples.sample_listening
              (mkConn (mkReader (flat_map ToBytes Samples.sample_frames) io_EOF)
                 [] [])
              [list_byte_of_string TopicMadrid] eq_refl)).
Defined.

Lemma SetState_sends_state_witness :
  snd (@SetState Fixtures.test_externals Samples.sample_listening x01)
  = Ok tt.
Proof.
  exact (f_equal snd
           (@SetState_sends_state Fixtures.test_externals
              Samples.sample_listening
              (mkConn (mkReader (flat_map ToBytes Samples.sample_frames) io_EOF)
                 [] [])
              x01 eq_refl)).
Defined.

Lemma sample_frames_well_formed F :
  In F Samples.sample_frames ->
  Payload_ID F = CommandSendMessage /\ well_formed F.
Proof.
  intros [<- | [<- | []]];
    (split; [reflexivity |]);
    (split; [discriminate | split; [repeat constructor | reflexivity]]).
Qed.

Lemma ReadLoop_exit_reasons_witness :
  Return (wrapError "failed to read payload: %w" [] io_EOF)
  = Return context_Canceled
  \/ (exists e,
        Return (wrapError "failed to read payload: %w" [] io_EOF)
        = Return (wrapError "failed to read payload: %w" [] e))
  \/ (exists e,
        Return (wrapError "failed to read payload: %w" [] io_EOF)
        = Return (wrapError "failed to respond to keep-alive: %w" [] e)).
Proof.
  eapply (@ReadLoop_exit_reasons Fixtures.test_externals (list (list byte))
            Samples.sample_handler 3 (fun _ => false)
            Samples.sample_listening []).
  - intros msg w0 m. discriminate.
  - vm_compute. reflexivity.
Defined.

Lemma ReadLoop_delivers_in_order_witness :
  exists c',
    @ReadLoop Fixtures.test_externals (list (list byte))
      Samples.sample_handler 3 (fun _ => false) Samples.sample_listening []
    = (c', [[x01; x02]; [x03]],
       Some (Return (wrapError "failed to read payload: %w" [] io_EOF))).
Proof.
  destruct (@ReadLoop_delivers_in_order Fixtures.test_externals
              (list (list byte)) Samples.sample_handler Samples.sample_frames
              (fun _ => false) Samples.sample_listening
              (mkConn (mkReader (flat_map ToBytes Samples.sample_frames) io_EOF)
                 [] [])
              [] io_EOF eq_refl eq_refl eq_refl sample_frames_well_formed
              ltac:(intros msg w0 m; discriminate) ltac:(reflexivity))
    as (c' & Hc & _).
  exists c'. exact Hc.
Defined.

End command_facts.

(* ================================================================== *)
(** ** The connect handshake *)
(* ================================================================== *)

Module connect_facts.
Import apns Props Terms go_facts codec_facts stream_facts connection_facts
  command_facts.

Section Connection.
Context `{Externals}.

(** [write] and [readPayload] touch the socket only. *)
Lemma write_keeps c data :
  fst (write c data) = set_conn c (conn (fst (write c data))).
Proof.
  unfold write. destruct c as [k d t cn h m l]. cbn [conn].
  destruct cn as [cn |]; [| reflexivity].
  destruct (write_outcomes cn) as [| [e |] rest]; reflexivity.
Qed.

Lemma readPayload_keeps c :
  fst (readPayload c) = set_conn c (conn (fst (readPayload c))).
Proof.
  unfold readPayload. destruct c as [k d t cn h m l]. cbn [conn].
  destruct cn as [cn |]; [| reflexivity].
  destruct (UnmarshalBinaryStream Payload_zero (inbound cn)) as [[r p] o].
  reflexivity.
Qed.

(** The ack is the only thing that changes the token or the size limits,
    and only when it is accepted. *)
Lemma Connect_ack_keeps c payload c' r :
  Connect_ack c payload = (c', r) ->
  privateKey c' = privateKey c /\ deviceCert c' = deviceCert c
  /\ conn c' = conn c /\ messageHandler c' = messageHandler c
  /\ (r <> Ok tt -> c' = c).
Proof.
  unfold Connect_ack.
  destruct (negb (Byte.eqb (Payload_ID payload) CommandConnectAck)).
  { intros [= <- <-]. repeat split. }
  destruct (ack_rejected (Status (ConnectAckCommand_FromPayload payload))).
  { intros [= <- <-]. repeat split. }
  intros [= <- <-].
  repeat match goal with
         | |- context [if ?b then _ else _] => destruct b
         end;
    (split; [reflexivity |]); (split; [reflexivity |]);
    (split; [reflexivity |]); (split; [reflexivity |]);
    intros Hr; exfalso; apply Hr; reflexivity.
Qed.

(** X9: Whatever happens during [Connect], the key, the certificate and the
    handler of the connection stay, and unless [Connect] succeeds so do the
    token and the size limits. *)
Theorem Connect_keeps_identity env c c' r :
  Connect env c = (c', r) ->
  privateKey c' = privateKey c /\ deviceCert c' = deviceCert c
  /\ messageHandler c' = messageHandler c
  /\ (r <> Ok tt ->
      token c' = token c /\ maxMessageSize c' = maxMessageSize c
      /\ maxLargeMessageSize c' = maxLargeMessageSize c).
Proof.
  unfold Connect.
  destruct (privateKey c) as [key |] eqn:Hk;
    [| intros [= <- <-]; repeat split; assumption].
  destruct (deviceCert c) as [cert |] eqn:Hd;
    [| intros [= <- <-]; repeat split; assumption].
  destruct (len (token c) =? 0);
    [intros [= <- <-]; repeat split; assumption |].
  unfold Connect_handshake.
  destruct (dial env (rand_Intn env + 1)) as [cn | e | m];
    [| intros [= <- <-]; repeat split; assumption
     | intros [= <- <-]; repeat split; assumption].
  set (c1 := set_conn c (Some cn)).
  assert (H1 : privateKey c1 = Some key /\ deviceCert c1 = Some cert
               /\ messageHandler c1 = messageHandler c
               /\ token c1 = token c /\ maxMessageSize c1 = maxMessageSize c
               /\ maxLargeMessageSize c1 = maxLargeMessageSize c)
    by (repeat split; assumption).
  clearbody c1. destruct H1 as (Hk1 & Hd1 & Hh1 & Ht1 & Hm1 & Hl1).
  destruct (rand_Read env) as [[| n0 nonce_tl] | e | m];
    try (intros [= <- <-]; repeat split; assumption).
  destruct (rsa_SignPKCS1v15 key (sha1_Sum (x00 :: nonce_tl)))
    as [signature | e | m];
    try (intros [= <- <-]; repeat split; assumption).
  set (bytes := ToBytes _).
  pose proof (write_keeps c1 bytes) as Hw.
  destruct (write c1 bytes) as [c2 rw]. cbn [fst] in Hw.
  assert (H2 : privateKey c2 = Some key /\ deviceCert c2 = Some cert
               /\ messageHandler c2 = messageHandler c
               /\ token c2 = token c /\ maxMessageSize c2 = maxMessageSize c
               /\ maxLargeMessageSize c2 = maxLargeMessageSize c)
    by (rewrite Hw; repeat split; assumption).
  clear Hw. destruct H2 as (Hk2 & Hd2 & Hh2 & Ht2 & Hm2 & Hl2).
  destruct rw as [[] | e | m];
    try (intros [= <- <-]; repeat split; assumption).
  pose proof (readPayload_keeps c2) as Hr.
  destruct (readPayload c2) as [c3 rr]. cbn [fst] in Hr.
  assert (H3 : privateKey c3 = Some key /\ deviceCert c3 = Some cert
               /\ messageHandler c3 = messageHandler c
               /\ token c3 = token c /\ maxMessageSize c3 = maxMessageSize c
               /\ maxLargeMessageSize c3 = maxLargeMessageSize c)
    by (rewrite Hr; repeat split; assumption).
  clear Hr. destruct H3 as (Hk3 & Hd3 & Hh3 & Ht3 & Hm3 & Hl3).
  destruct rr as [payload | e | m];
    try (intros [= <- <-]; repeat split; assumption).
  intros Hack.
  destruct (Connect_ack_keeps _ _ _ _ Hack) as (Ka & Da & _ & Ha & Herr).
  split; [congruence |]. split; [congruence |]. split; [congruence |].
  intros Hne. rewrite (Herr Hne). repeat split; assumption.
Qed.

(** X10: A whole [Connect] against a courier that accepts: one connect frame is
    written, one ack frame is read, and the connection takes the token and
    the size limits of the ack, keeping its own where the ack has none. *)
Theorem Connect_adopts_ack env c key cert cn n0 nonce_tl signature ack rest e :
  privateKey c = Some key -> deviceCert c = Some cert -> token c <> [] ->
  dial env (rand_Intn env + 1) = Ok cn ->
  rand_Read env = Ok (n0 :: nonce_tl) ->
  rsa_SignPKCS1v15 key (sha1_Sum (x00 :: nonce_tl)) = Ok signature ->
  next_write_outcome cn = None ->
  inbound cn = mkReader (ToBytes ack ++ rest) e ->
  Payload_ID ack = CommandConnectAck -> well_formed ack ->
  ack_rejected (FindField ack x01) = false ->
  exists c',
    Connect env c = (c', Ok tt)
    /\ token c' = (if 0 <? len (FindField ack x03) then FindField ack x03
                   else token c)
    /\ maxMessageSize c'
       = (if 0 <? be16_or_zero (FindField ack x04)
          then be16_or_zero (FindField ack x04) else maxMessageSize c)
    /\ maxLargeMessageSize c'
       = (if 0 <? be16_or_zero (FindField ack x08)
          then be16_or_zero (FindField ack x08) else maxLargeMessageSize c)
    /\ conn c'
       = Some (mkConn (mkReader rest e) (tl (write_outcomes cn))
                 (io_log cn
                  ++ [EvWrite (ToBytes (connect_frame (token c) (Raw cert)
                                          (x00 :: nonce_tl) signature)) None;
                      EvRead (Ok ack)])).
Proof.
  intros Hk Hd Ht Hdial Hrand Hsign Hwo Hin Hid Hwf Hst.
  unfold Connect. rewrite Hk, Hd.
  destruct (Z.eqb_spec (len (token c)) 0) as [Hz |].
  { destruct (token c); [contradiction | rewrite len_cons in Hz;
                                         pose proof (len_nonneg l); lia]. }
  unfold Connect_handshake. rewrite Hdial, Hrand, Hsign.
  set (c1 := set_conn c (Some cn)).
  rewrite (write_spec c1 cn _ eq_refl), Hwo.
  set (c2 := set_conn c1 _).
  rewrite (readPayload_frame c2 (after_write cn _) ack rest e eq_refl Hin Hwf).
  unfold Connect_ack. rewrite Hid.
  change (negb (Byte.eqb CommandConnectAck CommandConnectAck)) with false.
  cbv iota.
  unfold ConnectAckCommand_FromPayload.
  cbn [Status Token MaxMessageSize LargeMessageSize].
  rewrite Hst.
  eexists. split; [reflexivity |].
  destruct (0 <? len (FindField ack x03));
    destruct (0 <? be16_or_zero (FindField ack x04));
    destruct (0 <? be16_or_zero (FindField ack x08));
    cbn [token maxMessageSize maxLargeMessageSize conn set_token
         set_maxMessageSize set_maxLargeMessageSize set_conn c2 c1];
    repeat split;
    unfold after_write; cbn [io_log inbound write_outcomes];
    rewrite Hwo, <- app_assoc; reflexivity.
Qed.

End Connection.

Lemma Connect_adopts_ack_witness :
  exists c',
    @Connect Fixtures.test_externals Samples.sample_env
      Samples.sample_connection = (c', Ok tt)
    /\ token c' = [xde; xad; xbe; xef].
Proof.
  destruct (@Connect_adopts_ack Fixtures.test_externals Samples.sample_env
              Samples.sample_connection tt (mkCertificate [x30])
              Samples.sample_conn x07 (repeat x07 19)
              (firstn 20 ((x00 :: repeat x07 19) ++ repeat x00 20))
              Samples.sample_ack [x0c] io_EOF)
    as (c' & Hc & Ht & _).
  - reflexivity.
  - reflexivity.
  - discriminate.
  - reflexivity.
  - reflexivity.
  - reflexivity.
  - reflexivity.
  - reflexivity.
  - reflexivity.
  - split; [discriminate | split; [repeat constructor | reflexivity]].
  - reflexivity.
  - exists c'. split; [exact Hc | exact Ht].
Defined.

Lemma Connect_keeps_identity_witness :
  privateKey (fst (@Connect Fixtures.test_externals Fixtures.test_env
                     Fixtures.test_connection))
  = Some tt.
Proof.
  apply (proj1 (@Connect_keeps_identity Fixtures.test_externals
                  Fixtures.test_env Fixtures.test_connection
                  Fixtures.test_connection (Err ErrNoToken) eq_refl)).
Defined.

End connect_facts.

(* ================================================================== *)
(** ** The envelope of a message and the stages of decryption *)
(* ================================================================== *)

Module envelope_facts.
Import messaging Props Terms go_facts codec_facts decrypt_facts.

Lemma uint16_small x : 0 <= x < 2 ^ 16 -> uint16 x = x.
Proof. intros Hx. unfold uint16. apply Z.mod_small. assumption. Qed.

Lemma uint16_le x : 0 <= x -> 0 <= uint16 x <= x.
Proof.
  intros Hx. unfold uint16. change (2 ^ 16) with 65536.
  pose proof (Z.mod_pos_bound x 65536 ltac:(lia)).
  pose proof (Z.mod_le x 65536 Hx ltac:(lia)). lia.
Qed.

Lemma uint16_wrap x : 2 ^ 16 <= x < 2 ^ 17 -> uint16 x = x - 2 ^ 16.
Proof.
  intros Hx. unfold uint16. change (2 ^ 16) with 65536 in *.
  change (2 ^ 17) with 131072 in *.
  symmetry. apply (Z.mod_unique x 65536 1); lia.
Qed.

Lemma index_app_at {A} (pre : list A) x post i :
  i = len pre -> index (pre ++ x :: post) i = Ok x.
Proof. intros ->. apply index_app_len. Qed.

Lemma index_out {A} (l : list A) i :
  len l <= i -> index l i = Panic "index out of range".
Proof.
  intros Hi. unfold index.
  destruct (Z.ltb_spec i (len l)); [lia |].
  rewrite andb_false_r. reflexivity.
Qed.

Lemma slice_bad {A} (l : list A) lo hi :
  hi < lo \/ len l < hi -> slice l lo hi = Panic "slice bounds out of range".
Proof.
  intros Hb. unfold slice.
  destruct (Z.leb_spec 0 lo); cbn [andb]; [| reflexivity].
  destruct (Z.leb_spec lo hi); cbn [andb]; [| reflexivity].
  destruct (Z.leb_spec hi (len l)); [lia | reflexivity].
Qed.

(** The first steps of [ParseBody] on a buffer of four bytes or more. *)
Lemma ParseBody_header tag hi lo rest :
  1 <= len rest ->
  ParseBody (tag :: hi :: lo :: rest) =
  let payload := tag :: hi :: lo :: rest in
  let bodyLength := byte_to_Z lo + byte_to_Z hi * 256 in
  let expectedLength := uint16 (3 + bodyLength + 1) in
  if len payload <? expectedLength then
    Err (fmtError "too short payload (missing body, expected >%d, got %d)"
           [ArgInt expectedLength; ArgInt (len payload)])
  else
    bind (slice payload 3 (uint16 (3 + bodyLength))) (fun body =>
    bind (index payload (uint16 (3 + bodyLength))) (fun signatureLength =>
    let expectedLength :=
      uint16 (3 + bodyLength + 1 + uint16 (byte_to_Z signatureLength)) in
    if len payload <? expectedLength then
      Err (fmtError
             "too short payload (missing signature, expected %d, got %d)"
             [ArgInt expectedLength; ArgInt (len payload)])
    else
      bind (slice_from payload (uint16 (3 + bodyLength + 1)))
        (fun signature => Ok (mkParsedBody tag body signature)))).
Proof.
  intros Hge. unfold ParseBody.
  rewrite !len_cons.
  destruct (Z.ltb_spec (1 + (1 + (1 + len rest))) 4); [lia |].
  rewrite index_cons_0. cbn [bind].
  change (slice (tag :: hi :: lo :: rest) 1 3)
    with (slice ([tag] ++ [hi; lo] ++ rest) 1 3).
  rewrite (slice_app_mid [tag] [hi; lo] rest 1 3) by reflexivity.
  cbn [bind]. rewrite Uint16_bytes. cbn [bind]. cbv zeta.
  rewrite ?len_cons. reflexivity.
Qed.

(** [ParseBody] on an envelope whose body is there: the body is returned as
    declared, the signature is all that follows its length byte. *)
Lemma ParseBody_body_present tag body sigLen signature :
  len body + 4 < 2 ^ 16 ->
  ParseBody (envelope tag body sigLen signature) =
  let total := 3 + len body + 1 + len signature in
  let expectedLength := uint16 (3 + len body + 1 + uint16 (byte_to_Z sigLen)) in
  if total <? expectedLength then
    Err (fmtError "too short payload (missing signature, expected %d, got %d)"
           [ArgInt expectedLength; ArgInt total])
  else Ok (mkParsedBody tag body signature).
Proof.
  intros Hmax. change (2 ^ 16) with 65536 in Hmax.
  pose proof (len_nonneg body). pose proof (len_nonneg signature).
  unfold envelope.
  destruct (PutUint16_split (len body)) as (hi & lo & Hput & Hval);
    [change (2 ^ 16) with 65536; lia |].
  rewrite Hput. cbn [app].
  rewrite ParseBody_header
    by (rewrite len_app, len_cons; lia).
  cbv zeta. rewrite Hval.
  assert (Hlen : len (tag :: hi :: lo :: body ++ sigLen :: signature)
                 = 3 + len body + 1 + len signature)
    by (rewrite !len_cons, len_app, len_cons; lia).
  rewrite Hlen.
  rewrite (uint16_small (3 + len body + 1))
    by (change (2 ^ 16) with 65536; lia).
  rewrite (uint16_small (3 + len body))
    by (change (2 ^ 16) with 65536; lia).
  destruct (Z.ltb_spec (3 + len body + 1 + len signature) (3 + len body + 1));
    [lia |].
  change (tag :: hi :: lo :: body ++ sigLen :: signature)
    with ([tag; hi; lo] ++ body ++ sigLen :: signature).
  rewrite (slice_app_mid [tag; hi; lo] body (sigLen :: signature))
    by reflexivity.
  cbn [bind].
  rewrite app_assoc, (index_app_at ([tag; hi; lo] ++ body))
    by (rewrite len_app; reflexivity).
  cbn [bind].
  destruct (Z.ltb_spec (len (([tag; hi; lo] ++ body) ++ sigLen :: signature))
              (uint16 (3 + len body + 1 + uint16 (byte_to_Z sigLen))))
    as [Hlt | Hge];
    rewrite <- app_assoc in Hlt || rewrite <- app_assoc in Hge;
    cbn [app] in *; rewrite Hlen in *.
  - destruct (Z.ltb_spec (3 + len body + 1 + len signature)
                (uint16 (3 + len body + 1 + uint16 (byte_to_Z sigLen))));
      [reflexivity | lia].
  - destruct (Z.ltb_spec (3 + len body + 1 + len signature)
                (uint16 (3 + len body + 1 + uint16 (byte_to_Z sigLen))));
      [lia |].
    unfold slice_from. rewrite Hlen.
    assert (Hs : slice (tag :: hi :: lo :: body ++ sigLen :: signature)
                   (3 + len body + 1) (3 + len body + 1 + len signature)
                 = Ok signature).
    { replace (tag :: hi :: lo :: body ++ sigLen :: signature)
        with ((tag :: hi :: lo :: body ++ [sigLen]) ++ signature ++ [])
        by (cbn [app]; rewrite <- app_assoc, app_nil_r; reflexivity).
      apply slice_app_mid.
      - rewrite !len_cons, len_app. change (len [sigLen]) with 1. lia.
      - rewrite !len_cons, len_app. change (len [sigLen]) with 1. lia. }
    rewrite Hs. reflexivity.
Qed.


(** Below the wrap, a buffer of four bytes or more either lacks part of its
    body or is an envelope. *)
Lemma ParseBody_below_wrap tag hi lo rest :
  1 <= len rest -> byte_to_Z lo + byte_to_Z hi * 256 + 4 < 2 ^ 16 ->
  (len rest <= byte_to_Z lo + byte_to_Z hi * 256)
  \/ exists body sigLen signature,
       len body = byte_to_Z lo + byte_to_Z hi * 256
       /\ tag :: hi :: lo :: rest = envelope tag body sigLen signature.
Proof.
  intros Hge Hmax. set (bl := byte_to_Z lo + byte_to_Z hi * 256) in *.
  pose proof (byte_to_Z_range lo). pose proof (byte_to_Z_range hi).
  destruct (Z_le_gt_dec (len rest) bl) as [Hle | Hgt]; [left; assumption |].
  right.
  assert (Hbl : 0 <= bl) by (unfold bl; lia).
  pose proof (firstn_skipn (Z.to_nat bl) rest) as Hsplit.
  destruct (skipn (Z.to_nat bl) rest) as [| sigLen signature] eqn:Hsk.
  { exfalso. apply (f_equal (@List.length byte)) in Hsk.
    rewrite length_skipn in Hsk. unfold len in *. cbn in Hsk. lia. }
  exists (firstn (Z.to_nat bl) rest), sigLen, signature.
  assert (Hlb : len (firstn (Z.to_nat bl) rest) = bl)
    by (apply len_firstn; lia).
  split; [assumption |].
  unfold envelope. rewrite Hlb. unfold bl. rewrite PutUint16_bytes.
  cbn [app]. fold bl. rewrite Hsplit. reflexivity.
Qed.

(** X11: Parsing an envelope gives back its parts: the body as declared, and as
    signature all the bytes after the signature's length byte, of which
    there may be more than that byte announces. *)
Theorem ParseBody_envelope tag body sigLen signature :
  len body + 4 < 2 ^ 16 -> byte_to_Z sigLen <= len signature ->
  ParseBody (envelope tag body sigLen signature)
  = Ok (mkParsedBody tag body signature).
Proof.
  intros Hmax Hsig. rewrite ParseBody_body_present by assumption. cbv zeta.
  pose proof (byte_to_Z_range sigLen). pose proof (len_nonneg body).
  pose proof (uint16_le (byte_to_Z sigLen) ltac:(lia)).
  pose proof (uint16_le (3 + len body + 1 + uint16 (byte_to_Z sigLen))
                ltac:(lia)).
  destruct (Z.ltb_spec (3 + len body + 1 + len signature)
              (uint16 (3 + len body + 1 + uint16 (byte_to_Z sigLen))));
    [lia | reflexivity].
Qed.

(** X12: An envelope whose signature is shorter than its length byte
    announces is refused with the missing-signature error, which names the
    expected and the actual length, as long as body, header and announced
    signature together stay under 65536 bytes, that is for a body of at most
    65276 bytes whatever the length byte.  From there on the 16-bit sum of
    the expected length wraps, and the envelope is accepted with the short
    signature. *)
Theorem ParseBody_missing_signature tag body sigLen signature :
  len body + 4 < 2 ^ 16 -> len signature < byte_to_Z sigLen ->
  (len body + 4 + byte_to_Z sigLen < 2 ^ 16 ->
   ParseBody (envelope tag body sigLen signature)
   = Err (fmtError
            "too short payload (missing signature, expected %d, got %d)"
            [ArgInt (3 + len body + 1 + byte_to_Z sigLen);
             ArgInt (3 + len body + 1 + len signature)]))
  /\ (2 ^ 16 <= len body + 4 + byte_to_Z sigLen ->
      ParseBody (envelope tag body sigLen signature)
      = Ok (mkParsedBody tag body signature)).
Proof.
  intros Hbody Hsig. change (2 ^ 16) with 65536 in *.
  pose proof (byte_to_Z_range sigLen). pose proof (len_nonneg body).
  pose proof (len_nonneg signature).
  rewrite ParseBody_body_present by (change (2 ^ 16) with 65536; lia).
  cbv zeta.
  rewrite (uint16_small (byte_to_Z sigLen))
    by (change (2 ^ 16) with 65536; lia).
  split; intros Hmax.
  - rewrite (uint16_small (3 + len body + 1 + byte_to_Z sigLen))
      by (change (2 ^ 16) with 65536; lia).
    destruct (Z.ltb_spec (3 + len body + 1 + len signature)
                (3 + len body + 1 + byte_to_Z sigLen)); [reflexivity | lia].
  - rewrite (uint16_wrap (3 + len body + 1 + byte_to_Z sigLen))
      by (change (2 ^ 16) with 65536; change (2 ^ 17) with 131072; lia).
    change (2 ^ 16) with 65536.
    destruct (Z.ltb_spec (3 + len body + 1 + len signature)
                (3 + len body + 1 + byte_to_Z sigLen - 65536));
      [lia | reflexivity].
Qed.

(** X13: When the declared body length is at most 65531, [ParseBody] does not
    panic, whatever the buffer. *)
Theorem ParseBody_no_panic_below_wrap tag hi lo rest m :
  byte_to_Z lo + byte_to_Z hi * 256 + 4 < 2 ^ 16 ->
  ParseBody (tag :: hi :: lo :: rest) <> Panic m.
Proof.
  intros Hmax.
  destruct (Z_le_gt_dec 1 (len rest)) as [Hge | Hlt].
  - destruct (ParseBody_below_wrap tag hi lo rest Hge Hmax)
      as [Hshort | (body & sigLen & signature & Hlen & Heq)].
    + rewrite ParseBody_missing_body by assumption. discriminate.
    + rewrite Heq, ParseBody_body_present by (rewrite Hlen; assumption).
      cbv zeta. destruct (_ <? _); discriminate.
  - rewrite ParseBody_missing_header; [discriminate |].
    rewrite !len_cons. lia.
Qed.

(** X14: On a buffer shorter than 65536 bytes, as a field of a frame is, a
    successful [ParseBody] has split an envelope: the buffer is the tag, the
    length of the returned body, the body, one byte and the returned
    signature. *)
Theorem ParseBody_sound payload pb :
  len payload < 2 ^ 16 -> ParseBody payload = Ok pb ->
  exists sigLen,
    payload = envelope (Tag pb) (Body pb) sigLen (Signature pb).
Proof.
  intros Hlen Hok. change (2 ^ 16) with 65536 in Hlen.
  destruct (Z_lt_ge_dec (len payload) 4) as [Hshort | Hlong].
  { rewrite ParseBody_missing_header in Hok by assumption. discriminate. }
  destruct payload as [| tag [| hi [| lo rest]]];
    try (unfold len in Hlong; cbn in Hlong; lia).
  assert (Hge : 1 <= len rest) by (rewrite !len_cons in Hlong; lia).
  pose proof (byte_to_Z_range lo). pose proof (byte_to_Z_range hi).
  destruct (Z_lt_ge_dec (byte_to_Z lo + byte_to_Z hi * 256 + 4) (2 ^ 16))
    as [Hmax | Hwrap].
  - destruct (ParseBody_below_wrap tag hi lo rest Hge Hmax)
      as [Hs | (body & sigLen & signature & Hlb & Heq)].
    + rewrite ParseBody_missing_body in Hok by assumption. discriminate.
    + rewrite Heq in Hok |- *.
      rewrite ParseBody_body_present in Hok by (rewrite Hlb; assumption).
      cbv zeta in Hok. destruct (_ <? _) in Hok; [discriminate |].
      injection Hok as <-. exists sigLen. reflexivity.
  - exfalso. change (2 ^ 16) with 65536 in Hwrap.
    rewrite ParseBody_header in Hok by assumption. cbv zeta in Hok.
    set (bl := byte_to_Z lo + byte_to_Z hi * 256) in *.
    assert (Hbl : 0 <= bl < 65536) by (unfold bl; lia).
    rewrite !len_cons in Hlen.
    rewrite (uint16_wrap (3 + bl + 1)) in Hok
      by (change (2 ^ 16) with 65536; change (2 ^ 17) with 131072; lia).
    change (2 ^ 16) with 65536 in Hok.
    destruct (Z.ltb_spec (len (tag :: hi :: lo :: rest)) (3 + bl + 1 - 65536));
      [discriminate |].
    destruct (Z.eq_dec bl 65532) as [E | NE].
    + rewrite E in Hok.
      rewrite (uint16_small (3 + 65532)) in Hok by (cbn; lia).
      destruct (Z_le_gt_dec (3 + 65532) (len (tag :: hi :: lo :: rest))).
      * rewrite (index_out (tag :: hi :: lo :: rest) (3 + 65532)) in Hok
          by (rewrite !len_cons; lia).
        destruct (slice _ _ _) in Hok; discriminate.
      * rewrite slice_bad in Hok by (right; lia). discriminate.
    + rewrite (uint16_wrap (3 + bl)) in Hok
        by (change (2 ^ 16) with 65536; change (2 ^ 17) with 131072; lia).
      rewrite slice_bad in Hok
        by (left; change (2 ^ 16) with 65536; lia).
      discriminate.
Qed.

Section Pipeline.
Context `{Externals} `{MessagePlist}.

(** X15: [DecryptMessage] runs its four stages in order, each on the result
    of the one before: a result comes from all four succeeding, and an error
    is that of the first failing stage, after the success of the stages
    before it, wrapped with the name of the stage; a panic is that of the
    first stage that panics. *)
Theorem DecryptMessage_stages privateKey payload :
  (forall msg,
     DecryptMessage privateKey payload = Ok msg ->
     exists parsed decrypted decompressed,
       ParseBody payload = Ok parsed
       /\ DecryptPairPayload privateKey parsed = Ok decrypted
       /\ MaybeGUnzip decrypted = Ok decompressed
       /\ plist_Unmarshal_IMessagePayload decompressed = Ok msg)
  /\ (forall e,
        DecryptMessage privateKey payload = Err e ->
        (exists inner, ParseBody payload = Err inner
                       /\ e = wrapError "failed to parse body: %w" [] inner)
        \/ (exists parsed inner,
              ParseBody payload = Ok parsed
              /\ DecryptPairPayload privateKey parsed = Err inner
              /\ e = wrapError "failed to decrypt: %w" [] inner)
        \/ (exists parsed decrypted inner,
              ParseBody payload = Ok parsed
              /\ DecryptPairPayload privateKey parsed = Ok decrypted
              /\ MaybeGUnzip decrypted = Err inner
              /\ e = wrapError "failed to decompress: %w" [] inner)
        \/ (exists parsed decrypted decompressed inner,
              ParseBody payload = Ok parsed
              /\ DecryptPairPayload privateKey parsed = Ok decrypted
              /\ MaybeGUnzip decrypted = Ok decompressed
              /\ plist_Unmarshal_IMessagePayload decompressed = Err inner
              /\ e = wrapError "failed to unmarshal plist: %w" [] inner))
  /\ (forall m,
        DecryptMessage privateKey payload = Panic m ->
        ParseBody payload = Panic m
        \/ (exists parsed,
              ParseBody payload = Ok parsed
              /\ DecryptPairPayload privateKey parsed = Panic m)
        \/ (exists parsed decrypted,
              ParseBody payload = Ok parsed
              /\ DecryptPairPayload privateKey parsed = Ok decrypted
              /\ MaybeGUnzip decrypted = Panic m)
        \/ (exists parsed decrypted decompressed,
              ParseBody payload = Ok parsed
              /\ DecryptPairPayload privateKey parsed = Ok decrypted
              /\ MaybeGUnzip decrypted = Ok decompressed
              /\ plist_Unmarshal_IMessagePayload decompressed = Panic m)).
Proof.
  unfold DecryptMessage.
  destruct (ParseBody payload) as [parsed | e1 | m1] eqn:E1; cbn [wrap bind].
  2:{ split; [discriminate | split; [| discriminate]].
      intros e [= <-]. left. exists e1. split; reflexivity. }
  2:{ split; [discriminate | split; [discriminate |]].
      intros m [= <-]. left. reflexivity. }
  destruct (DecryptPairPayload privateKey parsed) as [d | e2 | m2] eqn:E2;
    cbn [wrap bind].
  2:{ split; [discriminate | split; [| discriminate]].
      intros e [= <-]. right. left. exists parsed, e2.
      repeat split; try assumption; reflexivity. }
  2:{ split; [discriminate | split; [discriminate |]].
      intros m [= <-]. right. left. exists parsed.
      split; [reflexivity | assumption]. }
  destruct (MaybeGUnzip d) as [z | e3 | m3] eqn:E3; cbn [wrap bind].
  2:{ split; [discriminate | split; [| discriminate]].
      intros e [= <-]. right. right. left. exists parsed, d, e3.
      repeat split; try assumption; reflexivity. }
  2:{ split; [discriminate | split; [discriminate |]].
      intros m [= <-]. right. right. left. exists parsed, d.
      repeat split; try assumption; reflexivity. }
  destruct (plist_Unmarshal_IMessagePayload z) as [msg' | e4 | m4] eqn:E4;
    cbn [wrap bind].
  - split; [| split; discriminate].
    intros msg [= <-]. exists parsed, d, z.
    repeat split; try assumption; reflexivity.
  - split; [discriminate | split; [| discriminate]].
    intros e [= <-]. right. right. right. exists parsed, d, z, e4.
    repeat split; try assumption; reflexivity.
  - split; [discriminate | split; [discriminate |]].
    intros m [= <-]. right. right. right. exists parsed, d, z.
    repeat split; try assumption; reflexivity.
Qed.

End Pipeline.

Lemma ParseBody_envelope_witness :
  ParseBody (envelope x02 [xaa; xbb] x01 [xcc; xdd])
  = Ok (mkParsedBody x02 [xaa; xbb] [xcc; xdd]).
Proof.
  apply ParseBody_envelope.
  - reflexivity.
  - discriminate.
Defined.

Lemma ParseBody_missing_signature_witness :
  ParseBody (envelope x02 [xaa; xbb] x03 [xcc])
  = Err (fmtError "too short payload (missing signature, expected %d, got %d)"
           [ArgInt 9; ArgInt 7]).
Proof.
  apply (proj1 (ParseBody_missing_signature x02 [xaa; xbb] x03 [xcc]
                  ltac:(reflexivity) ltac:(reflexivity))).
  reflexivity.
Defined.

Lemma ParseBody_no_panic_below_wrap_witness :
  ParseBody [x00; x00; x09; x01] <> Panic "slice bounds out of range".
Proof.
  apply ParseBody_no_panic_below_wrap. reflexivity.
Defined.

Lemma ParseBody_sound_witness :
  exists sigLen,
    [x02; x00; x01; xaa; x00] = envelope x02 [xaa] sigLen [].
Proof.
  apply (ParseBody_sound [x02; x00; x01; xaa; x00]
           (mkParsedBody x02 [xaa] [])); reflexivity.
Defined.

Lemma DecryptMessage_stages_witness :
  exists inner,
    ParseBody [x01] = Err inner
    /\ wrapError "failed to parse body: %w" []
         (fmtError "too short payload (missing header, expected >4, got %d)"
            [ArgInt 1])
       = wrapError "failed to parse body: %w" [] inner.
Proof.
  destruct (proj1 (proj2 (@DecryptMessage_stages Fixtures.test_externals
                            Fixtures.test_plist tt [x01]))
              (wrapError "failed to parse body: %w" []
                 (fmtError
                    "too short payload (missing header, expected >4, got %d)"
                    [ArgInt 1]))
              eq_refl)
    as [Hp | [(p & i & Hp & _) | [(p & d & i & Hp & _)
                                  | (p & d & z & i & Hp & _)]]].
  - exact Hp.
  - discriminate.
  - discriminate.
  - discriminate.
Defined.

End envelope_facts.

(* ================================================================== *)
(** ** The message queue of a session *)
(* ================================================================== *)

Module queue_facts.
Import config messaging Props Terms go_facts session_facts.

Section Queue.
Context `{Externals} `{MessagePlist}.

(** The message a call of the handler builds, if decryption does not
    panic, and what the send case returns. *)
Lemma handleAPNSMessage_enqueue now_id now_ts payload s :
  (forall key m, encryption_key s = Some key ->
                 DecryptMessage key (apns.Payload_bytes payload) <> Panic m) ->
  exists msg on_sent,
    handleAPNSMessage now_id now_ts payload s = enqueue s msg on_sent
    /\ Timestamp msg = now_ts
    /\ (on_sent = Ok tt
        \/ exists e, on_sent = Err (wrapError "decryption failed: %w" [] e)).
Proof.
  intros Hnp. unfold handleAPNSMessage.
  destruct (encryption_key s) as [key |].
  - specialize (Hnp key).
    destruct (DecryptMessage key (apns.Payload_bytes payload))
      as [imsg | e | m].
    + eexists. exists (Ok tt). repeat split. left. reflexivity.
    + eexists. eexists. repeat split. right. eauto.
    + exfalso. apply (Hnp m); reflexivity.
  - eexists. exists (Ok tt). repeat split. left. reflexivity.
Qed.

(** The handler on a channel with room. *)
Lemma handleAPNSMessage_room now_id now_ts payload s st :
  messageChan s = Some st ->
  (List.length (chan_buf st) < chan_cap st)%nat ->
  (forall key m, encryption_key s = Some key ->
                 DecryptMessage key (apns.Payload_bytes payload) <> Panic m) ->
  exists msg r,
    handleAPNSMessage now_id now_ts payload s
    = (set_messageChan s
         (Some (mkChan (chan_cap st) (chan_buf st ++ [Some msg]))), r)
    /\ Timestamp msg = now_ts
    /\ (r = Ok tt \/ exists e, r = Err (wrapError "decryption failed: %w" [] e)).
Proof.
  intros Hch Hroom Hnp.
  destruct (handleAPNSMessage_enqueue now_id now_ts payload s Hnp)
    as (msg & on_sent & Heq & Hts & Hr).
  exists msg, on_sent. rewrite Heq. unfold enqueue, try_send. rewrite Hch.
  destruct (Nat.ltb_spec (List.length (chan_buf st)) (chan_cap st)); [| lia].
  repeat split; assumption.
Qed.

(** X17: With a full channel the message is dropped: the session is left as it
    was and the handler reports the full channel. *)
Theorem handler_drops_when_full now_id now_ts payload s st :
  messageChan s = Some st ->
  (chan_cap st <= List.length (chan_buf st))%nat ->
  (forall key m, encryption_key s = Some key ->
                 DecryptMessage key (apns.Payload_bytes payload) <> Panic m) ->
  handleAPNSMessage now_id now_ts payload s
  = (s, Err (fmtError "message channel full" [])).
Proof.
  intros Hch Hfull Hnp.
  destruct (handleAPNSMessage_enqueue now_id now_ts payload s Hnp)
    as (msg & on_sent & Heq & _).
  rewrite Heq. unfold enqueue, try_send. rewrite Hch.
  destruct (Nat.ltb_spec (List.length (chan_buf st)) (chan_cap st));
    [lia | reflexivity].
Qed.

(** X18: The handler changes nothing of the session but the channel, keeps what
    is queued, adds at most one message and never goes beyond the
    capacity. *)
Theorem handler_keeps_bound now_id now_ts payload s :
  let s' := fst (handleAPNSMessage now_id now_ts payload s) in
  registration s' = registration s /\ store s' = store s
  /\ state s' = state s /\ handshaker s' = handshaker s
  /\ (messageChan s = None -> messageChan s' = None)
  /\ (forall st,
        messageChan s = Some st ->
        (List.length (chan_buf st) <= chan_cap st)%nat ->
        exists added,
          messageChan s'
          = Some (mkChan (chan_cap st) (chan_buf st ++ added))
          /\ (List.length added <= 1)%nat
          /\ (List.length (chan_buf st ++ added) <= chan_cap st)%nat).
Proof.
  assert (Henq : forall msg on_sent,
             let s' := fst (enqueue s msg on_sent) in
             registration s' = registration s /\ store s' = store s
             /\ state s' = state s /\ handshaker s' = handshaker s
             /\ (messageChan s = None -> messageChan s' = None)
             /\ (forall st,
                   messageChan s = Some st ->
                   (List.length (chan_buf st) <= chan_cap st)%nat ->
                   exists added,
                     messageChan s'
                     = Some (mkChan (chan_cap st) (chan_buf st ++ added))
                     /\ (List.length added <= 1)%nat
                     /\ (List.length (chan_buf st ++ added) <= chan_cap st)%nat)).
  { intros msg on_sent. unfold enqueue, try_send.
    destruct (messageChan s) as [st |] eqn:Hch.
    - destruct (Nat.ltb_spec (List.length (chan_buf st)) (chan_cap st)).
      + cbn [fst set_messageChan registration store state handshaker
               messageChan].
        repeat split; try discriminate.
        intros st' [= <-] Hb. exists [Some msg].
        repeat split; [cbn; lia | rewrite length_app; cbn; lia].
      + cbn [fst]. repeat split; try discriminate; try assumption.
        intros st' [= <-] Hb.
        exists []. rewrite app_nil_r. destruct st.
        split; [exact Hch | split; [cbn; lia | assumption]].
    - cbn [fst]. repeat split; try assumption; try discriminate.
      intros _. exact Hch. }
  assert (Hid : registration s = registration s /\ store s = store s
                /\ state s = state s /\ handshaker s = handshaker s
                /\ (messageChan s = None -> messageChan s = None)
                /\ (forall st,
                      messageChan s = Some st ->
                      (List.length (chan_buf st) <= chan_cap st)%nat ->
                      exists added,
                        messageChan s
                        = Some (mkChan (chan_cap st) (chan_buf st ++ added))
                        /\ (List.length added <= 1)%nat
                        /\ (List.length (chan_buf st ++ added)
                            <= chan_cap st)%nat)).
  { do 4 (split; [reflexivity |]). split; [tauto |].
    intros st Hst Hb. exists []. rewrite app_nil_r. destruct st.
    repeat split; [assumption | cbn; lia | assumption]. }
  unfold handleAPNSMessage.
  destruct (encryption_key s) as [key |]; [| apply Henq].
  destruct (DecryptMessage key (apns.Payload_bytes payload));
    [apply Henq | apply Henq | exact Hid].
Qed.

(** [FetchMessages] on a session that has a state and a channel. *)
Lemma FetchMessages_queued env s hs st :
  state s = Some hs -> messageChan s = Some st ->
  FetchMessages env s
  = (set_messageChan s (Some (mkChan (chan_cap st) [])),
     Ok (queued (chan_buf st))).
Proof.
  intros Hs Hch. unfold FetchMessages, ensureHandshake.
  rewrite Hs, Hch. cbn [chan_len]. rewrite drain_all by lia. reflexivity.
Qed.

(** X19: A poll empties the channel: it returns what was queued, oldest first,
    and a second poll right after it returns nothing. *)
Theorem FetchMessages_drains env s hs st :
  state s = Some hs -> messageChan s = Some st ->
  let s1 := set_messageChan s (Some (mkChan (chan_cap st) [])) in
  FetchMessages env s = (s1, Ok (queued (chan_buf st)))
  /\ FetchMessages env s1 = (s1, Ok []).
Proof.
  intros Hs Hch. cbv zeta. split.
  - apply (FetchMessages_queued env s hs st Hs Hch).
  - apply (FetchMessages_queued env
             (set_messageChan s (Some (mkChan (chan_cap st) []))) hs
             (mkChan (chan_cap st) []) Hs eq_refl).
Qed.

(** X16: With room in the channel every inbound payload, decrypted or not,
    leaves exactly one message at the end of the queue, stamped with the
    time of arrival; the next poll returns it after the messages that were
    queued before. *)
Theorem handler_queues_one now_id now_ts payload s st :
  messageChan s = Some st ->
  (List.length (chan_buf st) < chan_cap st)%nat ->
  (forall key m, encryption_key s = Some key ->
                 DecryptMessage key (apns.Payload_bytes payload) <> Panic m) ->
  exists msg r,
    handleAPNSMessage now_id now_ts payload s
    = (set_messageChan s
         (Some (mkChan (chan_cap st) (chan_buf st ++ [Some msg]))), r)
    /\ Timestamp msg = now_ts
    /\ (r = Ok tt \/ exists e, r = Err (wrapError "decryption failed: %w" [] e))
    /\ forall env hs,
         state s = Some hs ->
         snd (FetchMessages env
                (fst (handleAPNSMessage now_id now_ts payload s)))
         = Ok (queued (chan_buf st) ++ [msg]).
Proof.
  intros Hch Hroom Hnp.
  destruct (handleAPNSMessage_room now_id now_ts payload s st Hch Hroom Hnp)
    as (msg & r & Heq & Hts & Hr).
  exists msg, r. split; [assumption |]. split; [assumption |].
  split; [assumption |]. intros env hs Hs. rewrite Heq. cbn [fst].
  rewrite (FetchMessages_queued env
             (set_messageChan s
                (Some (mkChan (chan_cap st) (chan_buf st ++ [Some msg]))))
             hs (mkChan (chan_cap st) (chan_buf st ++ [Some msg]))
             Hs eq_refl).
  cbn [snd chan_buf]. unfold queued. rewrite flat_map_app. reflexivity.
Qed.

End Queue.

Lemma sample_payload_no_panic (key : @PrivateKey Fixtures.test_externals) m :
  @DecryptMessage Fixtures.test_externals Fixtures.test_plist key []
  <> Panic m.
Proof. discriminate. Qed.

Lemma handler_queues_one_witness :
  exists msg r,
    @handleAPNSMessage Fixtures.test_externals Fixtures.test_plist 7 8
      (apns.mkSendMessagePayload [x63] []) Samples.sample_session
    = (set_messageChan Samples.sample_session
         (Some (mkChan 2 [Some Samples.sample_message; Some msg])), r)
    /\ Timestamp msg = 8.
Proof.
  destruct (@handler_queues_one Fixtures.test_externals Fixtures.test_plist
              7 8 (apns.mkSendMessagePayload [x63] []) Samples.sample_session
              (mkChan 2 [Some Samples.sample_message]) eq_refl
              ltac:(cbn; lia)
              ltac:(intros key m _; apply sample_payload_no_panic))
    as (msg & r & Hh & Hts & _).
  exists msg, r. split; [exact Hh | exact Hts].
Defined.

Lemma handler_drops_when_full_witness :
  @handleAPNSMessage Fixtures.test_externals Fixtures.test_plist 7 8
    (apns.mkSendMessagePayload [x63] [])
    (set_messageChan Samples.sample_session
       (Some (mkChan 1 [Some Samples.sample_message])))
  = (set_messageChan Samples.sample_session
       (Some (mkChan 1 [Some Samples.sample_message])),
     Err (fmtError "message channel full" [])).
Proof.
  apply (@handler_drops_when_full Fixtures.test_externals Fixtures.test_plist
           7 8 (apns.mkSendMessagePayload [x63] [])
           (set_messageChan Samples.sample_session
              (Some (mkChan 1 [Some Samples.sample_message])))
           (mkChan 1 [Some Samples.sample_message]) eq_refl).
  - cbn. lia.
  - intros key m _. apply sample_payload_no_panic.
Defined.

Lemma handler_keeps_bound_witness :
  exists added,
    messageChan
      (fst (@handleAPNSMessage Fixtures.test_externals Fixtures.test_plist 7 8
              (apns.mkSendMessagePayload [x63] []) Samples.sample_session))
    = Some (mkChan 2 ([Some Samples.sample_message] ++ added))
    /\ (List.length added <= 1)%nat.
Proof.
  destruct (@handler_keeps_bound Fixtures.test_externals Fixtures.test_plist
              7 8 (apns.mkSendMessagePayload [x63] []) Samples.sample_session)
    as (_ & _ & _ & _ & _ & Hb).
  destruct (Hb (mkChan 2 [Some Samples.sample_message]) eq_refl
              ltac:(cbn; lia)) as (added & Hc & Hl & _).
  exists added. split; [exact Hc | exact Hl].
Defined.

Lemma FetchMessages_drains_witness :
  @FetchMessages Fixtures.test_externals Samples.sample_handshake_env
    Samples.sample_session
  = (set_messageChan Samples.sample_session (Some (mkChan 2 [])),
     Ok [Samples.sample_message]).
Proof.
  apply (proj1 (@FetchMessages_drains Fixtures.test_externals
                  Samples.sample_handshake_env
                  Samples.sample_session Fixtures.test_state
                  (mkChan 2 [Some Samples.sample_message]) eq_refl eq_refl)).
Defined.

End queue_facts.

(* ================================================================== *)
(** ** The last-seen store *)
(* ================================================================== *)

Module store_facts.
Import config messaging Props Terms go_facts.

Lemma map_get_set_same {V} (m : list (string * V)) k v :
  map_get (map_set m k v) k = Some v.
Proof.
  induction m as [| [k' v'] m IH]; cbn.
  - rewrite String.eqb_refl. reflexivity.
  - destruct (String.eqb k' k) eqn:E; cbn.
    + rewrite String.eqb_refl. reflexivity.
    + rewrite E. exact IH.
Qed.

Lemma map_get_set_other {V} (m : list (string * V)) k v k' :
  k' <> k -> map_get (map_set m k v) k' = map_get m k'.
Proof.
  intros Hne. induction m as [| [k0 v0] m IH]; cbn.
  - destruct (String.eqb_spec k k'); [congruence | reflexivity].
  - destruct (String.eqb_spec k0 k) as [-> | Hk]; cbn.
    + destruct (String.eqb_spec k k'); [congruence | reflexivity].
    + destruct (String.eqb_spec k0 k'); [reflexivity | exact IH].
Qed.

Lemma map_set_keys_in {V} (m : list (string * V)) k v k' :
  In k' (map fst (map_set m k v)) <-> k' = k \/ In k' (map fst m).
Proof.
  induction m as [| [k0 v0] m IH]; cbn.
  - intuition congruence.
  - destruct (String.eqb_spec k0 k) as [-> | Hk]; cbn.
    + intuition congruence.
    + rewrite IH. intuition congruence.
Qed.

Lemma map_get_in {V} (m : list (string * V)) k :
  map_get m k <> None <-> In k (map fst m).
Proof.
  induction m as [| [k0 v0] m IH]; cbn.
  - intuition congruence.
  - destruct (String.eqb_spec k0 k) as [-> | Hk].
    + split; [auto | discriminate].
    + rewrite IH. intuition congruence.
Qed.

Lemma map_set_unique {V} (m : list (string * V)) k v :
  unique_keys m -> unique_keys (map_set m k v).
Proof.
  unfold unique_keys. induction m as [| [k0 v0] m IH]; cbn; intros Hnd.
  - constructor; [intros [] | constructor].
  - inversion Hnd as [| ? ? Hnotin Hnd']; subst.
    destruct (String.eqb_spec k0 k) as [-> | Hk]; cbn.
    + constructor; assumption.
    + constructor; [| apply IH; assumption].
      rewrite map_set_keys_in. intuition congruence.
Qed.

(** X20: [SetLastSeen] refuses the empty chat and leaves the store alone;
    otherwise [LastSeen] returns for that chat the time just set, and for
    every other chat what it returned before. *)
Theorem SetLastSeen_LastSeen st chat ts :
  (chat = "" ->
   SetLastSeen st chat ts = (st, Err (errorString "chat identifier is empty")))
  /\ (chat <> "" ->
      exists st',
        SetLastSeen st chat ts = (st', Ok tt)
        /\ LastSeen st' chat = ts
        /\ forall other,
             other <> chat -> LastSeen st' other = LastSeen st other).
Proof.
  unfold SetLastSeen, LastSeen. split.
  - intros ->. reflexivity.
  - intros Hne. destruct (String.eqb_spec chat ""); [contradiction |].
    eexists. split; [reflexivity |]. split.
    + rewrite map_get_set_same. reflexivity.
    + intros other Ho. rewrite map_get_set_other by assumption. reflexivity.
Qed.

(** The first loop of [updateStore]: the map built has pairwise different
    keys, and holds for the chat of every message a time that is not
    before the message. *)
Lemma chatLatest_unique msgs acc :
  unique_keys acc -> unique_keys (fold_left chatLatest_add msgs acc).
Proof.
  revert acc. induction msgs as [| m msgs IH]; intros acc Hu; cbn;
    [assumption |].
  apply IH. unfold chatLatest_add.
  destruct (map_get acc (Chat m)) as [existing |].
  - destruct (Time_After (Timestamp m) existing);
      [apply map_set_unique |]; assumption.
  - apply map_set_unique; assumption.
Qed.

Lemma chatLatest_add_mono acc m k t :
  map_get acc k = Some t ->
  exists t', map_get (chatLatest_add acc m) k = Some t' /\ t <= t'.
Proof.
  intros Hk. unfold chatLatest_add.
  destruct (String.eqb_spec k (Chat m)) as [-> | Hne].
  - rewrite Hk. unfold Time_After.
    destruct (Z.ltb_spec t (Timestamp m)).
    + rewrite map_get_set_same. eexists. split; [reflexivity | lia].
    + exists t. split; [assumption | lia].
  - destruct (map_get acc (Chat m)) as [existing |].
    + destruct (Time_After (Timestamp m) existing).
      * rewrite map_get_set_other by assumption. exists t.
        split; [assumption | lia].
      * exists t. split; [assumption | lia].
    + rewrite map_get_set_other by assumption. exists t.
      split; [assumption | lia].
Qed.

Lemma chatLatest_mono msgs acc k t :
  map_get acc k = Some t ->
  exists t', map_get (fold_left chatLatest_add msgs acc) k = Some t' /\ t <= t'.
Proof.
  revert acc t. induction msgs as [| m msgs IH]; intros acc t Hk; cbn.
  - exists t. split; [assumption | lia].
  - destruct (chatLatest_add_mono acc m k t Hk) as (t1 & H1 & Hle1).
    destruct (IH _ _ H1) as (t2 & H2 & Hle2).
    exists t2. split; [assumption | lia].
Qed.

Lemma chatLatest_add_covers acc m :
  exists t,
    map_get (chatLatest_add acc m) (Chat m) = Some t /\ Timestamp m <= t.
Proof.
  unfold chatLatest_add.
  destruct (map_get acc (Chat m)) as [existing |] eqn:E.
  - unfold Time_After. destruct (Z.ltb_spec existing (Timestamp m)).
    + rewrite map_get_set_same. eexists. split; [reflexivity | lia].
    + exists existing. split; [assumption | lia].
  - rewrite map_get_set_same. eexists. split; [reflexivity | lia].
Qed.

Lemma chatLatest_covers msgs acc m :
  In m msgs ->
  exists t, map_get (fold_left chatLatest_add msgs acc) (Chat m) = Some t
            /\ Timestamp m <= t.
Proof.
  revert acc. induction msgs as [| m0 msgs IH]; intros acc Hin;
    [destruct Hin |].
  destruct Hin as [-> | Hin]; cbn.
  - destruct (chatLatest_add_covers acc m) as (t & Ht & Hle).
    destruct (chatLatest_mono msgs _ _ _ Ht) as (t' & Ht' & Hle').
    exists t'. split; [assumption | lia].
  - apply IH. assumption.
Qed.

(** The second loop: a store that took every entry holds each of them. *)
Lemma store_all_other entries st st' r k :
  store_all st entries = (st', r) -> ~ In k (map fst entries) ->
  map_get st' k = map_get st k.
Proof.
  revert st. induction entries as [| [chat ts] rest IH]; intros st; cbn.
  - intros [= <- _] _. reflexivity.
  - intros Hs Hnot. unfold SetLastSeen in Hs.
    destruct (String.eqb chat "").
    + injection Hs as <- _. reflexivity.
    + rewrite (IH _ Hs) by tauto.
      apply map_get_set_other. intros ->. tauto.
Qed.

Lemma store_all_holds entries st st' k v :
  unique_keys entries -> store_all st entries = (st', Ok tt) ->
  map_get entries k = Some v -> map_get st' k = Some v.
Proof.
  unfold unique_keys.
  revert st. induction entries as [| [chat ts] rest IH]; intros st; cbn;
    [discriminate |].
  intros Hnd Hs Hk. inversion Hnd as [| ? ? Hnotin Hnd']; subst.
  unfold SetLastSeen in Hs. destruct (String.eqb chat ""); [discriminate |].
  destruct (String.eqb_spec chat k) as [-> | Hne].
  - injection Hk as <-.
    rewrite (store_all_other _ _ _ _ k Hs Hnotin). apply map_get_set_same.
  - apply (IH _ Hnd' Hs Hk).
Qed.

Lemma store_all_fails entries st st' e :
  store_all st entries = (st', Err e) ->
  e = errorString "chat identifier is empty" /\ In "" (map fst entries).
Proof.
  revert st. induction entries as [| [chat ts] rest IH]; intros st; cbn;
    [discriminate |].
  unfold SetLastSeen. destruct (String.eqb_spec chat "") as [-> | Hne].
  - intros [= _ <-]. split; [reflexivity | left; reflexivity].
  - intros Hs. destruct (IH _ Hs) as [He Hin].
    split; [assumption | right; assumption].
Qed.

Lemma store_all_fails_origin entries st st' e :
  store_all st entries = (st', Err e) ->
  exists st0 chat ts,
    In (chat, ts) entries /\ snd (SetLastSeen st0 chat ts) = Err e.
Proof.
  revert st. induction entries as [| [chat ts] rest IH]; intros st; cbn;
    [discriminate |].
  destruct (SetLastSeen st chat ts) as [st1 [[] | e1 | m1]] eqn:E.
  - intros Hs. destruct (IH _ Hs) as (st0 & c & t & Hin & He).
    exists st0, c, t. split; [right; assumption | assumption].
  - intros [= _ <-]. exists st, chat, ts.
    split; [left; reflexivity | rewrite E; reflexivity].
  - discriminate.
Qed.

Lemma map_get_of_in {V} (m : list (string * V)) k v :
  unique_keys m -> In (k, v) m -> map_get m k = Some v.
Proof.
  unfold unique_keys. induction m as [| [k0 v0] m IH]; cbn; [tauto |].
  intros Hnd. inversion Hnd as [| ? ? Hnotin Hnd']; subst.
  intros [[= -> ->] | Hin].
  - rewrite String.eqb_refl. reflexivity.
  - destruct (String.eqb_spec k0 k) as [-> | Hne].
    + exfalso. apply Hnotin. apply in_map_iff. exists (k, v).
      split; [reflexivity | assumption].
    + apply IH; assumption.
Qed.

Lemma store_all_no_panic entries st st' m :
  store_all st entries <> (st', Panic m).
Proof.
  revert st. induction entries as [| [chat ts] rest IH]; intros st; cbn;
    [discriminate |].
  unfold SetLastSeen. destruct (String.eqb chat ""); [discriminate | apply IH].
Qed.

Lemma chatLatest_from msgs acc k t :
  map_get (fold_left chatLatest_add msgs acc) k = Some t ->
  map_get acc k = Some t
  \/ exists m, In m msgs /\ Chat m = k /\ Timestamp m = t.
Proof.
  revert acc. induction msgs as [| m msgs IH]; intros acc; cbn; [tauto |].
  intros Hk. destruct (IH _ Hk) as [Hacc | (m' & Hin & Hc & Ht)];
    [| right; exists m'; tauto].
  unfold chatLatest_add in Hacc.
  assert (Hset : map_get (map_set acc (Chat m) (Timestamp m)) k = Some t ->
                 map_get acc k = Some t
                 \/ exists m0, (m = m0 \/ In m0 msgs) /\ Chat m0 = k
                               /\ Timestamp m0 = t).
  { destruct (String.eqb_spec k (Chat m)) as [-> | Hne].
    - rewrite map_get_set_same. intros [= <-]. right. exists m. tauto.
    - rewrite map_get_set_other by assumption. tauto. }
  destruct (map_get acc (Chat m)) as [existing |];
    [destruct (Time_After (Timestamp m) existing) |]; auto.
Qed.

Lemma chatLatest_keys msgs acc k :
  In k (map fst (fold_left chatLatest_add msgs acc)) ->
  In k (map fst acc) \/ In k (map Chat msgs).
Proof.
  revert acc. induction msgs as [| m msgs IH]; intros acc; cbn; [tauto |].
  intros Hin. destruct (IH _ Hin) as [Hacc | Hms]; [| tauto].
  unfold chatLatest_add in Hacc.
  destruct (map_get acc (Chat m)) as [existing |];
    [destruct (Time_After (Timestamp m) existing) |];
    try (apply map_set_keys_in in Hacc; destruct Hacc as [-> | Hacc]);
    tauto.
Qed.

Lemma filter_none {A} (f : A -> bool) l :
  (forall x, In x l -> f x = false) -> filter f l = [].
Proof.
  induction l as [| a l IH]; cbn; intros Hf; [reflexivity |].
  rewrite (Hf a) by (left; reflexivity). apply IH. intros x Hx.
  apply Hf. right. assumption.
Qed.

Section Session.
Context `{Externals}.

(** The store after a successful [updateStore]: a chat of the batch has
    the time of its latest message in the batch, every other chat the time
    it had. *)
Lemma updateStore_store (s s' : Session) msgs :
  updateStore s msgs = (s', Ok tt) ->
  registration s' = registration s /\ state s' = state s
  /\ messageChan s' = messageChan s
  /\ (forall m, In m msgs ->
        exists m0, In m0 msgs /\ Chat m0 = Chat m
                   /\ LastSeen (store s') (Chat m) = Timestamp m0
                   /\ Timestamp m <= Timestamp m0)
  /\ (forall chat, ~ In chat (map Chat msgs) ->
                   LastSeen (store s') chat = LastSeen (store s) chat).
Proof.
  unfold updateStore.
  destruct (store_all (store s) (fold_left chatLatest_add msgs []))
    as [st r] eqn:Hs.
  intros [= <- ->]. cbn [registration state messageChan store set_store].
  do 3 (split; [reflexivity |]). split.
  - intros m Hin.
    destruct (chatLatest_covers msgs [] m Hin) as (t & Ht & Hle).
    assert (Hu : unique_keys (fold_left chatLatest_add msgs []))
      by (apply chatLatest_unique; constructor).
    destruct (chatLatest_from _ _ _ _ Ht) as [Hn | (m0 & Hin0 & Hc0 & Ht0)];
      [discriminate |].
    exists m0. unfold LastSeen. rewrite (store_all_holds _ _ _ _ _ Hu Hs Ht).
    repeat split; try assumption; [symmetry; assumption | lia].
  - intros chat Hnot. unfold LastSeen.
    rewrite (store_all_other _ _ _ _ chat Hs); [reflexivity |].
    intros Hin. destruct (chatLatest_keys _ _ _ Hin) as [[] | Hin']. tauto.
Qed.

(** X21: Once [updateStore] has recorded a batch of messages, [filterUnread]
    finds none of that batch unread. *)
Theorem updateStore_marks_read (s s' : Session) msgs :
  updateStore s msgs = (s', Ok tt) -> filterUnread s' msgs = [].
Proof.
  intros Hu. apply updateStore_store in Hu.
  destruct Hu as (_ & _ & _ & Hin & _).
  unfold filterUnread. apply filter_none. intros m Hm.
  destruct (Hin m Hm) as (m0 & _ & _ & -> & Hle).
  unfold Time_After. apply Z.ltb_ge. assumption.
Qed.

Lemma updateStore_result (s s' : Session) msgs r :
  updateStore s msgs = (s', r) ->
  r = Ok tt
  \/ r = Err (errorString "chat identifier is empty") /\ In "" (map Chat msgs).
Proof.
  unfold updateStore.
  destruct (store_all (store s) (fold_left chatLatest_add msgs []))
    as [st r0] eqn:Hs.
  intros [= _ <-]. destruct r0 as [[] | e | m].
  - left. reflexivity.
  - right. destruct (store_all_fails _ _ _ _ Hs) as [-> Hin].
    split; [reflexivity |].
    destruct (chatLatest_keys _ _ _ Hin) as [[] | Hin']. assumption.
  - exfalso. exact (store_all_no_panic _ _ _ _ Hs).
Qed.

Lemma updateStore_frame (s : Session) msgs :
  registration (fst (updateStore s msgs)) = registration s
  /\ state (fst (updateStore s msgs)) = state s
  /\ messageChan (fst (updateStore s msgs)) = messageChan s.
Proof.
  unfold updateStore.
  destruct (store_all (store s) (fold_left chatLatest_add msgs [])).
  repeat split.
Qed.

(** A failure of [updateStore] is a failure of [SetLastSeen], called with
    the chat and the time of a message of the batch. *)
Lemma updateStore_fails_origin (s s' : Session) msgs e :
  updateStore s msgs = (s', Err e) ->
  exists m st0,
    In m msgs /\ snd (SetLastSeen st0 (Chat m) (Timestamp m)) = Err e.
Proof.
  unfold updateStore.
  destruct (store_all (store s) (fold_left chatLatest_add msgs []))
    as [st r] eqn:Hs.
  intros [= _ ->].
  destruct (store_all_fails_origin _ _ _ _ Hs) as (st0 & chat & ts & Hin & He).
  assert (Hu : unique_keys (fold_left chatLatest_add msgs []))
    by (apply chatLatest_unique; constructor).
  pose proof (map_get_of_in _ _ _ Hu Hin) as Hget.
  destruct (chatLatest_from _ _ _ _ Hget) as [Hn | (m & Hm & Hc & Ht)];
    [discriminate |].
  exists m, st0. rewrite Hc, Ht. split; assumption.
Qed.

(** X22: [updateStore] touches only the store: registration, handshake state
    and channel stay, and chats of which the batch has no message keep their
    last-seen time, whether it succeeds or fails.  When it succeeds, the
    last-seen time of the chat of every message of the batch is not before
    that message.  When it fails, its error is the error [SetLastSeen]
    returned for the chat and the time of a message of the batch; with the
    in-memory store [MemoryStore], whose [SetLastSeen] has one error only,
    that is the empty-chat error, and the batch has a message with an empty
    chat. *)
Theorem updateStore_outcomes (s : Session) msgs :
  let (s', r) := updateStore s msgs in
  registration s' = registration s /\ state s' = state s
  /\ messageChan s' = messageChan s
  /\ (forall chat, ~ In chat (map Chat msgs) ->
                   LastSeen (store s') chat = LastSeen (store s) chat)
  /\ match r with
     | Ok _ =>
         forall m, In m msgs -> Timestamp m <= LastSeen (store s') (Chat m)
     | Err e =>
         (exists m st0,
            In m msgs
            /\ snd (SetLastSeen st0 (Chat m) (Timestamp m)) = Err e)
         /\ e = errorString "chat identifier is empty"
         /\ In "" (map Chat msgs)
     | Panic _ => False
     end.
Proof.
  pose proof (updateStore_frame s msgs) as Hframe.
  destruct (updateStore s msgs) as [s' r] eqn:Hu. cbn [fst] in Hframe.
  destruct Hframe as (Hr & Hst & Hch).
  do 3 (split; [assumption |]). split.
  - intros chat Hnot. unfold updateStore in Hu.
    destruct (store_all (store s) (fold_left chatLatest_add msgs []))
      as [st r0] eqn:Hs.
    injection Hu as <- _. cbn [store set_store]. unfold LastSeen.
    rewrite (store_all_other _ _ _ _ chat Hs); [reflexivity |].
    intros Hin. destruct (chatLatest_keys _ _ _ Hin) as [[] | Hin']. tauto.
  - destruct r as [[] | e | m].
    + intros m Hm.
      destruct (updateStore_store s s' msgs Hu) as (_ & _ & _ & Hbatch & _).
      destruct (Hbatch m Hm) as (m0 & _ & _ & -> & Hle). assumption.
    + split; [exact (updateStore_fails_origin s s' msgs e Hu) |].
      destruct (updateStore_result s s' msgs _ Hu) as [Hok | [He Hin]];
        [discriminate |].
      injection He as ->. split; [reflexivity | assumption].
    + destruct (updateStore_result s s' msgs _ Hu) as [Hok | [He _]];
        discriminate.
Qed.

End Session.

Lemma SetLastSeen_LastSeen_witness :
  exists st',
    SetLastSeen [("bob", 3)] "alice" 5 = (st', Ok tt)
    /\ LastSeen st' "alice" = 5 /\ LastSeen st' "bob" = 3.
Proof.
  destruct (proj2 (SetLastSeen_LastSeen [("bob", 3)] "alice" 5)
              ltac:(discriminate)) as (st' & Hs & Hl & Ho).
  exists st'. split; [exact Hs |]. split; [exact Hl |].
  rewrite (Ho "bob" ltac:(discriminate)). reflexivity.
Defined.

Lemma updateStore_marks_read_witness :
  @filterUnread Fixtures.test_externals
    (fst (@updateStore Fixtures.test_externals Samples.sample_session
            [Samples.sample_message]))
    [Samples.sample_message]
  = [].
Proof.
  apply (@updateStore_marks_read Fixtures.test_externals
           Samples.sample_session). reflexivity.
Defined.

Lemma updateStore_outcomes_witness :
  LastSeen
    (store (fst (@updateStore Fixtures.test_externals Samples.sample_session
                   [Samples.sample_message]))) "bob"
  = LastSeen (store Samples.sample_session) "bob".
Proof.
  destruct (@updateStore_outcomes Fixtures.test_externals
              Samples.sample_session [Samples.sample_message])
    as (_ & _ & _ & Hother & _).
  apply Hother. intros [Hb | []]. discriminate.
Defined.

End store_facts.

(* ================================================================== *)
(** ** Unread messages *)
(* ================================================================== *)

Module unread_facts.
Import config messaging Props Terms go_facts session_facts queue_facts
  store_facts.

Section Unread.
Context `{Externals} `{MessagePlist}.

(** X23: [FetchUnread] on a session with a state and a channel empties the
    channel, whether it succeeds or fails.  When it succeeds it reports the
    queued messages that are later than the last-seen time of their chat,
    in the order of arrival, and against the store it leaves behind none of
    the queued messages is unread any more, so that nothing is reported
    twice.  When it fails, its error is the error [SetLastSeen] returned for
    the chat and the time of an unread message; with the in-memory store
    [MemoryStore] that is the empty-chat error, and an unread message has
    an empty chat. *)
Theorem FetchUnread_reports_once env s hs st :
  state s = Some hs -> messageChan s = Some st ->
  let msgs := queued (chan_buf st) in
  let (s', r) := FetchUnread env s in
  messageChan s' = Some (mkChan (chan_cap st) [])
  /\ match r with
     | Ok summaries =>
         summaries = map ToSummary (filterUnread s msgs)
         /\ filterUnread s' msgs = []
     | Err e =>
         (exists m st0,
            In m (filterUnread s msgs)
            /\ snd (SetLastSeen st0 (Chat m) (Timestamp m)) = Err e)
         /\ e = errorString "chat identifier is empty"
         /\ In "" (map Chat (filterUnread s msgs))
     | Panic _ => False
     end.
Proof.
  intros Hs Hch. cbv zeta. unfold FetchUnread, ensureHandshake. rewrite Hs.
  rewrite (FetchMessages_queued env s hs st Hs Hch).
  set (s1 := set_messageChan s (Some (mkChan (chan_cap st) []))).
  set (msgs := queued (chan_buf st)).
  change (filterUnread s1 msgs) with (filterUnread s msgs).
  set (unread := filterUnread s msgs).
  pose proof (updateStore_frame s1 unread) as Hframe.
  destruct (updateStore s1 unread) as [s2 r] eqn:Hu. cbn [fst] in Hframe.
  destruct Hframe as (_ & _ & Hc2).
  destruct r as [[] | e | m].
  2:{ split; [rewrite Hc2; reflexivity |].
      split; [exact (updateStore_fails_origin s1 s2 unread e Hu) |].
      destruct (updateStore_result s1 s2 unread _ Hu) as [Hok | [He Hin]];
        [discriminate |].
      injection He as ->. split; [reflexivity | assumption]. }
  2:{ destruct (updateStore_result s1 s2 unread _ Hu) as [Hok | [He _]];
        discriminate. }
  destruct (updateStore_store s1 s2 unread Hu)
    as (_ & _ & _ & Hbatch & Hother).
  split; [rewrite Hc2; reflexivity |]. split; [reflexivity |].
  unfold filterUnread at 1. apply filter_none. intros m Hm.
  unfold Time_After. apply Z.ltb_ge.
  assert (Hold : In m unread \/ Timestamp m <= LastSeen (store s) (Chat m)).
  { unfold unread, filterUnread. rewrite filter_In. unfold Time_After.
    destruct (Z.ltb_spec (LastSeen (store s) (Chat m)) (Timestamp m));
      [left; split; [assumption | reflexivity] | right; assumption]. }
  destruct Hold as [Hin | Hle].
  - destruct (Hbatch m Hin) as (m0 & _ & _ & -> & Hle). assumption.
  - destruct (in_dec string_dec (Chat m) (map Chat unread)) as [Hc | Hc].
    + apply in_map_iff in Hc. destruct Hc as (m1 & Hc1 & Hin1).
      destruct (Hbatch m1 Hin1) as (m0 & Hin0 & Hc0 & Hl & Hle0).
      rewrite <- Hc1, Hl.
      assert (Hnew : LastSeen (store s) (Chat m1) < Timestamp m1).
      { unfold unread, filterUnread in Hin1. apply filter_In in Hin1.
        destruct Hin1 as [_ Hlt]. unfold Time_After in Hlt.
        apply Z.ltb_lt in Hlt. assumption. }
      rewrite Hc1 in Hnew. lia.
    + rewrite (Hother _ Hc). assumption.
Qed.

End Unread.

Lemma FetchUnread_reports_once_witness :
  @filterUnread Fixtures.test_externals
    (fst (@FetchUnread Fixtures.test_externals Samples.sample_handshake_env
            Samples.sample_session))
    [Samples.sample_message]
  = [].
Proof.
  generalize (@FetchUnread_reports_once Fixtures.test_externals
                Samples.sample_handshake_env
                Samples.sample_session Fixtures.test_state
                (mkChan 2 [Some Samples.sample_message]) eq_refl eq_refl).
  cbv zeta.
  destruct (@FetchUnread Fixtures.test_externals Samples.sample_handshake_env
              Samples.sample_session)
    as [s' [sums | e | m]] eqn:E.
  - intros (_ & _ & Hf). exact Hf.
  - vm_compute in E. discriminate.
  - intros (_ & []).
Defined.

End unread_facts.

(* ================================================================== *)
(** ** Handshake, client and IDS requests *)
(* ================================================================== *)

Module handshake_facts.
Import config messaging Props Terms go_facts session_facts store_facts.

Lemma or_default_nonempty s d : d <> "" -> ids.or_default s d <> "".
Proof.
  intros Hd. unfold ids.or_default.
  destruct (String.eqb_spec s ""); assumption.
Qed.

Lemma len_zero_nil {A} (l : list A) : (len l =? 0) = false -> l <> [].
Proof. intros Hl ->. discriminate. Qed.

Section Handshake.
Context `{Externals} `{MessagePlist}.

Lemma ensureHandshake_frame env s :
  fst (ensureHandshake env s)
  = set_state s (state (fst (ensureHandshake env s))).
Proof.
  unfold ensureHandshake. destruct (state s) as [hs |] eqn:Hs.
  - destruct s; unfold set_state; cbn in *; subst; reflexivity.
  - destruct (handshaker s) as [h |];
      [destruct (Handshake h env (registration s)) |];
      try reflexivity; destruct s; unfold set_state; cbn in *; subst;
      reflexivity.
Qed.

Lemma Connect_session now reg store s :
  Connect now reg store = Ok s ->
  exists r,
    reg = Some r /\ ValidationData r <> [] /\ now <= ValidUntil r
    /\ s = mkSession reg (match store with
                          | Some st => st
                          | None => []
                          end)
             None (Some RealHandshaker) None.
Proof.
  unfold Connect, IsExpired, Time_After.
  destruct reg as [r |]; [| discriminate].
  destruct (len (ValidationData r) =? 0) eqn:Hv; [discriminate |].
  destruct (Z.ltb_spec (ValidUntil r) now); [discriminate |].
  intros [= <-]. exists r. split; [reflexivity |].
  split; [apply len_zero_nil; assumption |]. split; [lia |].
  destruct store; reflexivity.
Qed.

(** X24: [ensureHandshake] runs the handshake at most once: a session that has a
    state is returned as it is, without a call of the handshaker; a
    handshake that succeeds only sets the state, and every later call
    returns at once; a handshake that fails leaves the session as it was. *)
Theorem ensureHandshake_once env s :
  let (s1, r) := ensureHandshake env s in
  match r with
  | Ok _ =>
      state s1 <> None /\ s1 = set_state s (state s1)
      /\ (state s <> None -> s1 = s)
      /\ forall env', ensureHandshake env' s1 = (s1, Ok tt)
  | _ => s1 = s /\ state s = None
  end.
Proof.
  unfold ensureHandshake. destruct (state s) as [hs |] eqn:Hs.
  - split; [try rewrite Hs; discriminate |].
    split; [destruct s; unfold set_state; cbn in *; subst; reflexivity |].
    split; [reflexivity |].
    intros env'. try rewrite Hs. reflexivity.
  - destruct (handshaker s) as [h |]; [| split; reflexivity].
    destruct (Handshake h env (registration s)) as [hs | e | m];
      [| split; reflexivity ..].
    cbn [state set_state].
    split; [discriminate |]. split; [reflexivity |].
    split; [try rewrite Hs; intros Hn; exfalso; apply Hn; reflexivity |].
    intros env'. reflexivity.
Qed.

(** What a successful handshake of [RealHandshaker] returns. *)
Lemma RealHandshaker_inv env reg st :
  RealHandshaker_Handshake env reg = Ok st ->
  exists r signingKey encryptionKey pushKey authKey registerResp
         service services user users der idCert,
    reg = Some r /\ ValidationData r <> []
    /\ gen_idsSigningKey env = Ok signingKey
    /\ gen_idsEncryptionKey env = Ok encryptionKey
    /\ gen_pushKey env = Ok pushKey
    /\ gen_authPrivateKey env = Ok authKey
    /\ ids.Services registerResp = service :: services
    /\ ids.Users service = user :: users
    /\ ids.User_Cert user = Some der
    /\ x509_ParseCertificate env der = Ok idCert
    /\ st = mkHandshakeState (ValidationData r) (Device r)
              (Some (ids.mkConfig (ids.UserID user) (Some authKey)
                       [(ids.UserID user, ids.mkAuthIDCertPair (Some idCert))]
                       (Some pushKey) (Some encryptionKey) (Some signingKey)
                       (uuid_New env)
                       (ids.or_default (config.HardwareVersion (Device r))
                          "MacBookPro18,1")
                       (ids.or_default (config.SoftwareName (Device r)) "macOS")
                       (ids.or_default (config.SoftwareVersion (Device r))
                          "13.4.1")
                       (ids.or_default (config.SoftwareBuildID (Device r))
                          "22F82")))
              (Some (apns.NewConnection (Some pushKey) None [])).
Proof.
  unfold RealHandshaker_Handshake. destruct reg as [r |]; [| discriminate].
  destruct (len (ValidationData r) =? 0) eqn:Hv; [discriminate |].
  destruct (gen_idsSigningKey env) as [sk | |]; cbn [wrap bind];
    try discriminate.
  destruct (gen_idsEncryptionKey env) as [ek | |]; cbn [wrap bind];
    try discriminate.
  destruct (gen_pushKey env) as [pk | |]; cbn [wrap bind]; try discriminate.
  destruct (gen_authPrivateKey env) as [ak | |]; cbn [wrap bind];
    try discriminate.
  destruct (ids.Register _ _ _) as [resp | |]; cbn [wrap bind];
    try discriminate.
  unfold Handshake_finish.
  destruct (ids.Services resp) as [| service services] eqn:Hsv;
    [discriminate |].
  destruct (ids.Users service) as [| user users] eqn:Hus; [discriminate |].
  destruct (ids.User_Cert user) as [der |] eqn:Hc; [| discriminate].
  destruct (x509_ParseCertificate env der) as [idCert | |] eqn:Hx;
    cbn [wrap bind]; try discriminate.
  intros [= <-].
  exists r, sk, ek, pk, ak, resp, service, services, user, users, der, idCert.
  repeat split; try assumption; try reflexivity.
  apply len_zero_nil. assumption.
Qed.

(** X25: After a successful handshake of [RealHandshaker] the state carries the
    validation data of the registration, a configuration with the generated
    encryption key, non-empty device strings and the parsed certificate
    filed under the profile, and a connection without certificate and
    without token: [startAPNS] on it fails before any dial, whatever the
    environment. *)
Theorem RealHandshaker_success env reg st :
  RealHandshaker_Handshake env reg = Ok st ->
  exists r cfg c key cert,
    reg = Some r /\ HS_ValidationData st = ValidationData r
    /\ ValidationData r <> []
    /\ IDSConfig st = Some cfg /\ APNSConn st = Some c
    /\ gen_idsEncryptionKey env = Ok key
    /\ ids.IDSEncryptionKey cfg = Some key
    /\ map_get (ids.AuthIDCertPairs cfg) (ids.ProfileID cfg)
       = Some (ids.mkAuthIDCertPair (Some cert))
    /\ ids.HardwareVersion cfg <> "" /\ ids.SoftwareName cfg <> ""
    /\ ids.SoftwareVersion cfg <> "" /\ ids.SoftwareBuildID cfg <> ""
    /\ apns.privateKey c = ids.PushKey cfg
    /\ apns.deviceCert c = None /\ apns.token c = [] /\ apns.conn c = None
    /\ forall cenv s,
         state s = Some st ->
         encryption_key s = Some key
         /\ snd (startAPNS cenv s)
            = Err (fmtError "missing push certificate or key" []).
Proof.
  intros Hh.
  destruct (RealHandshaker_inv env reg st Hh)
    as (r & sk & ek & pk & ak & resp & service & services & user & users
        & der & idCert & -> & Hv & Hsk & Hek & Hpk & Hak & _ & _ & _ & _ & ->).
  eexists r, _, _, ek, idCert.
  cbn [HS_ValidationData IDSConfig APNSConn].
  repeat match goal with
         | |- _ /\ _ => split
         end; try reflexivity; try assumption;
    try (apply or_default_nonempty; discriminate).
  - cbn. rewrite String.eqb_refl. reflexivity.
  - intros cenv s Hst. split.
    + unfold encryption_key. rewrite Hst. reflexivity.
    + unfold startAPNS. rewrite Hst. reflexivity.
Qed.

(** X26: [Connect] succeeds exactly on a registration with validation data whose
    valid-until time has not passed, the time itself included; the session
    then holds the store handed in, or a fresh empty one, has no state and
    no channel, and uses [RealHandshaker]. *)
Theorem Connect_succeeds_iff now reg store s :
  Connect now reg store = Ok s
  <-> exists r,
        reg = Some r /\ ValidationData r <> [] /\ now <= ValidUntil r
        /\ s = mkSession reg (match store with
                              | Some st => st
                              | None => []
                              end)
                 None (Some RealHandshaker) None.
Proof.
  split; [apply Connect_session |].
  unfold Connect, IsExpired, Time_After.
  - intros (r & -> & Hv & Hnow & ->).
    destruct (ValidationData r) eqn:Hd; [contradiction |].
    replace (len (b :: l) =? 0) with false
      by (symmetry; apply Z.eqb_neq; unfold len; cbn [List.length]; lia).
    destruct (Z.ltb_spec (ValidUntil r) now); [lia |].
    destruct store; reflexivity.
Qed.

(** X27: [Send] never reports success, whatever the chat and the text: when
    [Connect] fails it returns the error of [Connect], when the handshake
    fails it returns the error of the handshake, and once both have passed
    it returns [ErrNotImplemented]. *)
Theorem Send_never_succeeds now env c chat text :
  Send now env c chat text <> Ok tt
  /\ (forall chat' text', Send now env c chat' text' = Send now env c chat text)
  /\ (forall e,
        Connect now (client_registration c) (Some (client_store c)) = Err e ->
        Send now env c chat text = Err e)
  /\ (forall s s' e,
        Connect now (client_registration c) (Some (client_store c)) = Ok s ->
        ensureHandshake env s = (s', Err e) ->
        Send now env c chat text = Err e)
  /\ (forall s s',
        Connect now (client_registration c) (Some (client_store c)) = Ok s ->
        ensureHandshake env s = (s', Ok tt) ->
        Send now env c chat text = Err ErrNotImplemented).
Proof.
  unfold Send. split; [| split; [| split; [| split]]].
  - destruct (Connect now _ _) as [s | |]; try discriminate.
    destruct (ensureHandshake env s) as [s' [[] | |]]; discriminate.
  - reflexivity.
  - intros e ->. reflexivity.
  - intros s s' e -> ->. reflexivity.
  - intros s s' -> ->. reflexivity.
Qed.

(** X28: [PollUnread] opens a new session for every call, and a new session has
    no channel: a poll that succeeds reports no message and leaves the
    client and its store as they were. *)
Theorem PollUnread_reports_nothing now env c c' summaries :
  PollUnread now env c = (c', Ok summaries) ->
  summaries = [] /\ c' = c.
Proof.
  unfold PollUnread.
  destruct (Connect now (client_registration c) (Some (client_store c)))
    as [s | |] eqn:Hc; try discriminate.
  apply Connect_session in Hc. destruct Hc as (r & Hr & _ & _ & ->).
  unfold FetchUnread.
  pose proof (ensureHandshake_frame env
                (mkSession (client_registration c) (client_store c) None
                   (Some RealHandshaker) None)) as Hs1.
  destruct (ensureHandshake env _) as [s1 [[] | e | m]]; try discriminate.
  cbn [fst] in Hs1.
  destruct (FetchMessages env s1) as [s2 r2] eqn:Hf.
  destruct r2 as [msgs | |]; try discriminate.
  assert (Hch : messageChan s1 = None) by (rewrite Hs1; reflexivity).
  pose proof Hf as Hf'. apply FetchMessages_nil_chan in Hf'; [| assumption].
  destruct Hf' as [-> Hch2]. cbn [filterUnread filter updateStore fold_left
                                  store_all map].
  intros [= <- <-]. split; [reflexivity |]. cbn [store set_store].
  assert (Hst : store s2 = client_store c).
  { unfold FetchMessages in Hf.
    pose proof (ensureHandshake_frame env s1) as Hs3.
    destruct (ensureHandshake env s1) as [s3 [[] | e | m]]; try discriminate.
    cbn [fst] in Hs3.
    destruct (drain _ _ _) as [ch ms]. injection Hf as <- _.
    cbn [store set_messageChan]. rewrite Hs3. cbn [store set_state].
    rewrite Hs1. reflexivity. }
  rewrite Hst. destruct c. reflexivity.
Qed.

End Handshake.

Section IDS.
Context `{Externals}.
Import ids.

(** X29: [Register] returns a response only if the request was marshalled, the
    signature over method, URL and body was made with the push key, the
    signed request with its five headers got a 200 answer, and the answer
    decoded to a document of status 0. *)
Theorem Register_success_inv t req pushKey registerResp :
  Register t req pushKey = Ok registerResp ->
  Status registerResp = 0
  /\ exists body signature respBody,
       plist_Marshal t req = Ok body
       /\ rsa_SignPKCS1v15 pushKey
            (sha1_Sum (list_byte_of_string "POST" ++ [x0a]
                       ++ list_byte_of_string idsRegisterURL ++ [x0a] ++ body))
          = Ok signature
       /\ client_Do t
            (mkHTTPRequest "POST" idsRegisterURL
               [("Content-Type", HLit "application/x-apple-plist");
                ("X-Protocol-Version", HLit "1640");
                ("User-Agent",
                 HSprintf "com.apple.invitation-registration [%s]"
                   (Req_SoftwareVersion req));
                ("X-Push-Sig", HBase64 signature);
                ("X-Push-Token", HLit "")]
               body)
          = Ok (mkHTTPResponse 200 (Ok respBody))
       /\ plist_Unmarshal t respBody = Ok registerResp.
Proof.
  unfold Register, signRequest.
  destruct (plist_Marshal t req) as [body | |]; cbn [wrap bind];
    try discriminate.
  cbn [Method URL set_header Header Header_Set Req_Body String.eqb Ascii.eqb
       Bool.eqb].
  unfold createSigningPayload.
  destruct (rsa_SignPKCS1v15 pushKey _) as [signature | |] eqn:Hs;
    cbn [wrap bind]; try discriminate.
  match goal with
  | |- context [client_Do t ?r] =>
      destruct (client_Do t r) as [[code rb] | |] eqn:Hdo
  end; cbn [wrap bind StatusCode Resp_Body]; try discriminate.
  destruct (Z.eqb_spec code 200) as [-> |]; cbn [negb];
    [| destruct rb; discriminate].
  destruct rb as [respBody | |]; cbn [wrap bind]; try discriminate.
  destruct (plist_Unmarshal t respBody) as [resp | |] eqn:Hu;
    cbn [wrap bind]; try discriminate.
  destruct (Z.eqb_spec (Status resp) 0) as [Hz |]; cbn [negb];
    [| discriminate].
  intros [= <-]. split; [assumption |].
  exists body, signature, respBody. repeat split; assumption.
Qed.

(** X30: [AuthenticateDevice] returns a response only if the unsigned request
    with its three headers got a 200 answer that decoded to a document of
    status 0; every other outcome is an error. *)
Theorem AuthenticateDevice_success_inv t req authResp :
  AuthenticateDevice t req = Ok authResp ->
  Auth_Status authResp = 0
  /\ exists body respBody,
       auth_Marshal t req = Ok body
       /\ auth_Do t
            (mkHTTPRequest "POST" idsAuthDevURL
               [("Content-Type", HLit "application/x-apple-plist");
                ("X-Protocol-Version", HLit "1640");
                ("User-Agent", HLit "imessage-client")]
               body)
          = Ok (mkHTTPResponse 200 (Ok respBody))
       /\ auth_Unmarshal t respBody = Ok authResp.
Proof.
  unfold AuthenticateDevice.
  destruct (auth_Marshal t req) as [body | |]; cbn [wrap bind];
    try discriminate.
  change (auth_request body)
    with (mkHTTPRequest "POST" idsAuthDevURL
            [("Content-Type", HLit "application/x-apple-plist");
             ("X-Protocol-Version", HLit "1640");
             ("User-Agent", HLit "imessage-client")]
            body).
  destruct (auth_Do t _) as [[code rb] | |] eqn:Hdo;
    cbn [wrap bind StatusCode Resp_Body]; try discriminate.
  destruct (Z.eqb_spec code 200) as [-> |]; cbn [negb]; [| discriminate].
  destruct rb as [respBody | |]; cbn [wrap bind]; try discriminate.
  destruct (auth_Unmarshal t respBody) as [resp | |] eqn:Hu;
    cbn [wrap bind]; try discriminate.
  destruct (Z.eqb_spec (Auth_Status resp) 0) as [Hz |]; cbn [negb];
    [| discriminate].
  intros [= <-]. split; [assumption |].
  exists body, respBody. repeat split; assumption.
Qed.

End IDS.

Lemma ensureHandshake_once_witness :
  fst (@ensureHandshake Fixtures.test_externals Samples.sample_handshake_env
         Samples.sample_session)
  = Samples.sample_session.
Proof.
  destruct (@ensureHandshake_once Fixtures.test_externals
              Samples.sample_handshake_env Samples.sample_session)
    as (_ & _ & Hsame & _).
  exact (Hsame ltac:(discriminate)).
Defined.

Lemma RealHandshaker_success_witness :
  exists st,
    @RealHandshaker_Handshake Fixtures.test_externals
      Samples.sample_handshake_env (Some Fixtures.test_registration) = Ok st
    /\ snd (@startAPNS Fixtures.test_externals Samples.sample_env
              (set_state Fixtures.test_session (Some st)))
       = Err (fmtError "missing push certificate or key" []).
Proof.
  destruct (@RealHandshaker_Handshake Fixtures.test_externals
              Samples.sample_handshake_env (Some Fixtures.test_registration))
    as [st | e | m] eqn:E.
  - exists st. split; [reflexivity |].
    destruct (@RealHandshaker_success Fixtures.test_externals
                Samples.sample_handshake_env (Some Fixtures.test_registration)
                st E)
      as (r & cfg & c & key & cert & _ & _ & _ & _ & _ & _ & _ & _ & _ & _
          & _ & _ & _ & _ & _ & _ & Hall).
    exact (proj2 (Hall Samples.sample_env
                    (set_state Fixtures.test_session (Some st)) eq_refl)).
  - vm_compute in E. discriminate.
  - vm_compute in E. discriminate.
Defined.

Lemma Connect_succeeds_iff_witness :
  @Connect Fixtures.test_externals 1000 (Some Fixtures.test_registration) None
  = Ok (mkSession (Some Fixtures.test_registration) [] None
          (Some RealHandshaker) None).
Proof.
  apply (proj2 (@Connect_succeeds_iff Fixtures.test_externals 1000
                  (Some Fixtures.test_registration) None
                  (mkSession (Some Fixtures.test_registration) [] None
                     (Some RealHandshaker) None))).
  exists Fixtures.test_registration.
  split; [reflexivity |]. split; [discriminate |].
  split; [cbn; lia | reflexivity].
Defined.

Lemma Send_never_succeeds_witness :
  @Send Fixtures.test_externals 500 Samples.sample_handshake_env
    (NewClient (Some Fixtures.test_registration)) "alice" "hi"
  = Err ErrNotImplemented.
Proof.
  eapply (proj2 (proj2 (proj2 (proj2
            (@Send_never_succeeds Fixtures.test_externals
               500 Samples.sample_handshake_env
               (NewClient (Some Fixtures.test_registration))
               "alice" "hi"))))).
  - reflexivity.
  - vm_compute. reflexivity.
Defined.

Lemma PollUnread_reports_nothing_witness :
  snd (@PollUnread Fixtures.test_externals 500
         Samples.sample_handshake_env
         (NewClient (Some Fixtures.test_registration)))
  = Ok [].
Proof.
  destruct (@PollUnread Fixtures.test_externals 500
              Samples.sample_handshake_env
              (NewClient (Some Fixtures.test_registration)))
    as [c' [sums | e | m]] eqn:E.
  - destruct (@PollUnread_reports_nothing Fixtures.test_externals
                500 Samples.sample_handshake_env
                (NewClient (Some Fixtures.test_registration)) c' sums E)
      as [-> _].
    reflexivity.
  - vm_compute in E. discriminate.
  - vm_compute in E. discriminate.
Defined.

Lemma Register_success_inv_witness :
  exists resp,
    @ids.Register Fixtures.test_externals
      (transport Samples.sample_handshake_env) Fixtures.test_request tt
    = Ok resp
    /\ ids.Status resp = 0.
Proof.
  destruct (@ids.Register Fixtures.test_externals
              (transport Samples.sample_handshake_env) Fixtures.test_request tt)
    as [resp | e | m] eqn:E.
  - exists resp. split; [reflexivity |].
    apply (proj1 (@Register_success_inv Fixtures.test_externals
                    (transport Samples.sample_handshake_env)
                    Fixtures.test_request tt resp E)).
  - vm_compute in E. discriminate.
  - vm_compute in E. discriminate.
Defined.

Lemma AuthenticateDevice_success_inv_witness :
  exists resp,
    ids.AuthenticateDevice
      (ids.mkAuthTransport
         (fun _ => Ok [x3c])
         (fun _ => Ok (ids.mkHTTPResponse 200 (Ok [x3c])))
         (fun _ => Ok (ids.mkDeviceAuthResp 0 [x30])))
      (ids.mkDeviceAuthReq "" [] [] [] "")
    = Ok resp
    /\ ids.Auth_Status resp = 0.
Proof.
  destruct (ids.AuthenticateDevice
              (ids.mkAuthTransport
                 (fun _ => Ok [x3c])
                 (fun _ => Ok (ids.mkHTTPResponse 200 (Ok [x3c])))
                 (fun _ => Ok (ids.mkDeviceAuthResp 0 [x30])))
              (ids.mkDeviceAuthReq "" [] [] [] ""))
    as [resp | e | m] eqn:E.
  - exists resp. split; [reflexivity |].
    apply (proj1 (AuthenticateDevice_success_inv _ _ resp E)).
  - vm_compute in E. discriminate.
  - vm_compute in E. discriminate.
Defined.

End handshake_facts.
